(** * imageDecoder: a PNG chunk walker and scanline reconstructor

    A shallow embedding of the two revisions of the decoder,
    [src/index.js] (the earlier one, RGBA only) and [src/unnamed/part_000]
    (the later one, which also accepts colour type 2), and the properties
    of [read32], [decodeIDAT], [decode] and [mean].

    Conventions of the embedding.
    - A JavaScript number that the program can hold is an integer, [NaN]
      or an infinity; numbers are exact (the program's integers stay far
      below 2^53 on every input that fits in memory) and [-0] is [0].
    - The one fraction the program forms is the scanline stride
      [width*depth*channels/8]; it is carried as its numerator over 8.
    - A [Uint8Array] is a [list Z] of bytes, a plain array a [list value].
    - [pako.inflate] is a parameter: [None] when it throws. *)

From Stdlib Require Import ZArith List Lia Bool String Permutation.
Import ListNotations.
Open Scope Z_scope.

(** ** JavaScript values *)

Inductive value : Type :=
| Undefined
| NaN
| Inf (negative : bool)
| Int (z : Z).

Module JS.

(** [ToNumber]: [undefined] becomes [NaN]. *)
Definition to_number (v : value) : value :=
  match v with Undefined => NaN | _ => v end.

Definition add (x y : value) : value :=
  match to_number x, to_number y with
  | Int a, Int b => Int (a + b)
  | Inf s, Inf t => if Bool.eqb s t then Inf s else NaN
  | Inf s, Int _ => Inf s
  | Int _, Inf t => Inf t
  | _, _ => NaN
  end.

Definition neg (x : value) : value :=
  match to_number x with
  | Int a => Int (- a)
  | Inf s => Inf (negb s)
  | _ => NaN
  end.

Definition sub (x y : value) : value := add x (neg y).

(** [x % 256]: the sign of the result is the sign of [x]. *)
Definition mod256 (x : value) : value :=
  match to_number x with
  | Int a => Int (Z.rem a 256)
  | _ => NaN
  end.

(** [Math.floor(x/2)]. *)
Definition floor_half (x : value) : value :=
  match to_number x with
  | Int a => Int (a / 2)
  | Inf s => Inf s
  | _ => NaN
  end.

(** [Math.abs]. *)
Definition abs (x : value) : value :=
  match to_number x with
  | Int a => Int (Z.abs a)
  | Inf _ => Inf false
  | _ => NaN
  end.

(** [x > y]: false as soon as one side is [NaN]. *)
Definition gt (x y : value) : bool :=
  match to_number x, to_number y with
  | Int a, Int b => b <? a
  | Inf false, Int _ => true
  | Int _, Inf true => true
  | Inf false, Inf true => true
  | _, _ => false
  end.

(** [Math.round(t/n)] for an array length [n]: the quotient rounded to
    the nearest integer, a half going up. *)
Definition round_div (t : value) (n : nat) : value :=
  match to_number t with
  | Int a =>
      match n with
      | O => if a =? 0 then NaN else Inf (a <? 0)
      | S _ => Int ((2 * a + Z.of_nat n) / (2 * Z.of_nat n))
      end
  | Inf s => Inf s
  | _ => NaN
  end.

(** [ToInt32], the operand conversion of [<<] and [|]. *)
Definition to_int32 (v : value) : Z :=
  match v with
  | Int a => (a + 2 ^ 31) mod 2 ^ 32 - 2 ^ 31
  | _ => 0
  end.

(** [x << n] for a shift count [0 <= n < 32]. *)
Definition shl (x : Z) (n : Z) : Z :=
  to_int32 (Int (Z.shiftl x n)).

End JS.

(** ** Arrays *)

Definition len {A} (l : list A) : Z := Z.of_nat (List.length l).

(** [l[i]] at an integer index; [None] stands for [undefined]. *)
Definition lookup {A} (l : list A) (i : Z) : option A :=
  if i <? 0 then None else nth_error l (Z.to_nat i).

(** Element read of a [Uint8Array]. *)
Definition byte_at (arr : list Z) (i : Z) : value :=
  match lookup arr i with Some b => Int b | None => Undefined end.

(** Element read of a plain array. *)
Definition elem_at (arr : list value) (i : Z) : value :=
  match lookup arr i with Some v => v | None => Undefined end.

(** [TypedArray.prototype.subarray(begin, end)] on integers: a negative
    bound counts from the end, both are clamped to the array. *)
Definition clamp_index (n i : Z) : Z :=
  if i <? 0 then Z.max (n + i) 0 else Z.min i n.

Definition subarray (arr : list Z) (b e : Z) : list Z :=
  let from := clamp_index (len arr) b in
  let to := clamp_index (len arr) e in
  firstn (Z.to_nat (to - from)) (skipn (Z.to_nat from) arr).

(** ** [read32] *)

(** [(arr[int++] << 24) | (arr[int++] << 16) | (arr[int++] << 08) | arr[int++]] *)
Definition read32 (arr : list Z) (int : Z) : Z :=
  Z.lor
    (Z.lor
       (Z.lor (JS.shl (JS.to_int32 (byte_at arr int)) 24)
              (JS.shl (JS.to_int32 (byte_at arr (int + 1))) 16))
       (JS.shl (JS.to_int32 (byte_at arr (int + 2))) 8))
    (JS.to_int32 (byte_at arr (int + 3))).

(** ** Errors

    The rejection values of the later revision, by kind: the messages are
    "This file is not a vaild png", the interlace message, the palette
    message, "Unsupported color-type: <color>..." and
    "Unsupported filter(<selector>) on <j>th scanline...".  The earlier
    revision rejects with bare strings; its "unsupported color-type" has
    no colour in it, which [UnsupportedColorType Undefined] stands for. *)

Inductive error : Type :=
| NotPng
| Interlaced
| Palette
| UnsupportedColorType (color : value)
| UnsupportedFilter (selector : value) (j : Z)
| DownloadFailed (cause : string).

(** ** [decodeIDAT]

    [length8] is eight times the [length] argument (the stride), [None]
    when that argument is [NaN]; [height] and [channels] are [None] when
    they are [undefined]. *)

Section Scanlines.

Variable data : list Z.
Variable length8 : option Z.
Variable channels : option Z.

(** An element read at an index given in eighths: a fractional, negative
    or [NaN] index reads [undefined]. *)
Definition at8 {A} (arr : list A) (i8 : option Z) : option A :=
  match i8 with
  | Some n => if n mod 8 =? 0 then lookup arr (n / 8) else None
  | None => None
  end.

Definition value_of (o : option value) : value :=
  match o with Some v => v | None => Undefined end.

Definition byte_value (o : option Z) : value :=
  match o with Some b => Int b | None => Undefined end.

(** [ToIntegerOrInfinity] of a bound given in eighths. *)
Definition trunc8 (i8 : option Z) : Z :=
  match i8 with Some n => Z.quot n 8 | None => 0 end.

(** [data[j*(length+1)]] *)
Definition selector (j : Z) : value :=
  byte_value (at8 data (option_map (fun l => j * (l + 8)) length8)).

(** [new Uint8Array(data.subarray(j*(length+1)+1, (j+1)*(length+1)))] *)
Definition scanline (j : Z) : list Z :=
  subarray data
    (trunc8 (option_map (fun l => j * (l + 8) + 8) length8))
    (trunc8 (option_map (fun l => (j + 1) * (l + 8)) length8)).

(** [start = j*length], in eighths. *)
Definition start8 (j : Z) : option Z :=
  option_map (fun l => j * l) length8.

(** [k>channels-1 ? bytes[start+k-channels] : 0] *)
Definition left (j k : Z) (bytes : list value) : value :=
  match channels with
  | Some c =>
      if c - 1 <? k
      then value_of (at8 bytes (option_map (fun s => s + 8 * k - 8 * c) (start8 j)))
      else Int 0
  | None => Int 0
  end.

(** [j ? bytes[start+k-length] : 0] *)
Definition up (j k : Z) (bytes : list value) : value :=
  if j =? 0 then Int 0
  else value_of (at8 bytes
         (match start8 j, length8 with
          | Some s, Some l => Some (s + 8 * k - l)
          | _, _ => None
          end)).

(** [k>channels-1&&j ? bytes[start+k-length-channels] : 0] *)
Definition upleft (j k : Z) (bytes : list value) : value :=
  match channels with
  | Some c =>
      if (c - 1 <? k) && negb (j =? 0)
      then value_of (at8 bytes
             (match start8 j, length8 with
              | Some s, Some l => Some (s + 8 * k - l - 8 * c)
              | _, _ => None
              end))
      else Int 0
  | None => Int 0
  end.

(** The value each [case] pushes for column [k] of row [j], [bytes]
    being the array as it stands before the push. *)
Definition filter_none (j k : Z) (bytes : list value) : value :=
  JS.mod256 (byte_at (scanline j) k).

Definition filter_sub (j k : Z) (bytes : list value) : value :=
  let a := left j k bytes in
  JS.mod256 (JS.add a (byte_at (scanline j) k)).

Definition filter_up (j k : Z) (bytes : list value) : value :=
  let b := up j k bytes in
  JS.mod256 (JS.add b (byte_at (scanline j) k)).

Definition filter_average (j k : Z) (bytes : list value) : value :=
  let a := left j k bytes in
  let b := up j k bytes in
  let avg := JS.floor_half (JS.add a b) in
  JS.mod256 (JS.add avg (byte_at (scanline j) k)).

Definition filter_paeth (j k : Z) (bytes : list value) : value :=
  let a := left j k bytes in
  let b := up j k bytes in
  let c := upleft j k bytes in
  let p := JS.sub (JS.add a b) c in
  if JS.gt (JS.abs (JS.sub p a)) (JS.abs (JS.sub p b)) then
    if JS.gt (JS.abs (JS.sub p b)) (JS.abs (JS.sub p c))
    then JS.mod256 (JS.add c (byte_at (scanline j) k))
    else JS.mod256 (JS.add b (byte_at (scanline j) k))
  else
    if JS.gt (JS.abs (JS.sub p a)) (JS.abs (JS.sub p c))
    then JS.mod256 (JS.add c (byte_at (scanline j) k))
    else JS.mod256 (JS.add a (byte_at (scanline j) k)).

(** The [switch] on the selector: the body of the matching [case], or
    [None] for [default]. *)
Definition filter_of (sel : value) : option (Z -> Z -> list value -> value) :=
  match sel with
  | Int s =>
      if s =? 0 then Some filter_none
      else if s =? 1 then Some filter_sub
      else if s =? 2 then Some filter_up
      else if s =? 3 then Some filter_average
      else if s =? 4 then Some filter_paeth
      else None
  | _ => None
  end.

(** [for (let k = 0; k < length; k++) bytes.push(...)]: the number of
    turns, and the loop from column [k] on. *)
Definition columns : nat :=
  match length8 with
  | Some l => Z.to_nat ((l + 7) / 8)
  | None => O
  end.

Fixpoint push_loop (n : nat) (k : Z) (body : Z -> list value -> value)
    (bytes : list value) : list value :=
  match n with
  | O => bytes
  | S n' => push_loop n' (k + 1) body (bytes ++ [body k bytes])
  end.

(** The rows [j, j+n) of [for (let j = 0; j < height; j++)]: the array
    once they are done, or the row whose selector met [default]. *)
Fixpoint row_loop (n : nat) (j : Z) (bytes : list value)
    : list value + (value * Z) :=
  match n with
  | O => inl bytes
  | S n' =>
      match filter_of (selector j) with
      | Some body => row_loop n' (j + 1) (push_loop columns 0 (body j) bytes)
      | None => inr (selector j, j)
      end
  end.

Definition rows (height : option Z) : nat :=
  match height with Some h => Z.to_nat h | None => O end.

(** The later revision: [default] calls the [reject] it was handed and
    returns [[]].  The result is the returned array and the rejection. *)
Definition decodeIDAT (height : option Z) : list value * option error :=
  match row_loop (rows height) 0 [] with
  | inl bytes => (bytes, None)
  | inr (sel, j) => ([], Some (UnsupportedFilter sel j))
  end.

End Scanlines.

(** ** [decode] *)

(** The [imageData] object: a field is [None] while it is [undefined]
    ([width], [height]) or holds what the array read gave ([depth],
    [color]). *)
Record imageData : Type := mkImage {
  width : option Z;
  height : option Z;
  depth : value;
  color : value;
  channels : option Z;
  data : list (list value)
}.

(** [var imageData = {}] *)
Definition empty_image : imageData :=
  mkImage None None Undefined Undefined None [].

(** How a promise ends: [Pending] is a promise nothing settles. *)
Inductive promise (A : Type) : Type :=
| Resolved (a : A)
| Rejected (e : error)
| Pending.

Arguments Resolved {A} a.
Arguments Rejected {A} e.
Arguments Pending {A}.

(** The chunk types the [switch] tells apart. *)
Inductive tag : Type := IHDR | PLTE | IDAT | IEND | Other.

Definition list_eqb (x y : list Z) : bool :=
  if list_eq_dec Z.eq_dec x y then true else false.

(** [String.fromCharCode(...png.subarray(i+4, i+8))] against the four
    [case] labels. *)
Definition tag_of (png : list Z) (i : Z) : tag :=
  let name := subarray png (i + 4) (i + 8) in
  if list_eqb name [73; 72; 68; 82] then IHDR
  else if list_eqb name [80; 76; 84; 69] then PLTE
  else if list_eqb name [73; 68; 65; 84] then IDAT
  else if list_eqb name [73; 69; 78; 68] then IEND
  else Other.

(** [png.subarray(0, 8).join() != "137,80,78,71,13,10,26,10"] *)
Definition signature_ok (png : list Z) : bool :=
  list_eqb (subarray png 0 8) [137; 80; 78; 71; 13; 10; 26; 10].

(** The variables of the executor while it walks the chunks: the cursor
    [i], [imageData], [base], [pixels], the first rejection (later calls
    of [reject] and the final [respond] change nothing once it is set),
    and, as a record of the run, the chunks dispatched so far. *)
Record walker : Type := mkWalker {
  i : Z;
  image : imageData;
  base : list Z;
  pixels : list value;
  rejected : option error;
  visited : list tag
}.

Definition reject (e : error) (w : walker) : walker :=
  mkWalker (i w) (image w) (base w) (pixels w)
    (match rejected w with Some e0 => Some e0 | None => Some e end)
    (visited w).

(** What one turn of the [while] loop ends in: the next turn, a [return]
    out of the executor, or an exception out of it. *)
Inductive turn : Type :=
| Next (w : walker)
| Return (w : walker)
| Throw (w : walker).

(** [width*depth*channels/8], as its numerator over 8. *)
Definition stride8 (img : imageData) : option Z :=
  match width img, depth img, channels img with
  | Some w, Int d, Some c => Some (w * d * c)
  | _, _, _ => None
  end.

(** [x == n] for a byte or [undefined] on the left. *)
Definition loose_eq (x : value) (n : Z) : bool :=
  match x with Int a => a =? n | _ => false end.

Section Decode.

(** [pako.inflate]: the decompressed bytes, or [None] when it throws. *)
Variable inflate : list Z -> option (list Z).

Variable png : list Z.

(** One turn of the loop of the later revision. *)
Definition chunk (w : walker) : turn :=
  let length := read32 png (i w) in
  let t := tag_of png (i w) in
  let seen := visited w ++ [t] in
  let advance (w' : walker) : turn :=
    Next (mkWalker (i w + (length + 12)) (image w') (base w') (pixels w')
            (rejected w') seen) in
  match t with
  | IHDR =>
      let img := mkImage (Some (read32 png (i w + 8)))
                         (Some (read32 png (i w + 12)))
                         (byte_at png (i w + 16))
                         (byte_at png (i w + 17)) None [] in
      let with_channels (c : option Z) : walker :=
        mkWalker (i w)
          (mkImage (width img) (height img) (depth img) (color img) c [])
          (base w) (pixels w) (rejected w) seen in
      if loose_eq (byte_at png (i w + 20)) 1 then
        Return (reject Interlaced (with_channels None))
      else if loose_eq (color img) 6 then advance (with_channels (Some 4))
      else if loose_eq (color img) 2 then advance (with_channels (Some 3))
      else if loose_eq (color img) 3 then
        advance (reject Palette (with_channels None))
      else
        Return (reject (UnsupportedColorType (color img)) (with_channels None))
  | PLTE => advance w
  | IDAT =>
      advance (mkWalker (i w) (image w)
                 (base w ++ subarray png (i w + 8) (i w + 8 + length))
                 (pixels w) (rejected w) seen)
  | IEND =>
      match inflate (base w) with
      | None => Throw (mkWalker (i w) (image w) (base w) (pixels w)
                         (rejected w) seen)
      | Some baseData =>
          let '(bytes, failure) :=
            decodeIDAT baseData (stride8 (image w)) (channels (image w))
              (height (image w)) in
          let w' := mkWalker (i w) (image w) (base w) bytes (rejected w) seen in
          advance (match failure with Some e => reject e w' | None => w' end)
      end
  | Other => advance w
  end.

(** [while (i < png["byteLength"])]: [None] when [fuel] turns were not
    enough. *)
Fixpoint walk (fuel : nat) (w : walker) : option turn :=
  if i w <? len png then
    match fuel with
    | O => None
    | S fuel' =>
        match chunk w with
        | Next w' => walk fuel' w'
        | stop => Some stop
        end
    end
  else Some (Next w).

(** The tuple [pixels2[i]] of the later revision. *)
Definition tuple (px : list value) (c : Z) (n : Z) : list value :=
  map (fun j => elem_at px (n * c + Z.of_nat j)) (seq 0 (Z.to_nat c)).

(** [for (let i = 0; i < pixels.length/imageData.channels; i++)]: the
    tuples, or [None] where the loop has no end (the bound is infinite
    for zero channels and a non-empty [pixels]). *)
Definition group (px : list value) (c : option Z) : option (list (list value)) :=
  match c with
  | None => Some []
  | Some c =>
      if c =? 0 then (if len px =? 0 then Some [] else None)
      else if c <? 0 then Some []
      else Some (map (fun n => tuple px c (Z.of_nat n))
                   (seq 0 (Z.to_nat ((len px + c - 1) / c))))
  end.

(** What a run of [decode] leaves: how the promise ends and the chunks
    that were dispatched. *)
Record run : Type := mkRun {
  outcome : promise imageData;
  chunks : list tag
}.

Definition settle (w : walker) (ok : promise imageData) : promise imageData :=
  match rejected w with Some e => Rejected e | None => ok end.

(** Past the loop: the tuples are built and [respond(imageData)] is
    called; after a [return] or an exception nothing more is done. *)
Definition finish (walked : option turn) : option run :=
  match walked with
  | None => None
  | Some (Next w) =>
      match group (pixels w) (channels (image w)) with
      | None => None
      | Some pixels2 =>
          let img := image w in
          Some (mkRun
                  (settle w (Resolved (mkImage (width img) (height img)
                                         (depth img) (color img)
                                         (channels img) pixels2)))
                  (visited w))
      end
  | Some (Return w) => Some (mkRun (settle w Pending) (visited w))
  | Some (Throw w) => Some (mkRun (settle w Pending) (visited w))
  end.

(** [var i = 8], with [imageData], [base] and [pixels] empty. *)
Definition start : walker := mkWalker 8 empty_image [] [] None [].

(** The executor of [decode] once [download] has given [png]; [None]
    when the run does not end within [fuel] turns of the loop. *)
Definition decode (fuel : nat) : option run :=
  if signature_ok png then finish (walk fuel start)
  else Some (mkRun (Rejected NotPng) []).

End Decode.

(** [decode(url)]: what [download] gave is either an error, which is
    handed to [reject] before the executor returns, or the bytes. *)
Definition decode_url (inflate : list Z -> option (list Z))
    (downloaded : string + list Z) (fuel : nat) : option run :=
  match downloaded with
  | inl cause => Some (mkRun (Rejected (DownloadFailed cause)) [])
  | inr png => decode inflate png fuel
  end.

Module Index.

(** [decodeIDAT(data, length, height)] of [src/index.js]: the pixel size
    is the literal 4, and [default] calls a [reject] that is not in
    scope, so a [ReferenceError] is thrown ([None]). *)
Definition decodeIDAT (data : list Z) (length8 : option Z) (height : option Z)
    : option (list value) :=
  match row_loop data length8 (Some 4) (rows height) 0 [] with
  | inl bytes => Some bytes
  | inr _ => None
  end.

Section Decode.

Variable inflate : list Z -> option (list Z).
Variable png : list Z.

(** [imageData.width*imageData.depth*4/8], as its numerator over 8. *)
Definition stride8 (img : imageData) : option Z :=
  match width img, depth img with
  | Some w, Int d => Some (w * d * 4)
  | _, _ => None
  end.

(** One turn of the loop of [src/index.js]: the colour type is checked
    before the interlace flag, every colour type but 6 is refused with
    the same string, and it is the palette chunk that rejects (and goes
    on). *)
Definition chunk (w : walker) : turn :=
  let length := read32 png (i w) in
  let t := tag_of png (i w) in
  let seen := visited w ++ [t] in
  let advance (w' : walker) : turn :=
    Next (mkWalker (i w + (length + 12)) (image w') (base w') (pixels w')
            (rejected w') seen) in
  match t with
  | IHDR =>
      let img := mkImage (Some (read32 png (i w + 8)))
                         (Some (read32 png (i w + 12)))
                         (byte_at png (i w + 16))
                         (byte_at png (i w + 17)) None [] in
      let w' := mkWalker (i w) img (base w) (pixels w) (rejected w) seen in
      if negb (loose_eq (color img) 6) then
        Return (reject (UnsupportedColorType Undefined) w')
      else if loose_eq (byte_at png (i w + 20)) 1 then
        Return (reject Interlaced w')
      else advance w'
  | PLTE =>
      advance (reject Palette
                 (mkWalker (i w) (image w) (base w) (pixels w) (rejected w) seen))
  | IDAT =>
      advance (mkWalker (i w) (image w)
                 (base w ++ subarray png (i w + 8) (i w + 8 + length))
                 (pixels w) (rejected w) seen)
  | IEND =>
      match inflate (base w) with
      | None => Throw (mkWalker (i w) (image w) (base w) (pixels w)
                         (rejected w) seen)
      | Some baseData =>
          match decodeIDAT baseData (stride8 (image w)) (height (image w)) with
          | None => Throw (mkWalker (i w) (image w) (base w) (pixels w)
                             (rejected w) seen)
          | Some bytes =>
              advance (mkWalker (i w) (image w) (base w) bytes (rejected w) seen)
          end
      end
  | Other => advance w
  end.

Fixpoint walk (fuel : nat) (w : walker) : option turn :=
  if i w <? len png then
    match fuel with
    | O => None
    | S fuel' =>
        match chunk w with
        | Next w' => walk fuel' w'
        | stop => Some stop
        end
    end
  else Some (Next w).

(** [pixels[i] = [pixels[i*4+0], ..., pixels[i*4+3]]] for [i < pixels.length/4],
    then [pixels.slice(0, pixels.length/4)].  Turn [i] reads the slots
    [4i .. 4i+3], none of which an earlier turn has overwritten (those
    are the slots below [i]), and [slice] keeps the first
    [floor(pixels.length/4)] slots, so every tuple kept is complete. *)
Definition group (px : list value) : list (list value) :=
  map (fun n => tuple px 4 (Z.of_nat n)) (seq 0 (Z.to_nat (len px / 4))).

Definition finish (walked : option turn) : option run :=
  match walked with
  | None => None
  | Some (Next w) =>
      let img := image w in
      Some (mkRun
              (settle w (Resolved (mkImage (width img) (height img)
                                     (depth img) (color img) None
                                     (group (pixels w)))))
              (visited w))
  | Some (Return w) => Some (mkRun (settle w Pending) (visited w))
  | Some (Throw w) => Some (mkRun (settle w Pending) (visited w))
  end.

Definition decode (fuel : nat) : option run :=
  if signature_ok png then finish (walk fuel start)
  else Some (mkRun (Rejected NotPng) []).

End Decode.

End Index.

(** ** [mean] *)

(** [arr[i] = v] on a plain array: a store past the end lengthens it. *)
Definition store (arr : list value) (n : nat) (v : value) : list value :=
  if (n <? List.length arr)%nat
  then firstn n arr ++ v :: skipn (S n) arr
  else arr ++ repeat Undefined (n - List.length arr) ++ [v].

(** [for (let i in pixel) totals[i] += pixel[i]], from index [n] on. *)
Fixpoint add_pixel (n : nat) (pixel : list value) (totals : list value)
    : list value :=
  match pixel with
  | [] => totals
  | v :: rest =>
      add_pixel (S n) rest (store totals n (JS.add (nth n totals Undefined) v))
  end.

(** [totals] after [image.data.forEach(...)]. *)
Definition sum_pixels (pixels : list (list value)) : list value :=
  fold_left (fun totals pixel => add_pixel 0 pixel totals) pixels
    [Int 0; Int 0; Int 0; Int 0].

(** [for (var i = 0; i < 4; i++) totals[i] = Math.round(totals[i]/image.data.length)],
    and the array returned. *)
Definition mean_color (pixels : list (list value)) : list value :=
  fold_left
    (fun totals n =>
       store totals n (JS.round_div (nth n totals Undefined) (List.length pixels)))
    [0; 1; 2; 3]%nat (sum_pixels pixels).

(** [let image = await decode(url)]: a rejection of [decode] is the
    rejection of [mean], and [mean] stays pending while [decode] does. *)
Definition mean_of (decoded : promise imageData) : promise (list value) :=
  match decoded with
  | Resolved image => Resolved (mean_color (data image))
  | Rejected e => Rejected e
  | Pending => Pending
  end.

Definition mean (inflate : list Z -> option (list Z))
    (downloaded : string + list Z) (fuel : nat) : option (promise (list value)) :=
  option_map (fun r => mean_of (outcome r)) (decode_url inflate downloaded fuel).

(** ** The filters as the specification words them *)

(** The Paeth choice in the specification's words: [a] if [pa <= pb] and
    [pa <= pc], else [b] if [pb <= pc], else [c]. *)
Definition paeth_choice (a b c : Z) : Z :=
  let p := a + b - c in
  let pa := Z.abs (p - a) in
  let pb := Z.abs (p - b) in
  let pc := Z.abs (p - c) in
  if (pa <=? pb) && (pa <=? pc) then a
  else if pb <=? pc then b
  else c.

Definition is_byte (b : Z) : Prop := 0 <= b < 256.

(** The array [bytes] holds, at position [p], what the filter of its row
    computes for its column from the array itself (stride [s], pixel size
    [c]). *)
Definition by_filter (data : list Z) (s c : Z) (bytes : list value) (p : Z) : Prop :=
  exists body,
    filter_of data (Some (8 * s)) (Some c)
      (selector data (Some (8 * s)) (p / s)) = Some body
    /\ lookup bytes p = Some (body (p / s) (p mod s) bytes).

Definition all_by_filter (data : list Z) (s c : Z) (bytes : list value) : Prop :=
  forall p, 0 <= p < len bytes -> by_filter data s c bytes p.

Definition is_byte_value (v : value) : Prop :=
  exists x, v = Int x /\ is_byte x.

(** ** The mean as the specification words it *)

(** The sum of channel [n] over the pixels that have it, with the
    program's addition. *)
Definition channel_total (n : nat) (pixels : list (list value)) : value :=
  fold_left
    (fun total pixel =>
       match nth_error pixel n with
       | Some v => JS.add total v
       | None => total
       end)
    pixels (Int 0).

(** The same sum over integer samples, as an integer. *)
Definition channel_sum (n : nat) (pixels : list (list value)) : Z :=
  fold_left
    (fun total pixel =>
       match nth_error pixel n with
       | Some (Int z) => total + z
       | _ => total
       end)
    pixels 0.

Definition integer_samples (pixels : list (list value)) : Prop :=
  forall pixel v, In pixel pixels -> In v pixel -> exists z, v = Int z.

(** ** The walk, for the invariants *)

Definition walker_of (t : turn) : walker :=
  match t with Next w => w | Return w => w | Throw w => w end.

(** What [imageData] can hold of the colour type and the pixel size in
    the later revision. *)
Definition image_shape (img : imageData) : Prop :=
  channels img = None
  \/ (color img = Int 6 /\ channels img = Some 4)
  \/ (color img = Int 2 /\ channels img = Some 3).

(** ** Sample files

    Each stream below is a zlib stream of one stored block, given with
    what it decompresses to; [sample_inflate] is an inflate that
    decompresses these streams and throws on any other input.  It
    stands for [pako.inflate] in the closed examples only (what the
    library does with a stored block handed over in a plain array
    depends on its version); the theorems take [inflate] as a variable.
    The files are whole PNG files, chunk checksums included. *)

Definition zlib_rgba16 : list Z :=
  [120; 1; 1; 9; 0; 246; 255; 0; 10; 20; 30; 255; 1; 2; 3; 4; 6; 168; 1; 70].
Definition zlib_two_pixels : list Z :=
  [120; 1; 1; 9; 0; 246; 255; 0; 10; 20; 30; 255; 20; 30; 40; 255; 8; 141; 2; 149].
Definition zlib_empty : list Z :=
  [120; 1; 1; 0; 0; 255; 255; 0; 0; 0; 1].
Definition zlib_rgb : list Z :=
  [120; 1; 1; 4; 0; 251; 255; 0; 10; 20; 30; 0; 104; 0; 61].
Definition zlib_indexed : list Z :=
  [120; 1; 1; 2; 0; 253; 255; 0; 0; 0; 2; 0; 1].

Definition sample_streams : list (list Z * list Z) :=
  [(zlib_rgba16, [0; 10; 20; 30; 255; 1; 2; 3; 4]);
   (zlib_two_pixels, [0; 10; 20; 30; 255; 20; 30; 40; 255]);
   (zlib_empty, []);
   (zlib_rgb, [0; 10; 20; 30]);
   (zlib_indexed, [0; 0])].

Fixpoint inflate_from (table : list (list Z * list Z)) (input : list Z)
    : option (list Z) :=
  match table with
  | [] => None
  | (stream, bytes) :: rest =>
      if list_eqb input stream then Some bytes else inflate_from rest input
  end.

Definition sample_inflate : list Z -> option (list Z) :=
  inflate_from sample_streams.

Definition png_signature : list Z := [137; 80; 78; 71; 13; 10; 26; 10].

Definition iend_chunk : list Z := [0; 0; 0; 0; 73; 69; 78; 68; 174; 66; 96; 130].

(** 1x1, bit depth 16, colour type 6: a well-formed 16-bit RGBA file. *)
Definition png_rgba16 : list Z :=
  png_signature
  ++ [0; 0; 0; 13; 73; 72; 68; 82; 0; 0; 0; 1; 0; 0; 0; 1; 16; 6; 0; 0; 0;
      79; 133; 24; 202]
  ++ [0; 0; 0; 20; 73; 68; 65; 84] ++ zlib_rgba16 ++ [37; 58; 69; 85]
  ++ iend_chunk.


(** 1x1, depth 8, colour type 3, with its palette, data and end chunks. *)
Definition png_indexed : list Z :=
  png_signature
  ++ [0; 0; 0; 13; 73; 72; 68; 82; 0; 0; 0; 1; 0; 0; 0; 1; 8; 3; 0; 0; 0;
      40; 203; 52; 187]
  ++ [0; 0; 0; 3; 80; 76; 84; 69; 255; 0; 0; 25; 226; 9; 55]
  ++ [0; 0; 0; 13; 73; 68; 65; 84] ++ zlib_indexed ++ [126; 5; 13; 210]
  ++ iend_chunk.

(** 2x1, depth 8, colour type 6: the pixels (10,20,30,255) and
    (20,30,40,255). *)
Definition png_two_pixels : list Z :=
  png_signature
  ++ [0; 0; 0; 13; 73; 72; 68; 82; 0; 0; 0; 2; 0; 0; 0; 1; 8; 6; 0; 0; 0;
      244; 34; 127; 138]
  ++ [0; 0; 0; 20; 73; 68; 65; 84] ++ zlib_two_pixels ++ [9; 62; 59; 140]
  ++ iend_chunk.

(** 0x0, depth 8, colour type 6 and colour type 2. *)
Definition png_no_pixels : list Z :=
  png_signature
  ++ [0; 0; 0; 13; 73; 72; 68; 82; 0; 0; 0; 0; 0; 0; 0; 0; 8; 6; 0; 0; 0;
      59; 139; 124; 18]
  ++ [0; 0; 0; 11; 73; 68; 65; 84] ++ zlib_empty ++ [137; 214; 174; 95]
  ++ iend_chunk.

Definition png_rgb_no_pixels : list Z :=
  png_signature
  ++ [0; 0; 0; 13; 73; 72; 68; 82; 0; 0; 0; 0; 0; 0; 0; 0; 8; 2; 0; 0; 0;
      180; 233; 235; 69]
  ++ [0; 0; 0; 11; 73; 68; 65; 84] ++ zlib_empty ++ [137; 214; 174; 95]
  ++ iend_chunk.

(** 1x1, depth 8, colour type 2: the pixel (10,20,30). *)
Definition png_rgb : list Z :=
  png_signature
  ++ [0; 0; 0; 13; 73; 72; 68; 82; 0; 0; 0; 1; 0; 0; 0; 1; 8; 2; 0; 0; 0;
      144; 119; 83; 222]
  ++ [0; 0; 0; 15; 73; 68; 65; 84] ++ zlib_rgb ++ [232; 12; 187; 131]
  ++ iend_chunk.


(** A decompressed stream of two scanlines of stride 8 whose last sample
    is missing, and one of two scanlines of stride 3 that ends after the
    first. *)
Definition cut_stream : list Z :=
  [1; 10; 20; 30; 255; 1; 1; 1; 1;
   3; 1; 2; 3; 4; 5; 6; 7].

Definition one_row_stream : list Z := [0; 1; 2; 3].

(** ** Sample inputs *)

(** Two scanlines of two RGBA pixels, both filtered with Paeth. *)
Definition paeth_stream : list Z :=
  [4; 10; 20; 30; 255; 1; 1; 1; 1;
   4; 1; 2; 3; 4; 5; 6; 7; 8].

Definition paeth_bytes : list value :=
  [Int 10; Int 20; Int 30; Int 255; Int 11; Int 21; Int 31; Int 0;
   Int 11; Int 22; Int 33; Int 3; Int 16; Int 28; Int 40; Int 8].

(** Two scanlines of two RGB pixels, both filtered with Sub. *)
Definition sub_stream : list Z :=
  [1; 10; 20; 30; 250; 1; 2;
   1; 5; 6; 7; 8; 9; 10].

Definition sub_bytes : list value :=
  [Int 10; Int 20; Int 30; Int 4; Int 21; Int 32;
   Int 5; Int 6; Int 7; Int 13; Int 15; Int 17].

(** ** Vocabulary of the further properties *)

(** The byte [read32] works with at an index: the element, or 0 where
    the array has none. *)
Definition present (arr : list Z) (p : Z) : Z :=
  match lookup arr p with Some b => b | None => 0 end.

(** The layout [decode] reads: [laid_out png i cs j] says that the
    chunks [cs], each a type and a payload, lie one after another in
    [png] from index [i] to index [j]; a chunk is its payload length in
    four bytes, its type in four, the payload, and four bytes of
    checksum that nothing reads. *)
Inductive laid_out (png : list Z) : Z -> list (tag * list Z) -> Z -> Prop :=
| laid_nil (i : Z) : laid_out png i [] i
| laid_cons (i : Z) (t : tag) (payload : list Z)
    (rest : list (tag * list Z)) (j : Z) :
    0 <= i ->
    i + len payload + 12 <= len png ->
    read32 png i = len payload ->
    tag_of png i = t ->
    subarray png (i + 8) (i + 8 + len payload) = payload ->
    laid_out png (i + (len payload + 12)) rest j ->
    laid_out png i ((t, payload) :: rest) j.

(** The payloads of the image-data chunks, in file order. *)
Definition idat_payloads (cs : list (tag * list Z)) : list Z :=
  flat_map (fun c => match fst c with IDAT => snd c | _ => [] end) cs.

(** A chunk that is neither the header nor the end chunk. *)
Definition data_chunk (c : tag * list Z) : Prop :=
  fst c = PLTE \/ fst c = IDAT \/ fst c = Other.

Definition has_palette (cs : list (tag * list Z)) : bool :=
  existsb (fun c => match fst c with PLTE => true | _ => false end) cs.

(** Further sample files.  The stream [zlib_rgba] is a stored block of
    the bytes 0,10,20,30,255; [more_inflate] knows it besides the
    streams above. *)
Definition zlib_rgba : list Z :=
  [120; 1; 1; 5; 0; 250; 255; 0; 10; 20; 30; 255; 1; 164; 1; 60].

Definition more_inflate : list Z -> option (list Z) :=
  inflate_from ((zlib_rgba, [0; 10; 20; 30; 255]) :: sample_streams).

Definition ihdr_rgba_1x1 : list Z :=
  [0; 0; 0; 13; 73; 72; 68; 82; 0; 0; 0; 1; 0; 0; 0; 1; 8; 6; 0; 0; 0;
   31; 21; 196; 137].

Definition gama_chunk : list Z :=
  [0; 0; 0; 4; 103; 65; 77; 65; 0; 0; 177; 143; 11; 252; 97; 5].

(** 1x1 RGBA with a gamma chunk and its image data split over two
    image-data chunks, of 7 and 9 bytes. *)
Definition png_split : list Z :=
  png_signature ++ ihdr_rgba_1x1 ++ gama_chunk
  ++ [0; 0; 0; 7; 73; 68; 65; 84; 120; 1; 1; 5; 0; 250; 255; 148; 98; 169; 245]
  ++ [0; 0; 0; 9; 73; 68; 65; 84; 0; 10; 20; 30; 255; 1; 164; 1; 60;
      0; 96; 110; 62]
  ++ iend_chunk.

(** 1x1 RGBA whose image data is no zlib stream. *)
Definition png_bad_data : list Z :=
  png_signature ++ ihdr_rgba_1x1
  ++ [0; 0; 0; 3; 73; 68; 65; 84; 1; 2; 3; 83; 55; 23; 173]
  ++ iend_chunk.

(** 1x1 RGBA that stops after its gamma chunk. *)
Definition png_no_end : list Z :=
  png_signature ++ ihdr_rgba_1x1 ++ gama_chunk.

(** 1x1 RGBA that carries a (suggested) palette. *)
Definition png_rgba_with_palette : list Z :=
  png_signature ++ ihdr_rgba_1x1
  ++ [0; 0; 0; 3; 80; 76; 84; 69; 255; 0; 0; 25; 226; 9; 55]
  ++ [0; 0; 0; 16; 73; 68; 65; 84] ++ zlib_rgba ++ [0; 0; 0; 0]
  ++ iend_chunk.

(** Headers only: 1x1 colour type 2 interlaced, and 1x1 greyscale. *)
Definition png_interlaced : list Z :=
  png_signature
  ++ [0; 0; 0; 13; 73; 72; 68; 82; 0; 0; 0; 1; 0; 0; 0; 1; 8; 2; 0; 0; 1;
      231; 112; 99; 72].

Definition png_grey : list Z :=
  png_signature
  ++ [0; 0; 0; 13; 73; 72; 68; 82; 0; 0; 0; 1; 0; 0; 0; 1; 8; 0; 0; 0; 0;
      58; 126; 155; 85].

(** The signature and a chunk whose length field is -12. *)
Definition png_stuck : list Z :=
  png_signature ++ [255; 255; 255; 244; 0; 0; 0; 0; 0; 0; 0; 0].

(** The rejection the earlier revision has raised once it is past the
    chunks [cs]: the one it had, or the palette one if a palette chunk
    is among them. *)
Definition palette_rejection (r : option error) (cs : list (tag * list Z))
    : option error :=
  match r with
  | Some e => Some e
  | None => if has_palette cs then Some Palette else None
  end.

(** A gamma chunk, image data and an end chunk with no header chunk. *)
Definition png_headerless : list Z :=
  png_signature ++ gama_chunk
  ++ [0; 0; 0; 16; 73; 68; 65; 84] ++ zlib_rgba ++ [0; 0; 0; 0]
  ++ iend_chunk.

(** The offsets the cursor of the [while] loop can stand at: 8, and
    [i + length + 12] after a turn at [i]. *)
Inductive on_chain (png : list Z) : Z -> Prop :=
| chain_start : on_chain png 8
| chain_next (p : Z) :
    on_chain png p -> p < len png ->
    on_chain png (p + (read32 png p + 12)).

(** The Paeth rule in the specification's words, at column [k] of row
    [j] of the reconstructed array [bytes], [f] being the filtered byte:
    [a], [b] and [c] are the reconstructed bytes to the left, above and
    above-left (0 where there is none), the byte is
    [(chosen + f) mod 256], and [chosen] is [a] when the three are
    equal. *)
Definition paeth_rule (stride channels : Z) (bytes : list value)
    (j k f : Z) : Prop :=
  exists a b c,
    (if k <? channels then Int 0
     else elem_at bytes (j * stride + k - channels)) = Int a
    /\ (if j =? 0 then Int 0
        else elem_at bytes ((j - 1) * stride + k)) = Int b
    /\ (if (k <? channels) || (j =? 0) then Int 0
        else elem_at bytes ((j - 1) * stride + k - channels)) = Int c
    /\ lookup bytes (j * stride + k) = Some (Int ((paeth_choice a b c + f) mod 256))
    /\ (a = b -> b = c ->
        lookup bytes (j * stride + k) = Some (Int ((a + f) mod 256))).



(** [q] is the integer nearest to [t/n], a half going up. *)
Definition nearest_integer (t n q : Z) : Prop :=
  2 * t - n < 2 * n * q <= 2 * t + n.

(** The nine bytes of the two-pixel scanline as a zlib stream of one
    block with fixed Huffman codes, an inflate that knows this stream
    only, and the 2x1 file of it. *)
Definition zlib_two_pixels_packed : list Z :=
  [120; 218; 99; 224; 18; 145; 251; 47; 34; 167; 241; 31; 0; 8; 141; 2; 149].

Definition packed_inflate : list Z -> option (list Z) :=
  inflate_from [(zlib_two_pixels_packed, [0; 10; 20; 30; 255; 20; 30; 40; 255])].

Definition png_two_pixels_packed : list Z :=
  png_signature
  ++ [0; 0; 0; 13; 73; 72; 68; 82; 0; 0; 0; 2; 0; 0; 0; 1; 8; 6; 0; 0; 0;
      244; 34; 127; 138]
  ++ [0; 0; 0; 17; 73; 68; 65; 84] ++ zlib_two_pixels_packed
  ++ [90; 115; 138; 162]
  ++ iend_chunk.

(** * Properties *)

(** ** [read32] *)

Lemma lor_mul_pow2 (x n y : Z) :
  0 <= n -> 0 <= y < 2 ^ n -> Z.lor (x * 2 ^ n) y = x * 2 ^ n + y.
Proof.
  intros Hn Hy.
  assert (Hland : Z.land (x * 2 ^ n) y = 0).
  { apply Z.bits_inj'. intros m Hm.
    rewrite Z.land_spec, Z.bits_0.
    destruct (Z.lt_ge_cases m n) as [Hlt | Hge].
    - rewrite Z.mul_pow2_bits_low by assumption. reflexivity.
    - destruct (Z.eq_dec y 0) as [-> | Hy0].
      + rewrite Z.bits_0. apply andb_false_r.
      + rewrite (Z.bits_above_log2 y m).
        * apply andb_false_r.
        * lia.
        * apply Z.log2_lt_pow2; try lia.
          apply Z.lt_le_trans with (2 ^ n); try lia.
          apply Z.pow_le_mono_r; lia. }
  rewrite <- (Z.add_lor_land (x * 2 ^ n) y), Hland. lia.
Qed.

Lemma to_int32_small (x : Z) :
  - 2 ^ 31 <= x < 2 ^ 31 -> JS.to_int32 (Int x) = x.
Proof.
  intros H. unfold JS.to_int32.
  rewrite Z.mod_small; lia.
Qed.

Lemma shl_byte (b n : Z) :
  is_byte b -> 0 <= n <= 16 -> JS.shl (JS.to_int32 (Int b)) n = b * 2 ^ n.
Proof.
  intros Hb Hn. unfold is_byte in Hb.
  rewrite to_int32_small by lia.
  unfold JS.shl. rewrite Z.shiftl_mul_pow2 by lia.
  apply to_int32_small.
  assert (2 ^ n <= 2 ^ 16) by (apply Z.pow_le_mono_r; lia).
  assert (0 < 2 ^ n) by (apply Z.pow_pos_nonneg; lia).
  change (2 ^ 16) with 65536 in *. nia.
Qed.

Lemma shl_byte_24 (b : Z) :
  is_byte b ->
  JS.shl (JS.to_int32 (Int b)) 24 =
  (if b <? 128 then b else b - 256) * 2 ^ 24.
Proof.
  intros Hb. unfold is_byte in Hb.
  rewrite to_int32_small by lia.
  unfold JS.shl. rewrite Z.shiftl_mul_pow2 by lia.
  unfold JS.to_int32.
  destruct (b <? 128) eqn:E.
  - apply Z.ltb_lt in E. rewrite Z.mod_small; lia.
  - apply Z.ltb_ge in E.
    replace (b * 2 ^ 24 + 2 ^ 31) with ((b - 128) * 2 ^ 24 + 1 * 2 ^ 32) by lia.
    rewrite Z.mod_add by lia.
    rewrite Z.mod_small; lia.
Qed.

(** C7, as the code has it: the four bytes are composed big-endian and
    the 32-bit pattern is read as a signed (two's complement) integer:
    the unsigned value when the first byte is below 128, that value
    minus 2^32 (a negative number) from 128 on. *)
Theorem read32_signed_big_endian (arr : list Z) (int b0 b1 b2 b3 : Z) :
  lookup arr int = Some b0 ->
  lookup arr (int + 1) = Some b1 ->
  lookup arr (int + 2) = Some b2 ->
  lookup arr (int + 3) = Some b3 ->
  is_byte b0 -> is_byte b1 -> is_byte b2 -> is_byte b3 ->
  read32 arr int =
    (if b0 <? 128
     then b0 * 2 ^ 24 + b1 * 2 ^ 16 + b2 * 2 ^ 8 + b3
     else b0 * 2 ^ 24 + b1 * 2 ^ 16 + b2 * 2 ^ 8 + b3 - 2 ^ 32)
  /\ (b0 < 128 -> 0 <= read32 arr int < 2 ^ 31)
  /\ (128 <= b0 -> - 2 ^ 31 <= read32 arr int < 0).
Proof.
  intros L0 L1 L2 L3 H0 H1 H2 H3.
  assert (E : read32 arr int =
              (if b0 <? 128 then b0 else b0 - 256) * 2 ^ 24
              + b1 * 2 ^ 16 + b2 * 2 ^ 8 + b3).
  { unfold read32, byte_at. rewrite L0, L1, L2, L3.
    rewrite shl_byte_24 by assumption.
    rewrite !shl_byte by (assumption || lia).
    rewrite (to_int32_small b3) by (unfold is_byte in H3; lia).
    set (h := if b0 <? 128 then b0 else b0 - 256).
    unfold is_byte in *.
    rewrite (lor_mul_pow2 h 24 (b1 * 2 ^ 16)) by lia.
    replace (h * 2 ^ 24 + b1 * 2 ^ 16) with ((h * 2 ^ 8 + b1) * 2 ^ 16) by lia.
    rewrite (lor_mul_pow2 _ 16 (b2 * 2 ^ 8)) by lia.
    replace ((h * 2 ^ 8 + b1) * 2 ^ 16 + b2 * 2 ^ 8)
      with (((h * 2 ^ 8 + b1) * 2 ^ 8 + b2) * 2 ^ 8) by lia.
    rewrite (lor_mul_pow2 _ 8 b3) by lia.
    lia. }
  rewrite E. unfold is_byte in *.
  destruct (b0 <? 128) eqn:C.
  - apply Z.ltb_lt in C. repeat split; intros; lia.
  - apply Z.ltb_ge in C. repeat split; intros; lia.
Qed.

Lemma read32_signed_big_endian_witness :
  read32 [128; 0; 0; 1] 0 = 128 * 2 ^ 24 + 0 * 2 ^ 16 + 0 * 2 ^ 8 + 1 - 2 ^ 32
  /\ read32 [0; 0; 0; 13] 0 = 13.
Proof.
  split.
  - pose proof (read32_signed_big_endian [128; 0; 0; 1] 0 128 0 0 1
                  eq_refl eq_refl eq_refl eq_refl) as H.
    unfold is_byte in H.
    destruct H as [H _]; try lia. exact H.
  - pose proof (read32_signed_big_endian [0; 0; 0; 13] 0 0 0 0 13
                  eq_refl eq_refl eq_refl eq_refl) as H.
    unfold is_byte in H.
    destruct H as [H _]; try lia. exact H.
Defined.

(** C7 as stated fails: with a first byte of 128 or more the result is
    negative, not the unsigned value. *)
Lemma read32_high_byte_is_negative :
  read32 [255; 255; 255; 255] 0 = -1
  /\ read32 [128; 0; 0; 0] 0 = - 2 ^ 31
  /\ 255 * 2 ^ 24 + 255 * 2 ^ 16 + 255 * 2 ^ 8 + 255 = 4294967295.
Proof. repeat split. Qed.

(** ** [decodeIDAT] at a whole stride *)

Lemma lookup_app_old {A} (l : list A) (x : A) (p : Z) :
  p < len l -> lookup (l ++ [x]) p = lookup l p.
Proof.
  unfold lookup, len. intros H.
  destruct (p <? 0) eqn:E; [reflexivity|].
  apply Z.ltb_ge in E.
  apply nth_error_app1. lia.
Qed.

Lemma lookup_app_new {A} (l : list A) (x : A) :
  lookup (l ++ [x]) (len l) = Some x.
Proof.
  unfold lookup, len.
  destruct (Z.of_nat (List.length l) <? 0) eqn:E.
  - apply Z.ltb_lt in E. lia.
  - rewrite Nat2Z.id, nth_error_app2 by lia.
    rewrite Nat.sub_diag. reflexivity.
Qed.

Lemma len_app_one {A} (l : list A) (x : A) : len (l ++ [x]) = len l + 1.
Proof. unfold len. rewrite length_app. simpl. lia. Qed.

Lemma lookup_Some_lt {A} (l : list A) (p : Z) (x : A) :
  lookup l p = Some x -> 0 <= p < len l.
Proof.
  unfold lookup, len. destruct (p <? 0) eqn:E; [discriminate|].
  apply Z.ltb_ge in E. intros H.
  assert (Z.to_nat p < List.length l)%nat
    by (apply nth_error_Some; congruence).
  lia.
Qed.

Lemma lookup_lt_Some {A} (l : list A) (p : Z) :
  0 <= p < len l -> exists x, lookup l p = Some x.
Proof.
  unfold lookup, len. intros H.
  destruct (p <? 0) eqn:E; [apply Z.ltb_lt in E; lia|].
  destruct (nth_error l (Z.to_nat p)) eqn:N; [eauto|].
  apply nth_error_None in N. lia.
Qed.

Lemma lookup_ge_None {A} (l : list A) (p : Z) :
  len l <= p -> lookup l p = None.
Proof.
  unfold lookup, len. intros H.
  destruct (p <? 0); [reflexivity|].
  apply nth_error_None. lia.
Qed.

Lemma at8_int {A} (arr : list A) (n : Z) : at8 arr (Some (8 * n)) = lookup arr n.
Proof.
  unfold at8. rewrite Z.mul_comm, Z.mod_mul by lia. simpl.
  rewrite Z.div_mul by lia. reflexivity.
Qed.

(** A read through [subarray] is a read of the array itself. *)
Lemma lookup_subarray (arr : list Z) (b e k : Z) :
  0 <= b -> 0 <= k -> b + k < e ->
  lookup (subarray arr b e) k = lookup arr (b + k).
Proof.
  intros Hb Hk He. unfold subarray, clamp_index.
  destruct (b <? 0) eqn:Eb; [apply Z.ltb_lt in Eb; lia|].
  destruct (e <? 0) eqn:Ee; [apply Z.ltb_lt in Ee; lia|].
  unfold lookup.
  destruct (k <? 0) eqn:Ek; [apply Z.ltb_lt in Ek; lia|].
  destruct (b + k <? 0) eqn:Ebk; [apply Z.ltb_lt in Ebk; lia|].
  rewrite nth_error_firstn.
  destruct (Z.lt_ge_cases (b + k) (len arr)) as [Hin | Hout].
  - replace (Z.to_nat k <? Z.to_nat (Z.min e (len arr) - Z.min b (len arr)))%nat
      with true by (symmetry; apply Nat.ltb_lt; lia).
    rewrite nth_error_skipn. f_equal. lia.
  - replace (Z.to_nat k <? Z.to_nat (Z.min e (len arr) - Z.min b (len arr)))%nat
      with false by (symmetry; apply Nat.ltb_ge; lia).
    symmetry. apply nth_error_None. unfold len in Hout. lia.
Qed.

Section WholeStride.

Variable data : list Z.
Variables s c : Z.

Lemma selector_int (j : Z) :
  selector data (Some (8 * s)) j = byte_value (lookup data (j * (s + 1))).
Proof.
  unfold selector, option_map.
  replace (j * (8 * s + 8)) with (8 * (j * (s + 1))) by lia.
  now rewrite at8_int.
Qed.

Lemma scanline_int (j k : Z) :
  0 <= j -> 0 <= k < s ->
  byte_at (scanline data (Some (8 * s)) j) k = byte_at data (j * (s + 1) + 1 + k).
Proof.
  intros Hj Hk. unfold scanline, trunc8, byte_at, option_map.
  replace (j * (8 * s + 8) + 8) with ((j * (s + 1) + 1) * 8) by lia.
  replace ((j + 1) * (8 * s + 8)) with (((j + 1) * (s + 1)) * 8) by lia.
  rewrite !Z.quot_mul by lia.
  rewrite lookup_subarray by nia. reflexivity.
Qed.

Lemma columns_int : columns (Some (8 * s)) = Z.to_nat s.
Proof.
  unfold columns. f_equal.
  symmetry. apply (Z.div_unique (8 * s + 7) 8 s 7); lia.
Qed.

Lemma left_int (j k : Z) (bs : list value) :
  left (Some (8 * s)) (Some c) j k bs =
  if c - 1 <? k then elem_at bs (j * s + k - c) else Int 0.
Proof.
  unfold left, start8, option_map.
  destruct (c - 1 <? k); [|reflexivity].
  replace (j * (8 * s) + 8 * k - 8 * c) with (8 * (j * s + k - c)) by lia.
  now rewrite at8_int.
Qed.

Lemma up_int (j k : Z) (bs : list value) :
  up (Some (8 * s)) j k bs =
  if j =? 0 then Int 0 else elem_at bs (j * s + k - s).
Proof.
  unfold up, start8, option_map.
  destruct (j =? 0); [reflexivity|].
  replace (j * (8 * s) + 8 * k - 8 * s) with (8 * (j * s + k - s)) by lia.
  now rewrite at8_int.
Qed.

Lemma upleft_int (j k : Z) (bs : list value) :
  upleft (Some (8 * s)) (Some c) j k bs =
  if (c - 1 <? k) && negb (j =? 0)
  then elem_at bs (j * s + k - s - c) else Int 0.
Proof.
  unfold upleft, start8, option_map.
  destruct ((c - 1 <? k) && negb (j =? 0)); [|reflexivity].
  replace (j * (8 * s) + 8 * k - 8 * s - 8 * c)
    with (8 * (j * s + k - s - c)) by lia.
  now rewrite at8_int.
Qed.

End WholeStride.

(** *** The loops, by invariant *)

Lemma push_loop_invariant (P : Z -> list value -> Prop)
    (body : Z -> list value -> value) (n : nat) :
  forall (k : Z) (bs : list value),
    P k bs ->
    (forall m b, k <= m < k + Z.of_nat n -> P m b -> P (m + 1) (b ++ [body m b])) ->
    P (k + Z.of_nat n) (push_loop n k body bs).
Proof.
  induction n as [|n IH]; intros k bs H0 Hstep.
  - simpl. now rewrite Z.add_0_r.
  - cbn [push_loop].
    replace (k + Z.of_nat (S n)) with ((k + 1) + Z.of_nat n) by lia.
    apply IH.
    + apply Hstep; [lia | assumption].
    + intros m b Hm. apply Hstep. lia.
Qed.

Lemma row_loop_invariant (data : list Z) (length8 channels : option Z)
    (P : Z -> list value -> Prop) (n : nat) :
  forall (j : Z) (bs out : list value),
    P j bs ->
    (forall r b body,
        j <= r < j + Z.of_nat n -> P r b ->
        filter_of data length8 channels (selector data length8 r) = Some body ->
        P (r + 1) (push_loop (columns length8) 0 (body r) b)) ->
    row_loop data length8 channels n j bs = inl out ->
    P (j + Z.of_nat n) out.
Proof.
  induction n as [|n IH]; intros j bs out H0 Hstep Hrun.
  - simpl in Hrun. injection Hrun as <-.
    simpl. now rewrite Z.add_0_r.
  - cbn [row_loop] in Hrun.
    destruct (filter_of data length8 channels (selector data length8 j))
      as [body|] eqn:Hf; [|discriminate].
    replace (j + Z.of_nat (S n)) with ((j + 1) + Z.of_nat n) by lia.
    apply (IH (j + 1) (push_loop (columns length8) 0 (body j) bs) out).
    + apply Hstep; [lia | assumption | assumption].
    + intros r b body' Hr. apply Hstep. lia.
    + assumption.
Qed.

Lemma filter_of_cases (data : list Z) (length8 channels : option Z)
    (sel : value) (body : Z -> Z -> list value -> value) :
  filter_of data length8 channels sel = Some body ->
  (sel = Int 0 /\ body = filter_none data length8)
  \/ (sel = Int 1 /\ body = filter_sub data length8 channels)
  \/ (sel = Int 2 /\ body = filter_up data length8)
  \/ (sel = Int 3 /\ body = filter_average data length8 channels)
  \/ (sel = Int 4 /\ body = filter_paeth data length8 channels).
Proof.
  unfold filter_of. destruct sel as [| | |z]; try discriminate.
  destruct (z =? 0) eqn:E0; [apply Z.eqb_eq in E0; subst; intros [= <-]; auto|].
  destruct (z =? 1) eqn:E1; [apply Z.eqb_eq in E1; subst; intros [= <-]; auto|].
  destruct (z =? 2) eqn:E2; [apply Z.eqb_eq in E2; subst; intros [= <-]; auto 6|].
  destruct (z =? 3) eqn:E3; [apply Z.eqb_eq in E3; subst; intros [= <-]; auto 6|].
  destruct (z =? 4) eqn:E4; [apply Z.eqb_eq in E4; subst; intros [= <-]; auto 7|].
  discriminate.
Qed.

Section Reconstruction.

Variable data : list Z.
Variables s c : Z.
Hypothesis c_pos : 0 < c.

Lemma elem_at_agree (bs bs' : list value) (p q : Z) :
  (forall i, i < p -> lookup bs i = lookup bs' i) -> q < p ->
  elem_at bs q = elem_at bs' q.
Proof. intros H Hq. unfold elem_at. now rewrite (H q Hq). Qed.

(** What a filter computes for column [k] of row [j] depends on the
    array below position [j*s+k] only. *)
Lemma filter_local (sel : value) (body : Z -> Z -> list value -> value)
    (j k : Z) (bs bs' : list value) :
  filter_of data (Some (8 * s)) (Some c) sel = Some body ->
  0 <= j -> 0 <= k < s ->
  (forall i, i < j * s + k -> lookup bs i = lookup bs' i) ->
  body j k bs = body j k bs'.
Proof.
  intros Hf Hj Hk Hag.
  assert (Ha : left (Some (8 * s)) (Some c) j k bs
               = left (Some (8 * s)) (Some c) j k bs').
  { rewrite !left_int. destruct (c - 1 <? k); [|reflexivity].
    apply (elem_at_agree _ _ (j * s + k)); [assumption | lia]. }
  assert (Hb : up (Some (8 * s)) j k bs = up (Some (8 * s)) j k bs').
  { rewrite !up_int. destruct (j =? 0); [reflexivity|].
    apply (elem_at_agree _ _ (j * s + k)); [assumption | lia]. }
  assert (Hc : upleft (Some (8 * s)) (Some c) j k bs
               = upleft (Some (8 * s)) (Some c) j k bs').
  { rewrite !upleft_int. destruct ((c - 1 <? k) && negb (j =? 0)); [|reflexivity].
    apply (elem_at_agree _ _ (j * s + k)); [assumption | lia]. }
  destruct (filter_of_cases _ _ _ _ _ Hf)
    as [[_ ->] | [[_ ->] | [[_ ->] | [[_ ->] | [_ ->]]]]].
  - reflexivity.
  - unfold filter_sub. now rewrite Ha.
  - unfold filter_up. now rewrite Hb.
  - unfold filter_average. now rewrite Ha, Hb.
  - unfold filter_paeth. now rewrite Ha, Hb, Hc.
Qed.

Lemma position_row (j k : Z) : 0 <= k < s -> (j * s + k) / s = j.
Proof. intros Hk. symmetry. apply (Z.div_unique_pos _ _ j k); lia. Qed.

Lemma position_column (j k : Z) : 0 <= k < s -> (j * s + k) mod s = k.
Proof. intros Hk. symmetry. apply (Z.mod_unique_pos _ _ j k); lia. Qed.

Lemma push_by_filter (bs : list value) (j k : Z)
    (body : Z -> Z -> list value -> value) :
  all_by_filter data s c bs ->
  len bs = j * s + k -> 0 <= j -> 0 <= k < s ->
  filter_of data (Some (8 * s)) (Some c) (selector data (Some (8 * s)) j) = Some body ->
  all_by_filter data s c (bs ++ [body j k bs]).
Proof.
  intros Hinv Hlen Hj Hk Hf p Hp.
  rewrite len_app_one in Hp.
  destruct (Z.lt_ge_cases p (len bs)) as [Hold | Hnew].
  - destruct (Hinv p) as (body' & Hf' & Hl'); [lia|].
    exists body'. split; [assumption|].
    rewrite lookup_app_old by assumption. rewrite Hl'. f_equal.
    apply (filter_local _ _ _ _ _ _ Hf').
    + apply Z.div_pos; lia.
    + apply Z.mod_pos_bound; lia.
    + intros i Hi. symmetry. apply lookup_app_old.
      assert (p = p / s * s + p mod s)
        by (rewrite (Z.mul_comm (p / s)); apply Z.div_mod; lia).
      lia.
  - assert (p = j * s + k) by lia. subst p. unfold by_filter.
    rewrite position_row, position_column by assumption.
    exists body. split; [assumption|].
    rewrite <- Hlen, lookup_app_new. f_equal.
    apply (filter_local _ _ _ _ _ _ Hf); try assumption.
    intros i Hi. symmetry. apply lookup_app_old. lia.
Qed.

(** The array a completed run returns obeys its filters everywhere. *)
Lemma row_loop_by_filter (n : nat) (out : list value) :
  0 <= s ->
  row_loop data (Some (8 * s)) (Some c) n 0 [] = inl out ->
  all_by_filter data s c out /\ len out = Z.of_nat n * s.
Proof.
  intros Hs Hrun.
  apply (row_loop_invariant data (Some (8 * s)) (Some c)
           (fun j bs => all_by_filter data s c bs /\ len bs = j * s)
           n 0 [] out); [| | assumption].
  - split; [|reflexivity]. intros p Hp. unfold len in Hp. simpl in Hp. lia.
  - intros r b body Hr [Hinv Hlen] Hf.
    rewrite columns_int.
    replace (r + 1) with (r + 1 + 0) at 2 by lia.
    assert (Hgoal :
      (fun k bs => all_by_filter data s c bs /\ len bs = r * s + k)
        (0 + Z.of_nat (Z.to_nat s))
        (push_loop (Z.to_nat s) 0 (body r) b)).
    { apply push_loop_invariant.
      - split; [assumption | lia].
      - intros m b' Hm [Hinv' Hlen']. split.
        + apply push_by_filter; try assumption; lia.
        + rewrite len_app_one. lia. }
    cbv beta in Hgoal. destruct Hgoal as [H1 H2].
    split; [assumption | lia].
Qed.

Lemma by_filter_at (H : Z) (out : list value) (j k : Z) :
  all_by_filter data s c out -> len out = H * s ->
  0 <= j < H -> 0 <= k < s ->
  exists body,
    filter_of data (Some (8 * s)) (Some c) (selector data (Some (8 * s)) j)
      = Some body
    /\ lookup out (j * s + k) = Some (body j k out).
Proof.
  intros Hinv Hlen Hj Hk.
  destruct (Hinv (j * s + k)) as (body & Hf & Hl); [nia|].
  rewrite position_row in Hf, Hl by assumption.
  rewrite position_column in Hl by assumption.
  eauto.
Qed.

End Reconstruction.

(** *** The filters on bytes *)

Ltac reflect_order :=
  repeat match goal with
    | H : (_ <? _) = true |- _ => apply Z.ltb_lt in H
    | H : (_ <? _) = false |- _ => apply Z.ltb_ge in H
    | H : (_ <=? _) = true |- _ => apply Z.leb_le in H
    | H : (_ <=? _) = false |- _ => apply Z.leb_gt in H
    | H : (_ =? _) = true |- _ => apply Z.eqb_eq in H
    | H : (_ =? _) = false |- _ => apply Z.eqb_neq in H
    end.

Lemma mod256_add_bytes (x f : Z) :
  0 <= x -> 0 <= f ->
  JS.mod256 (JS.add (Int x) (Int f)) = Int ((x + f) mod 256)
  /\ is_byte ((x + f) mod 256).
Proof.
  intros Hx Hf. unfold JS.mod256, JS.add. simpl.
  rewrite Z.rem_mod_nonneg by lia.
  split; [reflexivity|]. unfold is_byte. apply Z.mod_pos_bound. lia.
Qed.

Lemma paeth_choice_cases (a b c : Z) :
  paeth_choice a b c = a \/ paeth_choice a b c = b \/ paeth_choice a b c = c.
Proof.
  unfold paeth_choice.
  destruct ((Z.abs (a + b - c - a) <=? Z.abs (a + b - c - b))
            && (Z.abs (a + b - c - a) <=? Z.abs (a + b - c - c))); auto.
  destruct (Z.abs (a + b - c - b) <=? Z.abs (a + b - c - c)); auto.
Qed.

(** The nested comparisons of [case 4] pick what the specification's
    three-way rule picks. *)
Lemma paeth_code_choice (a b c f : Z) :
  (let p := JS.sub (JS.add (Int a) (Int b)) (Int c) in
   if JS.gt (JS.abs (JS.sub p (Int a))) (JS.abs (JS.sub p (Int b))) then
     if JS.gt (JS.abs (JS.sub p (Int b))) (JS.abs (JS.sub p (Int c)))
     then JS.mod256 (JS.add (Int c) (Int f))
     else JS.mod256 (JS.add (Int b) (Int f))
   else
     if JS.gt (JS.abs (JS.sub p (Int a))) (JS.abs (JS.sub p (Int c)))
     then JS.mod256 (JS.add (Int c) (Int f))
     else JS.mod256 (JS.add (Int a) (Int f)))
  = JS.mod256 (JS.add (Int (paeth_choice a b c)) (Int f)).
Proof.
  unfold paeth_choice, JS.sub, JS.add, JS.neg, JS.abs, JS.gt, JS.to_number.
  cbv zeta.
  replace (a + b + - c + - a) with (a + b - c - a) by lia.
  replace (a + b + - c + - b) with (a + b - c - b) by lia.
  replace (a + b + - c + - c) with (a + b - c - c) by lia.
  set (pa := Z.abs (a + b - c - a)).
  set (pb := Z.abs (a + b - c - b)).
  set (pc := Z.abs (a + b - c - c)).
  destruct (pb <? pa) eqn:E1; destruct (pc <? pb) eqn:E2;
    destruct (pc <? pa) eqn:E3;
    destruct (pa <=? pb) eqn:E4; destruct (pa <=? pc) eqn:E5;
    destruct (pb <=? pc) eqn:E6; cbn [andb]; try reflexivity;
    exfalso; reflect_order; lia.
Qed.

Lemma Forall_lookup (P : Z -> Prop) (l : list Z) (p x : Z) :
  Forall P l -> lookup l p = Some x -> P x.
Proof.
  intros HF Hl. unfold lookup in Hl.
  destruct (p <? 0); [discriminate|].
  apply nth_error_In in Hl.
  rewrite Forall_forall in HF. auto.
Qed.

Lemma strong_induction (P : Z -> Prop) :
  (forall p, 0 <= p -> (forall q, 0 <= q < p -> P q) -> P p) ->
  forall p, 0 <= p -> P p.
Proof.
  intros Hstep p Hp.
  assert (H : forall n : nat, forall q, 0 <= q < Z.of_nat n -> P q).
  { induction n as [|n IH]; intros q Hq; [lia|].
    apply Hstep; [lia|]. intros r Hr. apply IH. lia. }
  apply (H (S (Z.to_nat p))). lia.
Qed.

Section PresentSamples.

Variable data : list Z.
Variables s c H : Z.
Variable out : list value.

Hypothesis data_bytes : Forall is_byte data.
Hypothesis c_pos : 0 < c.
Hypothesis s_nonneg : 0 <= s.
Hypothesis obeys : all_by_filter data s c out.
Hypothesis out_len : len out = H * s.

(** The filtered byte of column [k] of row [j], when the stream reaches
    that far. *)
Lemma sample_present (j k : Z) :
  0 <= j -> 0 <= k < s ->
  j * (s + 1) + 1 + k < len data ->
  exists f,
    lookup data (j * (s + 1) + 1 + k) = Some f /\ is_byte f
    /\ byte_at (scanline data (Some (8 * s)) j) k = Int f.
Proof.
  intros Hj Hk Hin.
  destruct (lookup_lt_Some data (j * (s + 1) + 1 + k)) as [f Hf]; [nia|].
  exists f. split; [assumption|]. split.
  - apply (Forall_lookup _ _ _ _ data_bytes Hf).
  - rewrite scanline_int by lia. unfold byte_at. now rewrite Hf.
Qed.

Lemma neighbours_bytes (j k : Z) :
  0 <= j -> 0 <= k < s ->
  (forall q, 0 <= q < j * s + k -> is_byte_value (elem_at out q)) ->
  is_byte_value (left (Some (8 * s)) (Some c) j k out)
  /\ is_byte_value (up (Some (8 * s)) j k out)
  /\ is_byte_value (upleft (Some (8 * s)) (Some c) j k out).
Proof.
  intros Hj Hk Hbelow.
  assert (Hzero : is_byte_value (Int 0))
    by (exists 0; split; [reflexivity | unfold is_byte; lia]).
  rewrite left_int, up_int, upleft_int.
  repeat split.
  - destruct (c - 1 <? k) eqn:E; [|assumption].
    apply Z.ltb_lt in E. apply Hbelow. nia.
  - destruct (j =? 0) eqn:E; [assumption|].
    apply Z.eqb_neq in E. apply Hbelow. nia.
  - destruct (c - 1 <? k) eqn:E1; destruct (j =? 0) eqn:E2;
      cbn [andb negb]; try assumption.
    apply Z.ltb_lt in E1. apply Z.eqb_neq in E2. apply Hbelow. nia.
Qed.

(** Every value reconstructed from samples the stream holds is a byte:
    the sample of position [p] is the stream's byte [p + p/s + 1]. *)
Lemma reconstructed_bytes (p : Z) :
  0 <= p -> p < len out -> p + p / s + 1 < len data ->
  is_byte_value (elem_at out p).
Proof.
  intros Hp. revert p Hp.
  apply (strong_induction
           (fun p => p < len out -> p + p / s + 1 < len data ->
                     is_byte_value (elem_at out p))).
  intros p Hp IH Hlt Hin.
  assert (Hs : 0 < s).
  { destruct (Z.eq_dec s 0) as [E | E]; [|lia].
    rewrite E, Z.mul_0_r in out_len. lia. }
  set (j := p / s) in *. set (k := p mod s).
  assert (Hk : 0 <= k < s) by (apply Z.mod_pos_bound; assumption).
  assert (Hpos : p = j * s + k)
    by (unfold j, k; rewrite (Z.mul_comm (p / s)); apply Z.div_mod; lia).
  assert (Hj : 0 <= j < H).
  { split; [apply Z.div_pos; lia|]. nia. }
  destruct (by_filter_at data s c H out j k obeys out_len Hj Hk)
    as (body & Hf & Hl).
  rewrite <- Hpos in Hl. unfold elem_at. rewrite Hl.
  destruct (sample_present j k) as (f & _ & Hfb & Hscan); [lia | lia | lia|].
  destruct (neighbours_bytes j k) as
    ((a & Ha & Hab) & (b & Hb & Hbb) & (d & Hd & Hdb)); [lia | lia | |].
  { intros q Hq. apply IH; [lia | lia|].
    assert (q / s <= j) by (apply Z.div_le_mono; lia). lia. }
  unfold is_byte in *.
  destruct (filter_of_cases _ _ _ _ _ Hf)
    as [[_ ->] | [[_ ->] | [[_ ->] | [[_ ->] | [_ ->]]]]].
  - unfold filter_none. rewrite Hscan.
    exists (Z.rem f 256). split; [reflexivity|].
    rewrite Z.rem_mod_nonneg by lia. apply Z.mod_pos_bound. lia.
  - unfold filter_sub. rewrite Ha, Hscan. cbv zeta.
    destruct (mod256_add_bytes a f) as [-> ?]; try lia.
    eexists; split; [reflexivity | assumption].
  - unfold filter_up. rewrite Hb, Hscan. cbv zeta.
    destruct (mod256_add_bytes b f) as [-> ?]; try lia.
    eexists; split; [reflexivity | assumption].
  - unfold filter_average. rewrite Ha, Hb, Hscan. cbv zeta.
    change (JS.floor_half (JS.add (Int a) (Int b))) with (Int ((a + b) / 2)).
    destruct (mod256_add_bytes ((a + b) / 2) f) as [-> ?]; try lia.
    { apply Z.div_pos; lia. }
    eexists; split; [reflexivity | assumption].
  - unfold filter_paeth. rewrite Ha, Hb, Hd, Hscan.
    rewrite paeth_code_choice.
    destruct (mod256_add_bytes (paeth_choice a b d) f) as [-> ?]; try lia.
    { destruct (paeth_choice_cases a b d) as [-> | [-> | ->]]; lia. }
    eexists; split; [reflexivity | assumption].
Qed.

(** So is every value below a position whose sample the stream holds. *)
Lemma bytes_below (j k : Z) :
  0 <= j < H -> 0 <= k < s ->
  j * (s + 1) + 1 + k < len data ->
  forall q, 0 <= q < j * s + k -> is_byte_value (elem_at out q).
Proof.
  intros Hj Hk Hin q Hq.
  apply reconstructed_bytes; [lia | nia|].
  assert (q / s <= (j * s + k) / s) by (apply Z.div_le_mono; lia).
  assert ((j * s + k) / s = j) by (apply position_row; assumption).
  lia.
Qed.

End PresentSamples.

Lemma decodeIDAT_completed (data : list Z) (length8 channels height : option Z)
    (bytes : list value) :
  decodeIDAT data length8 channels height = (bytes, None) ->
  row_loop data length8 channels (rows height) 0 [] = inl bytes.
Proof.
  unfold decodeIDAT.
  destruct (row_loop data length8 channels (rows height) 0 []) as [out | [sel j]].
  - now intros [= ->].
  - discriminate.
Qed.

Lemma index_decodeIDAT_completed (data : list Z) (length8 height : option Z)
    (bytes : list value) :
  Index.decodeIDAT data length8 height = Some bytes ->
  row_loop data length8 (Some 4) (rows height) 0 [] = inl bytes.
Proof.
  unfold Index.decodeIDAT.
  destruct (row_loop data length8 (Some 4) (rows height) 0 []) as [out | ?].
  - now intros [= ->].
  - discriminate.
Qed.

(** The two revisions reconstruct alike at four channels; they part at
    an unsupported selector only, where the later one rejects and the
    earlier one throws. *)
Lemma index_decodeIDAT_four_channels (data : list Z) (length8 height : option Z)
    (bytes : list value) :
  Index.decodeIDAT data length8 height = Some bytes <->
  decodeIDAT data length8 (Some 4) height = (bytes, None).
Proof.
  unfold Index.decodeIDAT, decodeIDAT.
  destruct (row_loop data length8 (Some 4) (rows height) 0 []) as [out | [sel j]].
  - split; intros [= ->]; reflexivity.
  - split; discriminate.
Qed.

(** What a completed run gives, for use below. *)
Lemma completed_run (data : list Z) (s c h : Z) (bytes : list value) :
  0 < c -> 0 <= s -> 0 <= h ->
  row_loop data (Some (8 * s)) (Some c) (Z.to_nat h) 0 [] = inl bytes ->
  all_by_filter data s c bytes /\ len bytes = h * s.
Proof.
  intros Hc Hs Hh Hrun.
  destruct (row_loop_by_filter data s c Hc (Z.to_nat h) bytes Hs Hrun)
    as [Hobeys Hlen].
  rewrite Z2Nat.id in Hlen by assumption. auto.
Qed.

(** Where the rows have all been reconstructed, a byte of a scanline
    whose selector is 4 obeys the Paeth rule. *)
Lemma paeth_completed (data : list Z) (stride height channels : Z)
    (bytes : list value) (j k : Z) (f : Z) :
  Forall is_byte data ->
  0 < channels ->
  row_loop data (Some (8 * stride)) (Some channels) (Z.to_nat height) 0 []
  = inl bytes ->
  0 <= j < height -> 0 <= k < stride ->
  lookup data (j * (stride + 1)) = Some 4 ->
  lookup data (j * (stride + 1) + 1 + k) = Some f ->
  paeth_rule stride channels bytes j k f.
Proof.
  intros Hd Hc Hloop Hj Hk Hsel Hsample. unfold paeth_rule.
  assert (Hs : 0 <= stride) by lia.
  assert (Hin : j * (stride + 1) + 1 + k < len data)
    by (apply (lookup_Some_lt _ _ _ Hsample)).
  destruct (completed_run data stride channels height bytes)
    as (Hobeys & Hlen); try assumption; try lia.
  destruct (by_filter_at data stride channels height bytes j k Hobeys Hlen Hj Hk)
    as (body & Hf & Hl).
  rewrite selector_int, Hsel in Hf.
  change (byte_value (Some 4)) with (Int 4) in Hf.
  destruct (filter_of_cases _ _ _ _ _ Hf)
    as [[E _] | [[E _] | [[E _] | [[E _] | [_ ->]]]]]; try discriminate E.
  destruct (sample_present data stride Hd Hs j k) as (f' & Hf' & Hfb & Hscan);
    [lia | lia | assumption|].
  assert (f' = f) by congruence. subst f'.
  destruct (neighbours_bytes stride channels bytes Hc Hs j k) as
    ((a & Ha & Hab) & (b & Hb & Hbb) & (c & Hcv & Hcb)); [lia | lia | |].
  { apply (bytes_below data stride channels height bytes); assumption. }
  unfold filter_paeth in Hl. rewrite Ha, Hb, Hcv, Hscan in Hl.
  rewrite paeth_code_choice in Hl.
  assert (Hchoice : 0 <= paeth_choice a b c).
  { unfold is_byte in *.
    destruct (paeth_choice_cases a b c) as [-> | [-> | ->]]; lia. }
  destruct (mod256_add_bytes (paeth_choice a b c) f Hchoice) as [Hm _];
    [unfold is_byte in Hfb; lia|].
  rewrite Hm in Hl.
  rewrite left_int in Ha. rewrite up_int in Hb. rewrite upleft_int in Hcv.
  exists a, b, c. repeat split.
  - destruct (k <? channels) eqn:E1; destruct (channels - 1 <? k) eqn:E2;
      try assumption; exfalso; reflect_order; lia.
  - destruct (j =? 0); [assumption|].
    now replace ((j - 1) * stride + k) with (j * stride + k - stride) by lia.
  - replace ((j - 1) * stride + k - channels)
      with (j * stride + k - stride - channels) by lia.
    destruct (k <? channels) eqn:E1; destruct (channels - 1 <? k) eqn:E2;
      destruct (j =? 0); cbn [andb orb negb] in *; try assumption; exfalso;
      reflect_order; lia.
  - assumption.
  - intros -> ->. rewrite Hl. do 3 f_equal.
    unfold paeth_choice. cbv zeta.
    rewrite !Z.leb_refl. reflexivity.
Qed.

(** C2: in a scanline whose selector is 1, at three channels per
    pixel, the reconstructed byte of a column [k >= 3] whose filtered
    byte is in the stream is [(filtered[k] + reconstructed[k-3]) mod 256],
    and of a column [k < 3] it is [filtered[k] mod 256]. *)
Theorem sub_reconstruction (data : list Z) (stride height : Z)
    (bytes : list value) (j k : Z) (f : Z) :
  Forall is_byte data ->
  decodeIDAT data (Some (8 * stride)) (Some 3) (Some height) = (bytes, None) ->
  0 <= j < height -> 0 <= k < stride ->
  lookup data (j * (stride + 1)) = Some 1 ->
  lookup data (j * (stride + 1) + 1 + k) = Some f ->
  (k < 3 -> lookup bytes (j * stride + k) = Some (Int (f mod 256)))
  /\ (3 <= k ->
      exists r,
        lookup bytes (j * stride + (k - 3)) = Some (Int r)
        /\ lookup bytes (j * stride + k) = Some (Int ((f + r) mod 256))).
Proof.
  intros Hd Hrun Hj Hk Hsel Hsample.
  assert (Hs : 0 <= stride) by lia.
  assert (Hc : 0 < 3) by lia.
  assert (Hin : j * (stride + 1) + 1 + k < len data)
    by (apply (lookup_Some_lt _ _ _ Hsample)).
  apply decodeIDAT_completed in Hrun. cbn [rows] in Hrun.
  destruct (completed_run data stride 3 height bytes)
    as (Hobeys & Hlen); try assumption; try lia.
  destruct (by_filter_at data stride 3 height bytes j k Hobeys Hlen Hj Hk)
    as (body & Hf & Hl).
  rewrite selector_int, Hsel in Hf.
  change (byte_value (Some 1)) with (Int 1) in Hf.
  destruct (filter_of_cases _ _ _ _ _ Hf)
    as [[E _] | [[_ ->] | [[E _] | [[E _] | [E _]]]]]; try discriminate E.
  destruct (sample_present data stride Hd Hs j k) as (f' & Hf' & Hfb & Hscan);
    [lia | lia | assumption|].
  assert (f' = f) by congruence. subst f'.
  unfold filter_sub in Hl. rewrite left_int, Hscan in Hl. cbv zeta in Hl.
  split.
  - intros Hlt.
    destruct (3 - 1 <? k) eqn:E; [reflect_order; lia|].
    destruct (mod256_add_bytes 0 f) as [Hm _];
      [lia | unfold is_byte in Hfb; lia|].
    rewrite Hm in Hl. exact Hl.
  - intros Hge.
    destruct (3 - 1 <? k) eqn:E; [|reflect_order; lia].
    destruct (bytes_below data stride 3 height bytes Hd Hc Hs Hobeys Hlen
                j k Hj Hk Hin (j * stride + k - 3))
      as (r & Hr & Hrb); [nia|].
    exists r. split.
    + replace (j * stride + (k - 3)) with (j * stride + k - 3) by lia.
      unfold elem_at in Hr.
      destruct (lookup bytes (j * stride + k - 3)) as [v|] eqn:Ev;
        [now subst v | discriminate].
    + rewrite Hr in Hl.
      destruct (mod256_add_bytes r f) as [Hm _];
        [unfold is_byte in Hrb; lia | unfold is_byte in Hfb; lia|].
      rewrite Hm in Hl. now rewrite (Z.add_comm f r).
Qed.

Lemma sub_reconstruction_witness :
  (4 < 3 -> lookup sub_bytes (1 * 6 + 4) = Some (Int (9 mod 256)))
  /\ (3 <= 4 ->
      exists r,
        lookup sub_bytes (1 * 6 + (4 - 3)) = Some (Int r)
        /\ lookup sub_bytes (1 * 6 + 4) = Some (Int ((9 + r) mod 256))).
Proof.
  apply (sub_reconstruction sub_stream 6 2 sub_bytes 1 4 9).
  - repeat constructor; unfold is_byte; lia.
  - vm_compute. reflexivity.
  - lia.
  - lia.
  - reflexivity.
  - reflexivity.
Defined.

(** *** A stream that ends early *)

Lemma add_undefined (x : value) : JS.add x Undefined = NaN.
Proof. destruct x as [| | n | z]; reflexivity. Qed.

(** Whatever the filter, an absent filtered byte gives [NaN]. *)
Lemma filter_of_absent_sample (data : list Z) (length8 channels : option Z)
    (sel : value) (body : Z -> Z -> list value -> value)
    (j k : Z) (bs : list value) :
  filter_of data length8 channels sel = Some body ->
  byte_at (scanline data length8 j) k = Undefined ->
  body j k bs = NaN.
Proof.
  intros Hf Hscan.
  destruct (filter_of_cases _ _ _ _ _ Hf)
    as [[_ ->] | [[_ ->] | [[_ ->] | [[_ ->] | [_ ->]]]]].
  - unfold filter_none. now rewrite Hscan.
  - unfold filter_sub. now rewrite Hscan, add_undefined.
  - unfold filter_up. now rewrite Hscan, add_undefined.
  - unfold filter_average. now rewrite Hscan, add_undefined.
  - unfold filter_paeth. rewrite Hscan, !add_undefined. cbv zeta.
    repeat match goal with |- context [if ?b then _ else _] => destruct b end;
      reflexivity.
Qed.

Lemma push_loop_snoc (body : Z -> list value -> value) (n : nat) :
  forall (k : Z) (bs : list value),
    push_loop (S n) k body bs =
    push_loop n k body bs ++ [body (k + Z.of_nat n) (push_loop n k body bs)].
Proof.
  induction n as [|n IH]; intros k bs.
  - simpl. now rewrite Z.add_0_r.
  - change (push_loop (S (S n)) k body bs)
      with (push_loop (S n) (k + 1) body (bs ++ [body k bs])).
    rewrite IH. cbn [push_loop].
    now replace (k + 1 + Z.of_nat n) with (k + Z.of_nat (S n)) by lia.
Qed.

Lemma push_loop_length (body : Z -> list value -> value) (n : nat) :
  forall (k : Z) (bs : list value),
    len (push_loop n k body bs) = len bs + Z.of_nat n.
Proof.
  induction n as [|n IH]; intros k bs.
  - simpl. lia.
  - cbn [push_loop]. rewrite IH, len_app_one. lia.
Qed.

Section Rows.

Variable data : list Z.
Variables length8 channels : option Z.

Lemma row_loop_S (n : nat) (j : Z) (bs : list value) :
  row_loop data length8 channels (S n) j bs =
  match filter_of data length8 channels (selector data length8 j) with
  | Some body =>
      row_loop data length8 channels n (j + 1)
        (push_loop (columns length8) 0 (body j) bs)
  | None => inr (selector data length8 j, j)
  end.
Proof. reflexivity. Qed.

Lemma row_loop_snoc (n : nat) :
  forall (j : Z) (bs : list value),
    row_loop data length8 channels (S n) j bs =
    match row_loop data length8 channels n j bs with
    | inl mid =>
        match filter_of data length8 channels
                (selector data length8 (j + Z.of_nat n)) with
        | Some body =>
            inl (push_loop (columns length8) 0 (body (j + Z.of_nat n)) mid)
        | None => inr (selector data length8 (j + Z.of_nat n), j + Z.of_nat n)
        end
    | inr stop => inr stop
    end.
Proof.
  induction n as [|n IH]; intros j bs.
  - simpl. rewrite Z.add_0_r.
    now destruct (filter_of data length8 channels (selector data length8 j)).
  - rewrite (row_loop_S (S n)), (row_loop_S n).
    destruct (filter_of data length8 channels (selector data length8 j));
      [|reflexivity].
    rewrite IH.
    now replace (j + 1 + Z.of_nat n) with (j + Z.of_nat (S n)) by lia.
Qed.

(** The run completes exactly when no row meets [default]. *)
Lemma row_loop_total (n : nat) :
  forall (j : Z) (bs : list value),
    (forall r, j <= r < j + Z.of_nat n ->
               filter_of data length8 channels (selector data length8 r) <> None) ->
    exists out, row_loop data length8 channels n j bs = inl out.
Proof.
  induction n as [|n IH]; intros j bs Hsel.
  - simpl. eauto.
  - cbn [row_loop].
    destruct (filter_of data length8 channels (selector data length8 j))
      as [body|] eqn:Hf.
    + apply IH. intros r Hr. apply Hsel. lia.
    + exfalso. apply (Hsel j); [lia | assumption].
Qed.

Lemma row_loop_stops (n : nat) :
  forall (j : Z) (bs : list value) (r : Z),
    j <= r < j + Z.of_nat n ->
    filter_of data length8 channels (selector data length8 r) = None ->
    exists sel r', j <= r' <= r /\
      row_loop data length8 channels n j bs = inr (sel, r').
Proof.
  induction n as [|n IH]; intros j bs r Hr Hnone; [lia|].
  cbn [row_loop].
  destruct (filter_of data length8 channels (selector data length8 j))
    as [body|] eqn:Hf.
  - assert (Hne : r <> j) by (intros ->; congruence).
    destruct (IH (j + 1) (push_loop (columns length8) 0 (body j) bs) r)
      as (sel & r' & Hr' & Hrun); [lia | assumption|].
    exists sel, r'. split; [lia | assumption].
  - exists (selector data length8 j), j. split; [lia | reflexivity].
Qed.

End Rows.

Lemma row_loop_length (data : list Z) (s : Z) (channels : option Z) (n : nat)
    (out : list value) :
  0 <= s ->
  row_loop data (Some (8 * s)) channels n 0 [] = inl out ->
  len out = Z.of_nat n * s.
Proof.
  intros Hs Hrun.
  apply (row_loop_invariant data (Some (8 * s)) channels
           (fun j bs => len bs = j * s) n 0 [] out); [reflexivity | | assumption].
  intros r b body _ Hlen _.
  rewrite push_loop_length, columns_int, Hlen. lia.
Qed.

Lemma valid_selector (data : list Z) (s : Z) (channels : option Z) (j sel : Z) :
  lookup data (j * (s + 1)) = Some sel -> 0 <= sel <= 4 ->
  filter_of data (Some (8 * s)) channels (selector data (Some (8 * s)) j) <> None.
Proof.
  intros Hl Hsel. rewrite selector_int, Hl.
  assert (E : sel = 0 \/ sel = 1 \/ sel = 2 \/ sel = 3 \/ sel = 4) by lia.
  destruct E as [-> | [-> | [-> | [-> | ->]]]]; discriminate.
Qed.

Lemma missing_selector (data : list Z) (s : Z) (channels : option Z) (j : Z) :
  len data <= j * (s + 1) ->
  filter_of data (Some (8 * s)) channels (selector data (Some (8 * s)) j) = None.
Proof.
  intros H. rewrite selector_int, lookup_ge_None by assumption. reflexivity.
Qed.

Lemma inl_injective {A B : Type} (x y : A) : @inl A B x = inl y -> x = y.
Proof. now intros [= ->]. Qed.

(** *** Paeth, from the stream *)

(** C1: on a stream of bytes whose scanlines all begin with a selector
    from 0 to 4, both revisions of [decodeIDAT] return the
    reconstructed array, and in it every byte of a scanline whose
    selector is 4, its filtered byte being in the stream, is
    [(chosen + filteredByte) mod 256], where [chosen] is the
    specification's three-way choice among [a] (the reconstructed byte
    one pixel to the left, 0 within the first pixel), [b] (the one
    above, 0 on the first row) and [c] (the one above and to the left, 0
    on the first row or within the first pixel); when [a = b = c] it is
    [a].  The pixel size is [channels] in the later revision and 4 in
    the earlier one. *)
Theorem paeth_reconstruction (data : list Z) (stride height channels : Z)
    (j k : Z) (f : Z) :
  Forall is_byte data ->
  0 < channels ->
  (forall r, 0 <= r < height ->
     exists sel, lookup data (r * (stride + 1)) = Some sel /\ 0 <= sel <= 4) ->
  0 <= j < height -> 0 <= k < stride ->
  lookup data (j * (stride + 1)) = Some 4 ->
  lookup data (j * (stride + 1) + 1 + k) = Some f ->
  (exists bytes,
     decodeIDAT data (Some (8 * stride)) (Some channels) (Some height)
     = (bytes, None)
     /\ paeth_rule stride channels bytes j k f)
  /\ (exists bytes,
        Index.decodeIDAT data (Some (8 * stride)) (Some height) = Some bytes
        /\ paeth_rule stride 4 bytes j k f).
Proof.
  intros Hd Hc Hvalid Hj Hk Hsel Hsample.
  assert (Hrun : forall ch, exists bytes,
            row_loop data (Some (8 * stride)) ch (Z.to_nat height) 0 []
            = inl bytes).
  { intros ch. apply row_loop_total. intros r Hr.
    destruct (Hvalid r) as (sel & Hl & Hv); [lia|].
    apply (valid_selector data stride ch r sel Hl Hv). }
  split.
  - destruct (Hrun (Some channels)) as [bytes Hb]. exists bytes. split.
    + unfold decodeIDAT. cbn [rows]. now rewrite Hb.
    + apply (paeth_completed data stride height channels bytes j k f);
        assumption.
  - destruct (Hrun (Some 4)) as [bytes Hb]. exists bytes. split.
    + unfold Index.decodeIDAT. cbn [rows]. now rewrite Hb.
    + apply (paeth_completed data stride height 4 bytes j k f);
        try assumption; lia.
Qed.

Lemma paeth_reconstruction_witness :
  (exists bytes,
     decodeIDAT paeth_stream (Some (8 * 8)) (Some 4) (Some 2) = (bytes, None)
     /\ paeth_rule 8 4 bytes 1 5 6)
  /\ (exists bytes,
        Index.decodeIDAT paeth_stream (Some (8 * 8)) (Some 2) = Some bytes
        /\ paeth_rule 8 4 bytes 1 5 6).
Proof.
  apply (paeth_reconstruction paeth_stream 8 2 4 1 5 6).
  - repeat constructor; unfold is_byte; lia.
  - lia.
  - intros r Hr. exists 4.
    assert (r = 0 \/ r = 1) as [-> | ->] by lia; split; (reflexivity || lia).
  - lia.
  - lia.
  - reflexivity.
  - reflexivity.
Defined.

(** With every selector in place and valid but the last scanline cut
    short, the run completes and its last value is [NaN]. *)
Lemma short_last_row (data : list Z) (s h : Z) (channels : option Z) :
  0 < s -> 0 < h ->
  (forall j, 0 <= j < h ->
     exists sel, lookup data (j * (s + 1)) = Some sel /\ 0 <= sel <= 4) ->
  len data < h * (s + 1) ->
  exists bytes,
    row_loop data (Some (8 * s)) channels (Z.to_nat h) 0 [] = inl bytes
    /\ len bytes = h * s
    /\ lookup bytes (h * s - 1) = Some NaN.
Proof.
  intros Hs Hh Hsel Hshort.
  destruct (row_loop_total data (Some (8 * s)) channels (Z.to_nat h) 0 [])
    as [out Hout].
  { intros r Hr. destruct (Hsel r) as (sel & Hl & Hv); [lia|].
    apply (valid_selector data s channels r sel Hl Hv). }
  exists out. split; [assumption|].
  assert (Hlen : len out = h * s).
  { rewrite (row_loop_length data s channels (Z.to_nat h) out) by (lia || assumption).
    lia. }
  split; [assumption|].
  destruct (Z.to_nat h) as [|n] eqn:En; [lia|].
  rewrite row_loop_snoc in Hout.
  destruct (row_loop data (Some (8 * s)) channels n 0 []) as [mid|stop];
    [|discriminate].
  destruct (filter_of data (Some (8 * s)) channels
              (selector data (Some (8 * s)) (0 + Z.of_nat n)))
    as [body|] eqn:Hf; [|discriminate].
  apply inl_injective in Hout.
  rewrite columns_int in Hout.
  destruct (Z.to_nat s) as [|m] eqn:Em; [lia|].
  rewrite push_loop_snoc in Hout.
  rewrite (filter_of_absent_sample _ _ _ _ _ _ _ _ Hf) in Hout.
  - subst out. rewrite len_app_one in Hlen.
    replace (h * s - 1)
      with (len (push_loop m 0 (body (0 + Z.of_nat n)) mid)) by lia.
    apply lookup_app_new.
  - rewrite scanline_int by lia.
    unfold byte_at. rewrite lookup_ge_None; [reflexivity | nia].
Qed.

(** C10, as the code has it.  [decodeIDAT] never compares the length of
    the stream with [height * (stride + 1)].  When the stream ends
    inside the sample bytes of the last scanline (every selector being
    there and in 0..4) the missing samples read [undefined]: the run
    completes without a rejection and returns [height * stride] values
    the last of which is [NaN].  When the stream ends before the
    selector of the last scanline, some selector reads [undefined] or is
    out of range and [default] is reached: the later revision rejects
    with the unsupported-filter error and returns [[]], the earlier one
    throws. *)
Theorem short_stream (data : list Z) (stride height : Z) (channels : option Z) :
  0 < stride -> 0 < height ->
  ((forall j, 0 <= j < height ->
      exists sel, lookup data (j * (stride + 1)) = Some sel /\ 0 <= sel <= 4) ->
   len data < height * (stride + 1) ->
   (exists bytes,
      decodeIDAT data (Some (8 * stride)) channels (Some height) = (bytes, None)
      /\ len bytes = height * stride
      /\ lookup bytes (height * stride - 1) = Some NaN)
   /\ (exists bytes,
         Index.decodeIDAT data (Some (8 * stride)) (Some height) = Some bytes
         /\ len bytes = height * stride
         /\ lookup bytes (height * stride - 1) = Some NaN))
  /\ (len data <= (height - 1) * (stride + 1) ->
      (exists sel j,
         0 <= j < height /\
         decodeIDAT data (Some (8 * stride)) channels (Some height)
         = ([], Some (UnsupportedFilter sel j)))
      /\ Index.decodeIDAT data (Some (8 * stride)) (Some height) = None).
Proof.
  intros Hs Hh. split.
  - intros Hsel Hshort. split.
    + destruct (short_last_row data stride height channels Hs Hh Hsel Hshort)
        as (bytes & Hrun & Hlen & Hlast).
      exists bytes. unfold decodeIDAT. cbn [rows]. rewrite Hrun. auto.
    + destruct (short_last_row data stride height (Some 4) Hs Hh Hsel Hshort)
        as (bytes & Hrun & Hlen & Hlast).
      exists bytes. unfold Index.decodeIDAT. cbn [rows]. rewrite Hrun. auto.
  - intros Hmissing. split.
    + destruct (row_loop_stops data (Some (8 * stride)) channels
                  (Z.to_nat height) 0 [] (height - 1))
        as (sel & j & Hj & Hrun); [lia | |].
      { apply missing_selector. assumption. }
      exists sel, j. split; [lia|].
      unfold decodeIDAT. cbn [rows]. now rewrite Hrun.
    + destruct (row_loop_stops data (Some (8 * stride)) (Some 4)
                  (Z.to_nat height) 0 [] (height - 1))
        as (sel & j & Hj & Hrun); [lia | |].
      { apply missing_selector. assumption. }
      unfold Index.decodeIDAT. cbn [rows]. now rewrite Hrun.
Qed.

Lemma short_stream_witness :
  ((exists bytes,
      decodeIDAT cut_stream (Some (8 * 8)) (Some 4) (Some 2) = (bytes, None)
      /\ len bytes = 2 * 8
      /\ lookup bytes (2 * 8 - 1) = Some NaN)
   /\ (exists bytes,
         Index.decodeIDAT cut_stream (Some (8 * 8)) (Some 2) = Some bytes
         /\ len bytes = 2 * 8
         /\ lookup bytes (2 * 8 - 1) = Some NaN))
  /\ ((exists sel j,
         0 <= j < 2 /\
         decodeIDAT one_row_stream (Some (8 * 3)) (Some 3) (Some 2)
         = ([], Some (UnsupportedFilter sel j)))
      /\ Index.decodeIDAT one_row_stream (Some (8 * 3)) (Some 2) = None).
Proof.
  split.
  - apply (short_stream cut_stream 8 2 (Some 4)); try lia.
    + intros j Hj. assert (E : j = 0 \/ j = 1) by lia.
      destruct E as [-> | ->]; eexists; (split; [reflexivity | lia]).
    + vm_compute. reflexivity.
  - apply (short_stream one_row_stream 3 2 (Some 3)); try lia.
    vm_compute. discriminate.
Defined.

(** C10 as stated fails: a stream that ends before a scanline's
    selector is not reconstructed silently.  On four bytes for two
    scanlines of stride 3 the later revision rejects (the selector of
    row 1 reads [undefined]) and returns no values; the earlier one
    throws. *)
Lemma short_stream_rejected :
  len one_row_stream < 2 * (3 + 1)
  /\ decodeIDAT one_row_stream (Some (8 * 3)) (Some 3) (Some 2)
     = ([], Some (UnsupportedFilter Undefined 1))
  /\ Index.decodeIDAT one_row_stream (Some (8 * 3)) (Some 2) = None.
Proof. repeat split. Qed.

(** ** [decode]: the header chunk *)

(** A run that ends within [fuel] turns ends the same way with more. *)
Lemma walk_more_fuel (inflate : list Z -> option (list Z)) (png : list Z)
    (fuel : nat) :
  forall (w : walker) (t : turn),
    walk inflate png fuel w = Some t ->
    walk inflate png (S fuel) w = Some t.
Proof.
  induction fuel as [|fuel IH]; intros w t Hrun.
  - cbn [walk] in *. destruct (i w <? len png); [discriminate | assumption].
  - remember (S fuel) as n eqn:En. cbn [walk]. subst n.
    cbn [walk] in Hrun.
    destruct (i w <? len png); [|assumption].
    destruct (chunk inflate png w) as [w'| |]; try assumption.
    apply IH. assumption.
Qed.

Lemma decode_more_fuel (inflate : list Z -> option (list Z)) (png : list Z)
    (fuel : nat) (r : run) :
  decode inflate png fuel = Some r ->
  decode inflate png (S fuel) = Some r.
Proof.
  unfold decode. destruct (signature_ok png); [|trivial].
  destruct (walk inflate png fuel start) as [t|] eqn:Hwalk; [|discriminate].
  now rewrite (walk_more_fuel inflate png fuel start t Hwalk).
Qed.

Lemma byte_at_in_range (arr : list Z) (p v : Z) :
  byte_at arr p = Int v -> 0 <= p < len arr.
Proof.
  unfold byte_at. destruct (lookup arr p) as [b|] eqn:E; [|discriminate].
  intros _. apply (lookup_Some_lt _ _ _ E).
Qed.

(** C3, as the code has it: no turn of the loop looks at the bit depth.
    Whatever depth [d] the header chunk declares, with colour type 6 or
    2 and an interlace byte other than 1 the chunk is accepted: the
    depth is stored in [imageData.depth], no rejection is raised and the
    walk goes on at the next chunk (in the earlier revision for colour
    type 6 only).  The depth then only enters the stride
    [width*depth*channels/8]. *)
Theorem header_depth_unchecked (inflate : list Z -> option (list Z))
    (png : list Z) (fuel : nat) (d col ch : Z) :
  signature_ok png = true ->
  tag_of png 8 = IHDR ->
  byte_at png 24 = Int d ->
  byte_at png 25 = Int col ->
  (col = 6 /\ ch = 4) \/ (col = 2 /\ ch = 3) ->
  loose_eq (byte_at png 28) 1 = false ->
  decode inflate png (S fuel) =
    finish (walk inflate png fuel
              (mkWalker (8 + (read32 png 8 + 12))
                 (mkImage (Some (read32 png 16)) (Some (read32 png 20))
                    (Int d) (Int col) (Some ch) [])
                 [] [] None [IHDR]))
  /\ (col = 6 ->
      Index.decode inflate png (S fuel) =
        Index.finish (Index.walk inflate png fuel
                        (mkWalker (8 + (read32 png 8 + 12))
                           (mkImage (Some (read32 png 16)) (Some (read32 png 20))
                              (Int d) (Int col) None [])
                           [] [] None [IHDR]))).
Proof.
  intros Hsig Htag Hd Hcol Hch Hil.
  assert (Hin : (8 <? len png) = true).
  { apply Z.ltb_lt. pose proof (byte_at_in_range png 24 d Hd). lia. }
  split.
  - unfold decode. rewrite Hsig. f_equal.
    unfold start. cbn [walk i]. rewrite Hin.
    unfold chunk. cbn [i image base pixels rejected visited].
    rewrite Htag.
    change (8 + 8) with 16. change (8 + 12) with 20.
    change (8 + 16) with 24. change (8 + 17) with 25. change (8 + 20) with 28.
    rewrite Hil. cbn [color depth width height]. rewrite Hd, Hcol.
    destruct Hch as [[-> ->] | [-> ->]]; reflexivity.
  - intros ->. unfold Index.decode. rewrite Hsig. f_equal.
    unfold start. cbn [Index.walk i]. rewrite Hin.
    unfold Index.chunk. cbn [i image base pixels rejected visited].
    rewrite Htag.
    change (8 + 8) with 16. change (8 + 12) with 20.
    change (8 + 16) with 24. change (8 + 17) with 25. change (8 + 20) with 28.
    cbn [color depth width height]. rewrite Hil, Hd, Hcol. reflexivity.
Qed.

Lemma header_depth_unchecked_witness :
  decode sample_inflate png_rgba16 (S 2) =
    finish (walk sample_inflate png_rgba16 2
              (mkWalker (8 + (read32 png_rgba16 8 + 12))
                 (mkImage (Some (read32 png_rgba16 16)) (Some (read32 png_rgba16 20))
                    (Int 16) (Int 6) (Some 4) [])
                 [] [] None [IHDR]))
  /\ (6 = 6 ->
      Index.decode sample_inflate png_rgba16 (S 2) =
        Index.finish (Index.walk sample_inflate png_rgba16 2
                        (mkWalker (8 + (read32 png_rgba16 8 + 12))
                           (mkImage (Some (read32 png_rgba16 16))
                              (Some (read32 png_rgba16 20))
                              (Int 16) (Int 6) None [])
                           [] [] None [IHDR]))).
Proof.
  apply (header_depth_unchecked sample_inflate png_rgba16 2 16 6 4).
  - reflexivity.
  - reflexivity.
  - reflexivity.
  - reflexivity.
  - left. split; reflexivity.
  - reflexivity.
Defined.

(** C3 as stated fails: the well-formed 1x1 RGBA file of bit depth 16
    is not rejected.  Both revisions resolve, with the depth 16 in the
    record, having walked all three chunks; the stride of 8 bytes gives
    two RGBA tuples for the one pixel. *)
Lemma depth_16_is_decoded :
  decode sample_inflate png_rgba16 3 =
    Some (mkRun
            (Resolved (mkImage (Some 1) (Some 1) (Int 16) (Int 6) (Some 4)
                         [[Int 10; Int 20; Int 30; Int 255];
                          [Int 1; Int 2; Int 3; Int 4]]))
            [IHDR; IDAT; IEND])
  /\ Index.decode sample_inflate png_rgba16 3 =
    Some (mkRun
            (Resolved (mkImage (Some 1) (Some 1) (Int 16) (Int 6) None
                         [[Int 10; Int 20; Int 30; Int 255];
                          [Int 1; Int 2; Int 3; Int 4]]))
            [IHDR; IDAT; IEND]).
Proof. split; vm_compute; reflexivity. Qed.

(** ** [decode]: a chunk that runs past the end *)

Lemma group_total (px : list value) (c : option Z) :
  c <> Some 0 -> exists tuples, group px c = Some tuples.
Proof.
  intros Hc. unfold group. destruct c as [c|]; [|eauto].
  destruct (c =? 0) eqn:E; [apply Z.eqb_eq in E; congruence|].
  destruct (c <? 0); eauto.
Qed.


(** ** [decode]: the palette colour type *)

(** C6, the code at a well-formed indexed-colour file.  The later
    revision calls [reject] with the palette error at the header chunk
    but, having no [return] there, walks on through the palette, data
    and end chunks (inflating the data and running [decodeIDAT] with a
    [NaN] stride); the first rejection stands, so the promise is
    rejected with the palette error.  The earlier revision stops at the
    header chunk, with the error it has for every colour type but 6. *)
Lemma palette_header_walk_goes_on :
  decode sample_inflate png_indexed 4 =
    Some (mkRun (Rejected Palette) [IHDR; PLTE; IDAT; IEND])
  /\ Index.decode sample_inflate png_indexed 4 =
    Some (mkRun (Rejected (UnsupportedColorType Undefined)) [IHDR]).
Proof. split; vm_compute; reflexivity. Qed.

(** ** [decode]: the first rejection stands *)

Lemma chunk_keeps_rejection (inflate : list Z -> option (list Z))
    (png : list Z) (w : walker) (e : error) :
  rejected w = Some e ->
  rejected (walker_of (chunk inflate png w)) = Some e.
Proof.
  intros Hw. unfold chunk, reject.
  repeat match goal with
    | |- context [match ?x with _ => _ end] =>
        lazymatch x with
        | rejected _ => rewrite Hw
        | _ => destruct x
        end
    end; cbn; rewrite ?Hw; reflexivity.
Qed.

Lemma walk_keeps_rejection (inflate : list Z -> option (list Z))
    (png : list Z) (fuel : nat) :
  forall (w : walker) (t : turn) (e : error),
    rejected w = Some e ->
    walk inflate png fuel w = Some t ->
    rejected (walker_of t) = Some e.
Proof.
  induction fuel as [|fuel IH]; intros w t e Hw Hrun; cbn [walk] in Hrun.
  - destruct (i w <? len png); [discriminate|].
    injection Hrun as <-. exact Hw.
  - destruct (i w <? len png).
    + pose proof (chunk_keeps_rejection inflate png w e Hw) as Hc.
      destruct (chunk inflate png w) as [w'| |] eqn:E.
      * apply (IH w' t e Hc Hrun).
      * injection Hrun as <-. exact Hc.
      * injection Hrun as <-. exact Hc.
    + injection Hrun as <-. exact Hw.
Qed.

(** In the later revision a header chunk of colour type 3 (interlace
    byte other than 1) raises the palette rejection and the walk goes
    on at the next chunk; whatever the following chunks do, a run that
    ends is rejected with the palette error. *)
Lemma palette_header_is_not_the_end (inflate : list Z -> option (list Z))
    (png : list Z) (fuel : nat) (d : Z) :
  signature_ok png = true ->
  tag_of png 8 = IHDR ->
  byte_at png 24 = Int d ->
  byte_at png 25 = Int 3 ->
  loose_eq (byte_at png 28) 1 = false ->
  decode inflate png (S fuel) =
    finish (walk inflate png fuel
              (mkWalker (8 + (read32 png 8 + 12))
                 (mkImage (Some (read32 png 16)) (Some (read32 png 20))
                    (Int d) (Int 3) None [])
                 [] [] (Some Palette) [IHDR]))
  /\ forall r, decode inflate png (S fuel) = Some r ->
               outcome r = Rejected Palette.
Proof.
  intros Hsig Htag Hd Hcol Hil.
  assert (Hin : (8 <? len png) = true).
  { apply Z.ltb_lt. pose proof (byte_at_in_range png 24 d Hd). lia. }
  assert (Hstep : decode inflate png (S fuel) =
    finish (walk inflate png fuel
              (mkWalker (8 + (read32 png 8 + 12))
                 (mkImage (Some (read32 png 16)) (Some (read32 png 20))
                    (Int d) (Int 3) None [])
                 [] [] (Some Palette) [IHDR]))).
  { unfold decode. rewrite Hsig. f_equal.
    unfold start. cbn [walk i]. rewrite Hin.
    unfold chunk. cbn [i image base pixels rejected visited].
    rewrite Htag.
    change (8 + 8) with 16. change (8 + 12) with 20.
    change (8 + 16) with 24. change (8 + 17) with 25. change (8 + 20) with 28.
    rewrite Hil. cbn [color depth width height]. rewrite Hd, Hcol.
    reflexivity. }
  split; [exact Hstep|].
  intros r Hr. rewrite Hstep in Hr.
  destruct (walk inflate png fuel _) as [t|] eqn:Hwalk; [|discriminate].
  assert (Hrej : rejected (walker_of t) = Some Palette).
  { eapply walk_keeps_rejection; [|exact Hwalk]. reflexivity. }
  unfold finish, settle in Hr.
  destruct t as [w | w | w]; cbn [walker_of] in Hrej.
  - destruct (group (pixels w) (channels (image w))); [|discriminate].
    injection Hr as <-. cbn [outcome]. now rewrite Hrej.
  - injection Hr as <-. cbn [outcome]. now rewrite Hrej.
  - injection Hr as <-. cbn [outcome]. now rewrite Hrej.
Qed.

(** ** [decode]: the shape of the record *)

Lemma loose_eq_true (x : value) (n : Z) : loose_eq x n = true -> x = Int n.
Proof.
  destruct x as [| | s | z]; try discriminate.
  simpl. intros H. apply Z.eqb_eq in H. now subst.
Qed.

Lemma chunk_shape (inflate : list Z -> option (list Z)) (png : list Z)
    (w : walker) :
  image_shape (image w) ->
  image_shape (image (walker_of (chunk inflate png w))).
Proof.
  intros Hw. unfold chunk.
  destruct (tag_of png (i w)).
  - destruct (loose_eq (byte_at png (i w + 20)) 1); [left; reflexivity|].
    cbn [color].
    destruct (loose_eq (byte_at png (i w + 17)) 6) eqn:E6.
    { right; left. cbn. split; [now apply loose_eq_true | reflexivity]. }
    destruct (loose_eq (byte_at png (i w + 17)) 2) eqn:E2.
    { right; right. cbn. split; [now apply loose_eq_true | reflexivity]. }
    destruct (loose_eq (byte_at png (i w + 17)) 3); left; reflexivity.
  - exact Hw.
  - exact Hw.
  - destruct (inflate (base w)) as [baseData|]; [|exact Hw].
    destruct (decodeIDAT baseData (stride8 (image w)) (channels (image w))
                (height (image w))) as [bytes [e|]]; exact Hw.
  - exact Hw.
Qed.

Lemma walk_shape (inflate : list Z -> option (list Z)) (png : list Z)
    (fuel : nat) :
  forall (w : walker) (t : turn),
    image_shape (image w) ->
    walk inflate png fuel w = Some t ->
    image_shape (image (walker_of t)).
Proof.
  induction fuel as [|fuel IH]; intros w t Hw Hrun; cbn [walk] in Hrun.
  - destruct (i w <? len png); [discriminate|].
    injection Hrun as <-. exact Hw.
  - destruct (i w <? len png).
    + pose proof (chunk_shape inflate png w Hw) as Hc.
      destruct (chunk inflate png w) as [w'| |] eqn:E.
      * apply (IH w' t Hc Hrun).
      * injection Hrun as <-. exact Hc.
      * injection Hrun as <-. exact Hc.
    + injection Hrun as <-. exact Hw.
Qed.

Lemma tuple_length (px : list value) (c n : Z) :
  List.length (tuple px c n) = Z.to_nat c.
Proof. unfold tuple. now rewrite length_map, length_seq. Qed.

Lemma group_widths (px : list value) (c : Z) (tuples : list (list value)) :
  group px (Some c) = Some tuples ->
  forall p, In p tuples -> List.length p = Z.to_nat c.
Proof.
  unfold group.
  destruct (c =? 0).
  - destruct (len px =? 0); [|discriminate].
    intros [= <-] p [].
  - destruct (c <? 0).
    + intros [= <-] p [].
    + intros [= <-] p Hp. apply in_map_iff in Hp.
      destruct Hp as (n & <- & _). apply tuple_length.
Qed.

(** A record the later revision resolves with has its colour type and
    pixel size in step, and tuples of that size. *)
Lemma decode_resolved (inflate : list Z -> option (list Z)) (png : list Z)
    (fuel : nat) (r : run) (img : imageData) :
  decode inflate png fuel = Some r ->
  outcome r = Resolved img ->
  image_shape img
  /\ forall p, In p (data img) ->
       exists c, channels img = Some c /\ List.length p = Z.to_nat c.
Proof.
  unfold decode. destruct (signature_ok png).
  - destruct (walk inflate png fuel start) as [t|] eqn:Hwalk; [|discriminate].
    assert (Hshape : image_shape (image (walker_of t))).
    { apply (walk_shape inflate png fuel start t); [left; reflexivity | assumption]. }
    unfold finish, settle.
    destruct t as [w | w | w]; cbn [walker_of] in Hshape.
    + destruct (group (pixels w) (channels (image w))) as [tuples|] eqn:Hg;
        [|discriminate].
      intros [= <-]. cbn [outcome].
      destruct (rejected w); [discriminate|].
      intros [= <-]. split; [exact Hshape|].
      cbn [data channels]. intros p Hp.
      destruct (channels (image w)) as [c|] eqn:Hc.
      * exists c. split; [reflexivity|]. apply (group_widths _ _ _ Hg p Hp).
      * cbn in Hg. injection Hg as <-. destruct Hp.
    + intros [= <-]. cbn [outcome]. destruct (rejected w); discriminate.
    + intros [= <-]. cbn [outcome]. destruct (rejected w); discriminate.
  - intros [= <-]. discriminate.
Qed.

Lemma index_decode_resolved (inflate : list Z -> option (list Z)) (png : list Z)
    (fuel : nat) (r : run) (img : imageData) :
  Index.decode inflate png fuel = Some r ->
  outcome r = Resolved img ->
  forall p, In p (data img) -> List.length p = 4%nat.
Proof.
  unfold Index.decode. destruct (signature_ok png).
  - destruct (Index.walk inflate png fuel start) as [t|]; [|discriminate].
    unfold Index.finish, settle.
    destruct t as [w | w | w].
    + intros [= <-]. cbn [outcome].
      destruct (rejected w); [discriminate|].
      intros [= <-]. cbn [data]. intros p Hp.
      unfold Index.group in Hp. apply in_map_iff in Hp.
      destruct Hp as (n & <- & _). apply tuple_length.
    + intros [= <-]. cbn [outcome]. destruct (rejected w); discriminate.
    + intros [= <-]. cbn [outcome]. destruct (rejected w); discriminate.
  - intros [= <-]. discriminate.
Qed.

(** Tuples of the later revision are three or four wide. *)
Lemma decode_widths (inflate : list Z -> option (list Z)) (png : list Z)
    (fuel : nat) (r : run) (img : imageData) :
  decode inflate png fuel = Some r ->
  outcome r = Resolved img ->
  Forall (fun p => (List.length p <= 4)%nat) (data img).
Proof.
  intros Hrun Hout.
  destruct (decode_resolved inflate png fuel r img Hrun Hout) as [Hshape Hw].
  apply Forall_forall. intros p Hp.
  destruct (Hw p Hp) as (c & Hc & ->).
  destruct Hshape as [Hn | [[_ H4] | [_ H3]]]; rewrite Hc in *.
  - discriminate.
  - injection H4 as ->. simpl. lia.
  - injection H3 as ->. simpl. lia.
Qed.

(** ** [mean] *)

Lemma add_pixel_four (pixel : list value) (t0 t1 t2 t3 : value) :
  (List.length pixel <= 4)%nat ->
  add_pixel 0 pixel [t0; t1; t2; t3] =
  map (fun '(n, t) =>
         match nth_error pixel n with
         | Some v => JS.add t v
         | None => t
         end)
      [(0%nat, t0); (1%nat, t1); (2%nat, t2); (3%nat, t3)].
Proof.
  intros Hlen.
  destruct pixel as [|a [|b [|c [|d [|e rest]]]]]; try reflexivity.
  simpl in Hlen. lia.
Qed.

(** The one array of totals is the four channel sums. *)
Lemma sum_pixels_channels (pixels : list (list value)) :
  Forall (fun p => (List.length p <= 4)%nat) pixels ->
  sum_pixels pixels =
  [channel_total 0 pixels; channel_total 1 pixels;
   channel_total 2 pixels; channel_total 3 pixels].
Proof.
  unfold sum_pixels, channel_total.
  generalize (Int 0) at 1 5 as t0. generalize (Int 0) at 1 4 as t1.
  generalize (Int 0) at 1 3 as t2. generalize (Int 0) as t3.
  induction pixels as [|p rest IH]; intros t3 t2 t1 t0 Hw; [reflexivity|].
  inversion Hw as [|? ? Hp Hrest]; subst.
  cbn [fold_left]. rewrite add_pixel_four by assumption.
  cbn [map]. now rewrite IH.
Qed.

Lemma mean_color_channels (pixels : list (list value)) :
  Forall (fun p => (List.length p <= 4)%nat) pixels ->
  mean_color pixels =
  map (fun n => JS.round_div (channel_total n pixels) (List.length pixels))
      [0; 1; 2; 3]%nat.
Proof.
  intros Hw. unfold mean_color. now rewrite sum_pixels_channels.
Qed.

Lemma channel_total_integer (n : nat) (pixels : list (list value)) :
  integer_samples pixels ->
  channel_total n pixels = Int (channel_sum n pixels).
Proof.
  unfold channel_total, channel_sum.
  generalize 0 as t.
  induction pixels as [|p rest IH]; intros t Hint; [reflexivity|].
  cbn [fold_left].
  assert (Hrest : integer_samples rest).
  { intros q v Hq Hv. apply (Hint q v); [right; assumption | assumption]. }
  destruct (nth_error p n) as [v|] eqn:E.
  - destruct (Hint p v) as [z ->]; [left; reflexivity | |].
    + apply (nth_error_In _ _ E).
    + apply (IH (t + z) Hrest).
  - apply (IH t Hrest).
Qed.

(** [Math.round] of a quotient of integers is an integer within a half
    of it, the half itself going up. *)
Lemma round_div_nearest (t : Z) (n : nat) :
  (0 < n)%nat ->
  exists q,
    JS.round_div (Int t) n = Int q
    /\ 2 * t - Z.of_nat n < 2 * Z.of_nat n * q <= 2 * t + Z.of_nat n.
Proof.
  intros Hn. destruct n as [|m]; [lia|].
  exists ((2 * t + Z.of_nat (S m)) / (2 * Z.of_nat (S m))).
  split; [reflexivity|].
  pose proof (Z.div_mod (2 * t + Z.of_nat (S m)) (2 * Z.of_nat (S m))) as Hdm.
  pose proof (Z.mod_pos_bound (2 * t + Z.of_nat (S m)) (2 * Z.of_nat (S m))) as Hb.
  lia.
Qed.

(** C5, as the code has it: for every image either revision of
    [decode] resolves with that has at least one pixel and integer
    samples, [mean] resolves with four integers, each the integer
    nearest to the sum of its channel over the pixels (a channel the
    tuples lack counting 0) divided by the number of pixels, a half
    going up.  The pixels (10,20,30,255) and (20,30,40,255) give
    (15,25,35,255), and a rejection of [decode] is the rejection of
    [mean]. *)
Theorem mean_is_rounded_channel_average :
  (forall inflate png fuel r img,
      decode inflate png fuel = Some r \/ Index.decode inflate png fuel = Some r ->
      outcome r = Resolved img ->
      data img <> [] ->
      integer_samples (data img) ->
      exists q0 q1 q2 q3,
        mean_of (outcome r) = Resolved [Int q0; Int q1; Int q2; Int q3]
        /\ nearest_integer (channel_sum 0 (data img)) (len (data img)) q0
        /\ nearest_integer (channel_sum 1 (data img)) (len (data img)) q1
        /\ nearest_integer (channel_sum 2 (data img)) (len (data img)) q2
        /\ nearest_integer (channel_sum 3 (data img)) (len (data img)) q3)
  /\ mean_color [[Int 10; Int 20; Int 30; Int 255]; [Int 20; Int 30; Int 40; Int 255]]
     = [Int 15; Int 25; Int 35; Int 255]
  /\ (forall inflate downloaded fuel r e,
        decode_url inflate downloaded fuel = Some r ->
        outcome r = Rejected e ->
        mean inflate downloaded fuel = Some (Rejected e)).
Proof.
  split; [|split].
  - intros inflate png fuel r img Hrun Hout Hne Hint.
    assert (Hw : Forall (fun p => (List.length p <= 4)%nat) (data img)).
    { destruct Hrun as [Hrun | Hrun].
      - apply (decode_widths inflate png fuel r img Hrun Hout).
      - apply Forall_forall. intros p Hp.
        rewrite (index_decode_resolved inflate png fuel r img Hrun Hout p Hp).
        lia. }
    assert (Hn : (0 < List.length (data img))%nat)
      by (destruct (data img); [congruence | cbn; lia]).
    rewrite Hout. cbn [mean_of].
    rewrite (mean_color_channels (data img) Hw). cbn [map].
    rewrite !(channel_total_integer _ (data img) Hint).
    destruct (round_div_nearest (channel_sum 0 (data img)) _ Hn) as (q0 & -> & H0).
    destruct (round_div_nearest (channel_sum 1 (data img)) _ Hn) as (q1 & -> & H1).
    destruct (round_div_nearest (channel_sum 2 (data img)) _ Hn) as (q2 & -> & H2).
    destruct (round_div_nearest (channel_sum 3 (data img)) _ Hn) as (q3 & -> & H3).
    exists q0, q1, q2, q3. unfold nearest_integer, len. auto.
  - reflexivity.
  - intros inflate downloaded fuel r e Hrun Hout.
    unfold mean. rewrite Hrun. cbn [option_map]. now rewrite Hout.
Qed.

Lemma mean_is_rounded_channel_average_witness :
  exists q0 q1 q2 q3,
    mean_of (Resolved (mkImage (Some 2) (Some 1) (Int 8) (Int 6) (Some 4)
                         [[Int 10; Int 20; Int 30; Int 255];
                          [Int 20; Int 30; Int 40; Int 255]]))
    = Resolved [Int q0; Int q1; Int q2; Int q3]
    /\ nearest_integer 30 2 q0 /\ nearest_integer 50 2 q1
    /\ nearest_integer 70 2 q2 /\ nearest_integer 510 2 q3.
Proof.
  apply (proj1 mean_is_rounded_channel_average packed_inflate
           png_two_pixels_packed 3%nat
           (mkRun (Resolved (mkImage (Some 2) (Some 1) (Int 8) (Int 6) (Some 4)
                               [[Int 10; Int 20; Int 30; Int 255];
                                [Int 20; Int 30; Int 40; Int 255]]))
                  [IHDR; IDAT; IEND])
           (mkImage (Some 2) (Some 1) (Int 8) (Int 6) (Some 4)
              [[Int 10; Int 20; Int 30; Int 255];
               [Int 20; Int 30; Int 40; Int 255]])).
  - left. vm_compute. reflexivity.
  - reflexivity.
  - discriminate.
  - intros p v [<- | [<- | []]] Hv;
      repeat (destruct Hv as [<- | Hv]; [eauto|]); destruct Hv.
Defined.

(** C5 as stated fails: the 0x0 file is decoded, to a record of no
    pixels, and its mean is four [NaN], no rounded quotient. *)
Lemma mean_of_decoded_image_is_NaN :
  decode sample_inflate png_no_pixels 3 =
    Some (mkRun
            (Resolved (mkImage (Some 0) (Some 0) (Int 8) (Int 6) (Some 4) []))
            [IHDR; IDAT; IEND])
  /\ Index.decode sample_inflate png_no_pixels 3 =
       Some (mkRun
               (Resolved (mkImage (Some 0) (Some 0) (Int 8) (Int 6) None []))
               [IHDR; IDAT; IEND])
  /\ mean sample_inflate (inr png_no_pixels) 3
     = Some (Resolved [NaN; NaN; NaN; NaN]).
Proof. repeat split; vm_compute; reflexivity. Qed.

(** C8: [mean] divides by [image.data.length] unguarded.  On a record
    of no pixels every total is 0 and every quotient 0/0: [mean]
    resolves with four [NaN], none of them a byte; the 0x0 file is
    decoded to such a record. *)
Theorem mean_of_no_pixels (img : imageData) :
  data img = [] ->
  mean_of (Resolved img) = Resolved [NaN; NaN; NaN; NaN]
  /\ (forall v, In v [NaN; NaN; NaN; NaN] -> ~ is_byte_value v)
  /\ decode sample_inflate png_no_pixels 3 =
       Some (mkRun
               (Resolved (mkImage (Some 0) (Some 0) (Int 8) (Int 6) (Some 4) []))
               [IHDR; IDAT; IEND])
  /\ mean sample_inflate (inr png_no_pixels) 3
     = Some (Resolved [NaN; NaN; NaN; NaN]).
Proof.
  intros Hdata. split; [|split; [|split]].
  - cbn [mean_of]. rewrite Hdata. reflexivity.
  - intros v Hv (x & Hx & _).
    repeat (destruct Hv as [<- | Hv]; [discriminate|]). destruct Hv.
  - vm_compute. reflexivity.
  - vm_compute. reflexivity.
Qed.

Lemma mean_of_no_pixels_witness :
  mean_of (Resolved (mkImage (Some 0) (Some 0) (Int 8) (Int 6) (Some 4) []))
  = Resolved [NaN; NaN; NaN; NaN].
Proof.
  exact (proj1 (mean_of_no_pixels
                  (mkImage (Some 0) (Some 0) (Int 8) (Int 6) (Some 4) [])
                  eq_refl)).
Defined.

Lemma channel_total_absent (n : nat) (pixels : list (list value)) :
  (forall p, In p pixels -> nth_error p n = None) ->
  channel_total n pixels = Int 0.
Proof.
  unfold channel_total. generalize (Int 0) as t.
  induction pixels as [|p rest IH]; intros t Habs; [reflexivity|].
  cbn [fold_left]. rewrite (Habs p) by (left; reflexivity).
  apply IH. intros q Hq. apply Habs. right. assumption.
Qed.

Lemma round_div_zero (n : nat) : (0 < n)%nat -> JS.round_div (Int 0) n = Int 0.
Proof.
  intros Hn. destruct n as [|m]; [lia|].
  unfold JS.round_div, JS.to_number. f_equal.
  apply Z.div_small. lia.
Qed.

(** C9, as the code has it: the later revision resolves a colour type 2
    file with tuples of three values, and [mean] of such a record of at
    least one pixel has 0 for its alpha component. *)
Theorem truecolor_mean_alpha (inflate : list Z -> option (list Z))
    (png : list Z) (fuel : nat) (r : run) (img : imageData) :
  decode inflate png fuel = Some r ->
  outcome r = Resolved img ->
  color img = Int 2 ->
  (forall p, In p (data img) -> List.length p = 3%nat)
  /\ (data img <> [] ->
      exists red green blue,
        mean_of (outcome r) = Resolved [red; green; blue; Int 0]).
Proof.
  intros Hrun Hout Hcolor.
  destruct (decode_resolved inflate png fuel r img Hrun Hout) as [Hshape Hw].
  assert (Hthree : forall p, In p (data img) -> List.length p = 3%nat).
  { intros p Hp. destruct (Hw p Hp) as (c & Hc & ->).
    destruct Hshape as [Hn | [[H6 _] | [_ H3]]]; try congruence.
    rewrite Hc in H3. now injection H3 as ->. }
  split; [exact Hthree|].
  intros Hne. rewrite Hout. cbn [mean_of].
  rewrite mean_color_channels
    by (apply (decode_widths inflate png fuel r img Hrun Hout)).
  cbn [map].
  rewrite (channel_total_absent 3 (data img)).
  - rewrite round_div_zero by (destruct (data img); [congruence | simpl; lia]).
    eauto.
  - intros p Hp. apply nth_error_None. rewrite (Hthree p Hp). lia.
Qed.

Lemma truecolor_mean_alpha_witness :
  (forall p, In p [[Int 10; Int 20; Int 30]] -> List.length p = 3%nat)
  /\ ([[Int 10; Int 20; Int 30]] <> [] ->
      exists red green blue,
        mean_of (Resolved (mkImage (Some 1) (Some 1) (Int 8) (Int 2) (Some 3)
                             [[Int 10; Int 20; Int 30]]))
        = Resolved [red; green; blue; Int 0]).
Proof.
  exact (truecolor_mean_alpha sample_inflate png_rgb 3%nat
           (mkRun (Resolved (mkImage (Some 1) (Some 1) (Int 8) (Int 2) (Some 3)
                               [[Int 10; Int 20; Int 30]]))
                  [IHDR; IDAT; IEND])
           _ eq_refl eq_refl eq_refl).
Defined.

(** C9 as stated fails on a colour type 2 file of no pixels: the record
    has no tuple and [mean] gives [NaN], not 0, for the alpha component
    as for the other three. *)
Lemma truecolor_no_pixels_alpha :
  decode sample_inflate png_rgb_no_pixels 3 =
    Some (mkRun
            (Resolved (mkImage (Some 0) (Some 0) (Int 8) (Int 2) (Some 3) []))
            [IHDR; IDAT; IEND])
  /\ mean sample_inflate (inr png_rgb_no_pixels) 3
     = Some (Resolved [NaN; NaN; NaN; NaN]).
Proof. split; vm_compute; reflexivity. Qed.

(** * Further properties *)

(** ** [decodeIDAT]: the other filters *)

(** What holds at a position of a completed run whose filtered byte is
    in the stream: the sample and the three neighbours are bytes, and
    the value there is what the filter of the row computes. *)
Lemma at_position (data : list Z) (s c h : Z) (bytes : list value) (j k f : Z) :
  Forall is_byte data -> 0 < c ->
  row_loop data (Some (8 * s)) (Some c) (Z.to_nat h) 0 [] = inl bytes ->
  0 <= j < h -> 0 <= k < s ->
  lookup data (j * (s + 1) + 1 + k) = Some f ->
  is_byte f
  /\ byte_at (scanline data (Some (8 * s)) j) k = Int f
  /\ is_byte_value (left (Some (8 * s)) (Some c) j k bytes)
  /\ is_byte_value (up (Some (8 * s)) j k bytes)
  /\ is_byte_value (upleft (Some (8 * s)) (Some c) j k bytes)
  /\ exists body,
       filter_of data (Some (8 * s)) (Some c)
         (byte_value (lookup data (j * (s + 1)))) = Some body
       /\ lookup bytes (j * s + k) = Some (body j k bytes).
Proof.
  intros Hd Hc Hrun Hj Hk Hsample.
  assert (Hs : 0 <= s) by lia.
  assert (Hin : j * (s + 1) + 1 + k < len data)
    by (apply (lookup_Some_lt _ _ _ Hsample)).
  destruct (completed_run data s c h bytes) as (Hobeys & Hlen);
    try assumption; try lia.
  destruct (sample_present data s Hd Hs j k) as (f' & Hf' & Hfb & Hscan);
    [lia | lia | assumption|].
  assert (f' = f) by congruence. subst f'.
  destruct (neighbours_bytes s c bytes Hc Hs j k) as (Ha & Hb & Hcv);
    [lia | lia | |].
  { apply (bytes_below data s c h bytes); assumption. }
  destruct (by_filter_at data s c h bytes j k Hobeys Hlen Hj Hk)
    as (body & Hf & Hl).
  rewrite selector_int in Hf.
  split; [assumption|]. split; [assumption|]. split; [assumption|].
  split; [assumption|]. split; [assumption|]. eauto.
Qed.

Lemma completed_either (data : list Z) (s c h : Z) (bytes : list value) :
  decodeIDAT data (Some (8 * s)) (Some c) (Some h) = (bytes, None)
  \/ (c = 4 /\ Index.decodeIDAT data (Some (8 * s)) (Some h) = Some bytes) ->
  row_loop data (Some (8 * s)) (Some c) (Z.to_nat h) 0 [] = inl bytes.
Proof.
  intros [Hrun | [-> Hrun]].
  - apply (decodeIDAT_completed _ _ _ _ _ Hrun).
  - apply (index_decodeIDAT_completed _ _ _ _ Hrun).
Qed.

Lemma byte_mod (f : Z) : is_byte f -> f mod 256 = f.
Proof. unfold is_byte. intros H. apply Z.mod_small. lia. Qed.

(** Filter 0: the reconstructed byte is the filtered byte. *)
Theorem none_reconstruction (data : list Z) (stride height channels : Z)
    (bytes : list value) (j k f : Z) :
  Forall is_byte data ->
  0 < channels ->
  (decodeIDAT data (Some (8 * stride)) (Some channels) (Some height) = (bytes, None)
   \/ (channels = 4 /\
       Index.decodeIDAT data (Some (8 * stride)) (Some height) = Some bytes)) ->
  0 <= j < height -> 0 <= k < stride ->
  lookup data (j * (stride + 1)) = Some 0 ->
  lookup data (j * (stride + 1) + 1 + k) = Some f ->
  lookup bytes (j * stride + k) = Some (Int f).
Proof.
  intros Hd Hc Hrun Hj Hk Hsel Hsample.
  apply completed_either in Hrun.
  destruct (at_position data stride channels height bytes j k f
              Hd Hc Hrun Hj Hk Hsample)
    as (Hfb & Hscan & _ & _ & _ & body & Hf & Hl).
  rewrite Hsel in Hf. change (byte_value (Some 0)) with (Int 0) in Hf.
  destruct (filter_of_cases _ _ _ _ _ Hf)
    as [[_ ->] | [[E _] | [[E _] | [[E _] | [E _]]]]]; try discriminate E.
  unfold filter_none in Hl. rewrite Hscan in Hl.
  rewrite Hl. unfold JS.mod256, JS.to_number. do 2 f_equal.
  unfold is_byte in Hfb. rewrite Z.rem_mod_nonneg by lia.
  apply Z.mod_small. lia.
Qed.

Lemma none_reconstruction_witness :
  lookup paeth_bytes (0 * 8 + 2) = Some (Int 30).
Proof.
  apply (none_reconstruction
           [0; 10; 20; 30; 255; 11; 21; 31; 0; 4; 1; 2; 3; 4; 5; 6; 7; 8]
           8 2 4 paeth_bytes 0 2 30).
  - repeat constructor; unfold is_byte; lia.
  - lia.
  - left. vm_compute. reflexivity.
  - lia.
  - lia.
  - reflexivity.
  - reflexivity.
Defined.

(** Filter 2: the filtered byte plus the reconstructed byte above it,
    modulo 256; on the first row nothing is added. *)
Theorem up_reconstruction (data : list Z) (stride height channels : Z)
    (bytes : list value) (j k f : Z) :
  Forall is_byte data ->
  0 < channels ->
  (decodeIDAT data (Some (8 * stride)) (Some channels) (Some height) = (bytes, None)
   \/ (channels = 4 /\
       Index.decodeIDAT data (Some (8 * stride)) (Some height) = Some bytes)) ->
  0 <= j < height -> 0 <= k < stride ->
  lookup data (j * (stride + 1)) = Some 2 ->
  lookup data (j * (stride + 1) + 1 + k) = Some f ->
  (j = 0 -> lookup bytes k = Some (Int f))
  /\ (0 < j ->
      exists b,
        lookup bytes ((j - 1) * stride + k) = Some (Int b)
        /\ lookup bytes (j * stride + k) = Some (Int ((b + f) mod 256))).
Proof.
  intros Hd Hc Hrun Hj Hk Hsel Hsample.
  apply completed_either in Hrun.
  destruct (at_position data stride channels height bytes j k f
              Hd Hc Hrun Hj Hk Hsample)
    as (Hfb & Hscan & _ & (b & Hb & Hbb) & _ & body & Hf & Hl).
  rewrite Hsel in Hf. change (byte_value (Some 2)) with (Int 2) in Hf.
  destruct (filter_of_cases _ _ _ _ _ Hf)
    as [[E _] | [[E _] | [[_ ->] | [[E _] | [E _]]]]]; try discriminate E.
  unfold filter_up in Hl. rewrite Hscan, Hb in Hl. cbv zeta in Hl.
  destruct (mod256_add_bytes b f) as [Hm _];
    [unfold is_byte in Hbb; lia | unfold is_byte in Hfb; lia|].
  rewrite Hm in Hl. rewrite up_int in Hb.
  split.
  - intros ->. change (0 =? 0) with true in Hb. cbv iota in Hb.
    injection Hb as <-. rewrite Z.mul_0_l, Z.add_0_l in Hl.
    rewrite Hl. do 2 f_equal. now apply byte_mod.
  - intros Hpos. destruct (j =? 0) eqn:E; [reflect_order; lia|].
    exists b. split; [|assumption].
    replace ((j - 1) * stride + k) with (j * stride + k - stride) by lia.
    unfold elem_at in Hb.
    destruct (lookup bytes (j * stride + k - stride)) as [v|];
      [now subst v | discriminate].
Qed.

Lemma up_reconstruction_witness :
  (1 = 0 -> lookup [Int 10; Int 20; Int 30; Int 250; Int 7; Int 9] 1
            = Some (Int 243))
  /\ (0 < 1 ->
      exists b,
        lookup [Int 10; Int 20; Int 30; Int 250; Int 7; Int 9] ((1 - 1) * 3 + 1)
        = Some (Int b)
        /\ lookup [Int 10; Int 20; Int 30; Int 250; Int 7; Int 9] (1 * 3 + 1)
           = Some (Int ((b + 243) mod 256))).
Proof.
  apply (up_reconstruction [0; 10; 20; 30; 2; 240; 243; 235] 3 2 3
           [Int 10; Int 20; Int 30; Int 250; Int 7; Int 9] 1 1 243).
  - repeat constructor; unfold is_byte; lia.
  - lia.
  - left. vm_compute. reflexivity.
  - lia.
  - lia.
  - reflexivity.
  - reflexivity.
Defined.

(** Filter 3: the filtered byte plus the floor of the mean of the
    reconstructed bytes to the left ([a], 0 within the first pixel) and
    above ([b], 0 on the first row), modulo 256. *)
Theorem average_reconstruction (data : list Z) (stride height channels : Z)
    (bytes : list value) (j k f : Z) :
  Forall is_byte data ->
  0 < channels ->
  (decodeIDAT data (Some (8 * stride)) (Some channels) (Some height) = (bytes, None)
   \/ (channels = 4 /\
       Index.decodeIDAT data (Some (8 * stride)) (Some height) = Some bytes)) ->
  0 <= j < height -> 0 <= k < stride ->
  lookup data (j * (stride + 1)) = Some 3 ->
  lookup data (j * (stride + 1) + 1 + k) = Some f ->
  exists a b,
    (if k <? channels then Int 0
     else elem_at bytes (j * stride + k - channels)) = Int a
    /\ (if j =? 0 then Int 0
        else elem_at bytes ((j - 1) * stride + k)) = Int b
    /\ lookup bytes (j * stride + k) = Some (Int (((a + b) / 2 + f) mod 256)).
Proof.
  intros Hd Hc Hrun Hj Hk Hsel Hsample.
  apply completed_either in Hrun.
  destruct (at_position data stride channels height bytes j k f
              Hd Hc Hrun Hj Hk Hsample)
    as (Hfb & Hscan & (a & Ha & Hab) & (b & Hb & Hbb) & _ & body & Hf & Hl).
  rewrite Hsel in Hf. change (byte_value (Some 3)) with (Int 3) in Hf.
  destruct (filter_of_cases _ _ _ _ _ Hf)
    as [[E _] | [[E _] | [[E _] | [[_ ->] | [E _]]]]]; try discriminate E.
  unfold filter_average in Hl. rewrite Hscan, Ha, Hb in Hl. cbv zeta in Hl.
  change (JS.floor_half (JS.add (Int a) (Int b))) with (Int ((a + b) / 2)) in Hl.
  unfold is_byte in *.
  destruct (mod256_add_bytes ((a + b) / 2) f) as [Hm _];
    [apply Z.div_pos; lia | lia|].
  rewrite Hm in Hl.
  rewrite left_int in Ha. rewrite up_int in Hb.
  exists a, b. repeat split.
  - destruct (k <? channels) eqn:E1; destruct (channels - 1 <? k) eqn:E2;
      try assumption; exfalso; reflect_order; lia.
  - destruct (j =? 0); [assumption|].
    now replace ((j - 1) * stride + k) with (j * stride + k - stride) by lia.
  - assumption.
Qed.

Lemma average_reconstruction_witness :
  exists a b,
    (if 4 <? 3 then Int 0
     else elem_at [Int 10; Int 20; Int 30; Int 250; Int 7; Int 9;
                   Int 6; Int 12; Int 18; Int 132; Int 14; Int 19]
            (1 * 6 + 4 - 3)) = Int a
    /\ (if 1 =? 0 then Int 0
        else elem_at [Int 10; Int 20; Int 30; Int 250; Int 7; Int 9;
                      Int 6; Int 12; Int 18; Int 132; Int 14; Int 19]
               ((1 - 1) * 6 + 4)) = Int b
    /\ lookup [Int 10; Int 20; Int 30; Int 250; Int 7; Int 9;
               Int 6; Int 12; Int 18; Int 132; Int 14; Int 19] (1 * 6 + 4)
       = Some (Int (((a + b) / 2 + 5) mod 256)).
Proof.
  apply (average_reconstruction
           [0; 10; 20; 30; 250; 7; 9; 3; 1; 2; 3; 4; 5; 6] 6 2 3
           [Int 10; Int 20; Int 30; Int 250; Int 7; Int 9;
            Int 6; Int 12; Int 18; Int 132; Int 14; Int 19] 1 4 5).
  - repeat constructor; unfold is_byte; lia.
  - lia.
  - left. vm_compute. reflexivity.
  - lia.
  - lia.
  - reflexivity.
  - reflexivity.
Defined.


(** ** [decodeIDAT]: what a run returns *)

(** On a stream that holds every scanline a completed run returns
    [height * stride] values, each a byte. *)
Theorem reconstruction_gives_bytes (data : list Z) (stride height channels : Z)
    (bytes : list value) :
  Forall is_byte data ->
  0 < channels -> 0 <= stride -> 0 <= height ->
  height * (stride + 1) <= len data ->
  (decodeIDAT data (Some (8 * stride)) (Some channels) (Some height) = (bytes, None)
   \/ (channels = 4 /\
       Index.decodeIDAT data (Some (8 * stride)) (Some height) = Some bytes)) ->
  len bytes = height * stride
  /\ forall p, 0 <= p < height * stride ->
       exists v, lookup bytes p = Some (Int v) /\ 0 <= v < 256.
Proof.
  intros Hd Hc Hs Hh Hcomplete Hrun.
  apply completed_either in Hrun.
  destruct (completed_run data stride channels height bytes Hc Hs Hh Hrun)
    as (Hobeys & Hlen).
  split; [assumption|].
  intros p Hp.
  assert (Hspos : 0 < stride) by nia.
  assert (Hrow : p / stride < height)
    by (apply Z.div_lt_upper_bound; lia).
  destruct (reconstructed_bytes data stride channels height bytes
              Hd Hc Hs Hobeys Hlen p) as (v & Hv & Hb); [lia | lia | nia|].
  destruct (lookup_lt_Some bytes p) as [x Hx]; [lia|].
  unfold elem_at in Hv. rewrite Hx in Hv. subst x.
  exists v. split; [assumption | exact Hb].
Qed.

Lemma reconstruction_gives_bytes_witness :
  len paeth_bytes = 2 * 8
  /\ forall p, 0 <= p < 2 * 8 ->
       exists v, lookup paeth_bytes p = Some (Int v) /\ 0 <= v < 256.
Proof.
  apply (reconstruction_gives_bytes paeth_stream 8 2 4 paeth_bytes).
  - repeat constructor; unfold is_byte; lia.
  - lia.
  - lia.
  - lia.
  - vm_compute. discriminate.
  - left. vm_compute. reflexivity.
Defined.

Lemma invalid_selector (data : list Z) (s : Z) (channels : option Z) (j : Z) :
  (forall sel, lookup data (j * (s + 1)) = Some sel -> ~ 0 <= sel <= 4) ->
  filter_of data (Some (8 * s)) channels (selector data (Some (8 * s)) j) = None.
Proof.
  intros Hbad. rewrite selector_int.
  destruct (lookup data (j * (s + 1))) as [sel|] eqn:E; [|reflexivity].
  specialize (Hbad sel eq_refl). unfold byte_value, filter_of.
  destruct (sel =? 0) eqn:E0; [reflect_order; lia|].
  destruct (sel =? 1) eqn:E1; [reflect_order; lia|].
  destruct (sel =? 2) eqn:E2; [reflect_order; lia|].
  destruct (sel =? 3) eqn:E3; [reflect_order; lia|].
  destruct (sel =? 4) eqn:E4; [reflect_order; lia|].
  reflexivity.
Qed.

(** The run stops at the first row that meets [default]. *)
Lemma row_loop_first_stop (data : list Z) (length8 channels : option Z)
    (n : nat) :
  forall (j : Z) (bs : list value) (r : Z),
    j <= r < j + Z.of_nat n ->
    (forall r', j <= r' < r ->
       filter_of data length8 channels (selector data length8 r') <> None) ->
    filter_of data length8 channels (selector data length8 r) = None ->
    row_loop data length8 channels n j bs = inr (selector data length8 r, r).
Proof.
  induction n as [|n IH]; intros j bs r Hr Hbefore Hnone; [lia|].
  cbn [row_loop].
  destruct (Z.eq_dec r j) as [-> | Hne].
  - now rewrite Hnone.
  - destruct (filter_of data length8 channels (selector data length8 j))
      as [body|] eqn:Hf.
    + apply IH; [lia | | assumption].
      intros r' Hr'. apply Hbefore. lia.
    + exfalso. apply (Hbefore j); [lia | assumption].
Qed.

(** A selector outside 0..4, or one the stream does not hold, ends the
    run at its row: the later revision rejects with that selector and
    that row index and returns no values, the rows reconstructed so far
    being dropped; the earlier revision throws. *)
Theorem unsupported_selector (data : list Z) (stride height : Z)
    (channels : option Z) (j : Z) :
  0 <= j < height ->
  (forall r, 0 <= r < j ->
     exists sel, lookup data (r * (stride + 1)) = Some sel /\ 0 <= sel <= 4) ->
  (forall sel, lookup data (j * (stride + 1)) = Some sel -> ~ 0 <= sel <= 4) ->
  decodeIDAT data (Some (8 * stride)) channels (Some height)
  = ([], Some (UnsupportedFilter (byte_value (lookup data (j * (stride + 1)))) j))
  /\ Index.decodeIDAT data (Some (8 * stride)) (Some height) = None.
Proof.
  intros Hj Hbefore Hbad.
  assert (Hstop : forall ch,
    row_loop data (Some (8 * stride)) ch (Z.to_nat height) 0 []
    = inr (byte_value (lookup data (j * (stride + 1))), j)).
  { intros ch. rewrite <- selector_int.
    apply row_loop_first_stop; [lia | |].
    - intros r Hr. destruct (Hbefore r Hr) as (sel & Hl & Hv).
      apply (valid_selector data stride ch r sel Hl Hv).
    - apply invalid_selector. assumption. }
  split.
  - unfold decodeIDAT. cbn [rows]. now rewrite Hstop.
  - unfold Index.decodeIDAT. cbn [rows]. now rewrite Hstop.
Qed.

Lemma unsupported_selector_witness :
  decodeIDAT [0; 1; 2; 3; 7; 4; 5; 6] (Some (8 * 3)) (Some 3) (Some 2)
  = ([], Some (UnsupportedFilter
                 (byte_value (lookup [0; 1; 2; 3; 7; 4; 5; 6] (1 * (3 + 1)))) 1))
  /\ Index.decodeIDAT [0; 1; 2; 3; 7; 4; 5; 6] (Some (8 * 3)) (Some 2) = None.
Proof.
  apply (unsupported_selector [0; 1; 2; 3; 7; 4; 5; 6] 3 2 (Some 3) 1).
  - lia.
  - intros r Hr. assert (r = 0) by lia. subst r.
    exists 0. split; [reflexivity | lia].
  - intros sel Hsel. vm_compute in Hsel. injection Hsel as <-. lia.
Defined.

Lemma subarray_length (arr : list Z) (b e : Z) :
  0 <= b -> 0 <= e -> len (subarray arr b e) <= Z.max (e - b) 0.
Proof.
  intros Hb He. unfold subarray, clamp_index, len.
  destruct (b <? 0) eqn:Eb; [reflect_order; lia|].
  destruct (e <? 0) eqn:Ee; [reflect_order; lia|].
  rewrite length_firstn. lia.
Qed.

(** A stride that is not a whole number (a bit depth that makes
    [width*depth*channels] no multiple of 8) never decodes cleanly.
    From the second row on, the selector is read at a fractional index:
    an image of two or more rows is rejected, at row 0 or at row 1, or
    thrown out by the earlier revision.  An image of one row with a
    valid selector is returned with [NaN] for its last value. *)
Theorem fractional_stride (data : list Z) (length8 height : Z)
    (channels : option Z) :
  length8 mod 8 <> 0 ->
  (2 <= height ->
   (exists sel j,
      0 <= j <= 1 /\
      decodeIDAT data (Some length8) channels (Some height)
      = ([], Some (UnsupportedFilter sel j)))
   /\ Index.decodeIDAT data (Some length8) (Some height) = None)
  /\ (height = 1 -> 0 < length8 ->
      (exists sel, lookup data 0 = Some sel /\ 0 <= sel <= 4) ->
      exists bytes,
        decodeIDAT data (Some length8) channels (Some height)
        = (bytes ++ [NaN], None)
        /\ len bytes = length8 / 8).
Proof.
  intros Hfrac. split.
  - intros Hh.
    assert (Hnone : forall ch,
      filter_of data (Some length8) ch (selector data (Some length8) 1) = None).
    { intros ch. unfold selector, option_map, at8.
      replace (1 * (length8 + 8)) with (length8 + 1 * 8) by lia.
      rewrite Z.mod_add by lia.
      destruct (length8 mod 8 =? 0) eqn:E; [reflect_order; contradiction|].
      reflexivity. }
    split.
    + destruct (row_loop_stops data (Some length8) channels
                  (Z.to_nat height) 0 [] 1)
        as (sel & j & Hj & Hrun); [lia | apply Hnone|].
      exists sel, j. split; [lia|].
      unfold decodeIDAT. cbn [rows]. now rewrite Hrun.
    + destruct (row_loop_stops data (Some length8) (Some 4)
                  (Z.to_nat height) 0 [] 1)
        as (sel & j & Hj & Hrun); [lia | apply Hnone|].
      unfold Index.decodeIDAT. cbn [rows]. now rewrite Hrun.
  - intros -> Hpos (sel & Hsel & Hvalid).
    assert (Hf : filter_of data (Some length8) channels
                   (selector data (Some length8) 0) <> None).
    { unfold selector, option_map, at8.
      rewrite Z.mul_0_l. change (0 mod 8 =? 0) with true. cbv iota.
      change (0 / 8) with 0. rewrite Hsel.
      assert (E : sel = 0 \/ sel = 1 \/ sel = 2 \/ sel = 3 \/ sel = 4) by lia.
      destruct E as [-> | [-> | [-> | [-> | ->]]]]; discriminate. }
    destruct (filter_of data (Some length8) channels
                (selector data (Some length8) 0)) as [body|] eqn:Hbody;
      [|congruence].
    assert (Hcols : columns (Some length8) = S (Z.to_nat (length8 / 8))).
    { unfold columns.
      assert (Hdm := Z.div_mod length8 8).
      assert (Hb := Z.mod_pos_bound length8 8).
      assert (Hq : (length8 + 7) / 8 = length8 / 8 + 1).
      { symmetry.
        apply (Z.div_unique (length8 + 7) 8 (length8 / 8 + 1)
                 (length8 mod 8 - 1)); lia. }
      rewrite Hq.
      assert (0 <= length8 / 8) by (apply Z.div_pos; lia).
      lia. }
    exists (push_loop (Z.to_nat (length8 / 8)) 0 (body 0) []).
    split.
    + unfold decodeIDAT. cbn [rows].
      change (Z.to_nat 1) with 1%nat. cbn [row_loop].
      rewrite Hbody, Hcols, push_loop_snoc.
      rewrite (filter_of_absent_sample _ _ _ _ _ _ _ _ Hbody); [reflexivity|].
      unfold byte_at. rewrite lookup_ge_None; [reflexivity|].
      unfold scanline, option_map, trunc8.
      replace (0 * (length8 + 8) + 8) with (1 * 8) by lia.
      rewrite Z.quot_mul by lia.
      assert (Hlen := subarray_length data 1 (Z.quot ((0 + 1) * (length8 + 8)) 8)).
      assert (Hq : Z.quot ((0 + 1) * (length8 + 8)) 8 = length8 / 8 + 1).
      { rewrite Z.quot_div_nonneg by lia.
        replace ((0 + 1) * (length8 + 8)) with (length8 + 1 * 8) by lia.
        rewrite Z.div_add by lia. reflexivity. }
      rewrite Hq in *.
      assert (0 <= length8 / 8) by (apply Z.div_pos; lia).
      lia.
    + rewrite push_loop_length. unfold len. simpl.
      assert (0 <= length8 / 8) by (apply Z.div_pos; lia).
      lia.
Qed.

Lemma fractional_stride_witness :
  (2 <= 2 ->
   (exists sel j,
      0 <= j <= 1 /\
      decodeIDAT [0; 200; 0; 100] (Some 3) (Some 3) (Some 2)
      = ([], Some (UnsupportedFilter sel j)))
   /\ Index.decodeIDAT [0; 200; 0; 100] (Some 3) (Some 2) = None)
  /\ (2 = 1 -> 0 < 3 ->
      (exists sel, lookup [0; 200; 0; 100] 0 = Some sel /\ 0 <= sel <= 4) ->
      exists bytes,
        decodeIDAT [0; 200; 0; 100] (Some 3) (Some 3) (Some 2)
        = (bytes ++ [NaN], None)
        /\ len bytes = 3 / 8).
Proof.
  apply (fractional_stride [0; 200; 0; 100] 3 2 (Some 3)).
  vm_compute. discriminate.
Defined.


(** ** [read32]: indices off the array, range, injectivity *)

Lemma present_byte (arr : list Z) (p : Z) :
  Forall is_byte arr -> is_byte (present arr p).
Proof.
  intros Hb. unfold present.
  destruct (lookup arr p) as [b|] eqn:E.
  - apply (Forall_lookup _ _ _ _ Hb E).
  - unfold is_byte. lia.
Qed.

Lemma to_int32_byte_at (arr : list Z) (p : Z) :
  Forall is_byte arr ->
  JS.to_int32 (byte_at arr p) = JS.to_int32 (Int (present arr p)).
Proof.
  intros Hb. unfold byte_at, present.
  destruct (lookup arr p) as [b|]; reflexivity.
Qed.

Lemma read32_value (arr : list Z) (int : Z) :
  Forall is_byte arr ->
  read32 arr int =
  (if present arr int <? 128 then present arr int else present arr int - 256)
    * 2 ^ 24
  + present arr (int + 1) * 2 ^ 16
  + present arr (int + 2) * 2 ^ 8
  + present arr (int + 3).
Proof.
  intros Hb.
  pose proof (present_byte arr int Hb) as H0.
  pose proof (present_byte arr (int + 1) Hb) as H1.
  pose proof (present_byte arr (int + 2) Hb) as H2.
  pose proof (present_byte arr (int + 3) Hb) as H3.
  unfold read32. rewrite !to_int32_byte_at by assumption.
  rewrite shl_byte_24 by assumption.
  rewrite !shl_byte by (assumption || lia).
  rewrite (to_int32_small (present arr (int + 3)))
    by (unfold is_byte in H3; lia).
  set (h := if present arr int <? 128
            then present arr int else present arr int - 256).
  unfold is_byte in *.
  rewrite (lor_mul_pow2 h 24 (present arr (int + 1) * 2 ^ 16)) by lia.
  replace (h * 2 ^ 24 + present arr (int + 1) * 2 ^ 16)
    with ((h * 2 ^ 8 + present arr (int + 1)) * 2 ^ 16) by lia.
  rewrite (lor_mul_pow2 _ 16 (present arr (int + 2) * 2 ^ 8)) by lia.
  replace ((h * 2 ^ 8 + present arr (int + 1)) * 2 ^ 16
           + present arr (int + 2) * 2 ^ 8)
    with (((h * 2 ^ 8 + present arr (int + 1)) * 2 ^ 8
           + present arr (int + 2)) * 2 ^ 8) by lia.
  rewrite (lor_mul_pow2 _ 8 (present arr (int + 3))) by lia.
  lia.
Qed.

(** [read32] at any index of any array of bytes, on or off the array:
    an element the array does not have counts as the byte 0, the result
    is a signed 32-bit integer, and it is 0 when the whole window is off
    the array. *)
Theorem read32_off_the_array (arr : list Z) (int : Z) :
  Forall is_byte arr ->
  read32 arr int =
    (if present arr int <? 128 then present arr int else present arr int - 256)
      * 2 ^ 24
    + present arr (int + 1) * 2 ^ 16
    + present arr (int + 2) * 2 ^ 8
    + present arr (int + 3)
  /\ - 2 ^ 31 <= read32 arr int < 2 ^ 31
  /\ (len arr <= int \/ int + 3 < 0 -> read32 arr int = 0).
Proof.
  intros Hb.
  pose proof (read32_value arr int Hb) as E.
  pose proof (present_byte arr int Hb) as H0.
  pose proof (present_byte arr (int + 1) Hb) as H1.
  pose proof (present_byte arr (int + 2) Hb) as H2.
  pose proof (present_byte arr (int + 3) Hb) as H3.
  unfold is_byte in *.
  split; [exact E|]. split.
  - rewrite E. destruct (present arr int <? 128) eqn:C; reflect_order; lia.
  - intros Hoff. rewrite E.
    assert (Hnone : forall k, 0 <= k <= 3 -> present arr (int + k) = 0).
    { intros k Hk. unfold present.
      destruct (lookup arr (int + k)) as [b|] eqn:El; [|reflexivity].
      apply lookup_Some_lt in El. lia. }
    pose proof (Hnone 0) as N0. rewrite Z.add_0_r in N0.
    rewrite N0, (Hnone 1), (Hnone 2), (Hnone 3) by lia. reflexivity.
Qed.

Lemma read32_off_the_array_witness :
  read32 [0; 0; 1] 1 =
    (if present [0; 0; 1] 1 <? 128
     then present [0; 0; 1] 1 else present [0; 0; 1] 1 - 256) * 2 ^ 24
    + present [0; 0; 1] (1 + 1) * 2 ^ 16
    + present [0; 0; 1] (1 + 2) * 2 ^ 8
    + present [0; 0; 1] (1 + 3)
  /\ - 2 ^ 31 <= read32 [0; 0; 1] 1 < 2 ^ 31
  /\ (len [0; 0; 1] <= 1 \/ 1 + 3 < 0 -> read32 [0; 0; 1] 1 = 0).
Proof.
  apply (read32_off_the_array [0; 0; 1] 1).
  repeat constructor; unfold is_byte; lia.
Defined.

(** Four bytes that are all there are recovered from the value:
    windows with the same [read32] hold the same bytes. *)
Theorem read32_injective (arr arr' : list Z) (int int' : Z)
    (b0 b1 b2 b3 c0 c1 c2 c3 : Z) :
  Forall is_byte arr -> Forall is_byte arr' ->
  lookup arr int = Some b0 -> lookup arr (int + 1) = Some b1 ->
  lookup arr (int + 2) = Some b2 -> lookup arr (int + 3) = Some b3 ->
  lookup arr' int' = Some c0 -> lookup arr' (int' + 1) = Some c1 ->
  lookup arr' (int' + 2) = Some c2 -> lookup arr' (int' + 3) = Some c3 ->
  read32 arr int = read32 arr' int' ->
  b0 = c0 /\ b1 = c1 /\ b2 = c2 /\ b3 = c3.
Proof.
  intros Hb Hb' L0 L1 L2 L3 M0 M1 M2 M3 Heq.
  rewrite (read32_value arr int Hb), (read32_value arr' int' Hb') in Heq.
  unfold present in Heq.
  rewrite L0, L1, L2, L3, M0, M1, M2, M3 in Heq.
  pose proof (Forall_lookup _ _ _ _ Hb L0) as H0.
  pose proof (Forall_lookup _ _ _ _ Hb L1) as H1.
  pose proof (Forall_lookup _ _ _ _ Hb L2) as H2.
  pose proof (Forall_lookup _ _ _ _ Hb L3) as H3.
  pose proof (Forall_lookup _ _ _ _ Hb' M0) as G0.
  pose proof (Forall_lookup _ _ _ _ Hb' M1) as G1.
  pose proof (Forall_lookup _ _ _ _ Hb' M2) as G2.
  pose proof (Forall_lookup _ _ _ _ Hb' M3) as G3.
  unfold is_byte in *.
  change (2 ^ 24) with 16777216 in Heq.
  change (2 ^ 16) with 65536 in Heq.
  change (2 ^ 8) with 256 in Heq.
  destruct (b0 <? 128) eqn:C; destruct (c0 <? 128) eqn:C'; reflect_order; lia.
Qed.

Lemma read32_injective_witness :
  200 = 200 /\ 1 = 1 /\ 2 = 2 /\ 3 = 3.
Proof.
  apply (read32_injective [200; 1; 2; 3] [9; 200; 1; 2; 3] 0 1
           200 1 2 3 200 1 2 3);
    try reflexivity; repeat constructor; unfold is_byte; lia.
Defined.


(** ** [decode]: the signature *)

Lemma list_eqb_true (x y : list Z) : list_eqb x y = true <-> x = y.
Proof.
  unfold list_eqb. destruct (list_eq_dec Z.eq_dec x y); split;
    congruence.
Qed.

Lemma signature_ok_prefix (png : list Z) :
  signature_ok png = true <-> exists rest, png = png_signature ++ rest.
Proof.
  unfold signature_ok. rewrite list_eqb_true. split.
  - intros H. exists (skipn 8 png).
    unfold subarray, clamp_index in H. cbn [Z.ltb Z.compare] in H.
    change (0 <? 0) with false in H. change (8 <? 0) with false in H.
    cbv iota in H.
    assert (Hlen : 8 <= len png).
    { apply (f_equal (@List.length Z)) in H. rewrite length_firstn in H.
      simpl in H. unfold len in *. lia. }
    rewrite Z.min_l in H by lia. rewrite Z.min_l in H by lia.
    change (Z.to_nat (8 - 0)) with 8%nat in H.
    change (Z.to_nat 0) with 0%nat in H. cbn [skipn] in H.
    change png_signature with [137; 80; 78; 71; 13; 10; 26; 10].
    rewrite <- H. symmetry. apply firstn_skipn.
  - intros [rest ->].
    unfold subarray, clamp_index.
    change (0 <? 0) with false. change (8 <? 0) with false. cbv iota.
    assert (Hlen : 8 <= len (png_signature ++ rest)).
    { unfold len. rewrite length_app. simpl. lia. }
    rewrite Z.min_l by lia. rewrite Z.min_l by lia.
    reflexivity.
Qed.

(** A buffer that does not begin with the eight signature bytes, an
    empty or a short one included, is rejected as no PNG by both
    revisions before any chunk is looked at, whatever it holds. *)
Theorem signature_checked (inflate : list Z -> option (list Z))
    (png : list Z) (fuel : nat) :
  (forall rest, png <> png_signature ++ rest) ->
  decode inflate png fuel = Some (mkRun (Rejected NotPng) [])
  /\ Index.decode inflate png fuel = Some (mkRun (Rejected NotPng) []).
Proof.
  intros Hno.
  assert (Hsig : signature_ok png = false).
  { destruct (signature_ok png) eqn:E; [|reflexivity].
    apply signature_ok_prefix in E. destruct E as [rest ->].
    exfalso. apply (Hno rest). reflexivity. }
  unfold decode, Index.decode. rewrite Hsig. auto.
Qed.

Lemma signature_checked_witness :
  decode sample_inflate [137; 80; 78; 71; 13; 10; 26] 5
  = Some (mkRun (Rejected NotPng) [])
  /\ Index.decode sample_inflate [137; 80; 78; 71; 13; 10; 26] 5
     = Some (mkRun (Rejected NotPng) []).
Proof.
  apply (signature_checked sample_inflate [137; 80; 78; 71; 13; 10; 26] 5).
  intros rest H. apply (f_equal (@List.length Z)) in H.
  rewrite length_app in H. simpl in H. lia.
Defined.

(** ** [decode]: what the header chunk refuses *)

(** A header chunk whose interlace byte is 1 is refused on the spot by
    the later revision, whatever its colour type and depth and whatever
    follows it; the earlier revision looks at the colour type first. *)
Theorem interlaced_header_rejected (inflate : list Z -> option (list Z))
    (png : list Z) (fuel : nat) :
  signature_ok png = true ->
  tag_of png 8 = IHDR ->
  byte_at png 28 = Int 1 ->
  decode inflate png (S fuel) = Some (mkRun (Rejected Interlaced) [IHDR])
  /\ (byte_at png 25 = Int 6 ->
      Index.decode inflate png (S fuel) = Some (mkRun (Rejected Interlaced) [IHDR]))
  /\ (loose_eq (byte_at png 25) 6 = false ->
      Index.decode inflate png (S fuel)
      = Some (mkRun (Rejected (UnsupportedColorType Undefined)) [IHDR])).
Proof.
  intros Hsig Htag Hil.
  assert (Hin : (8 <? len png) = true).
  { apply Z.ltb_lt. pose proof (byte_at_in_range png 28 1 Hil). lia. }
  split; [|split].
  - unfold decode. rewrite Hsig.
    unfold start. cbn [walk i]. rewrite Hin.
    unfold chunk. cbn [i image base pixels rejected visited].
    rewrite Htag. change (8 + 20) with 28. rewrite Hil. reflexivity.
  - intros Hcol. unfold Index.decode. rewrite Hsig.
    unfold start. cbn [Index.walk i]. rewrite Hin.
    unfold Index.chunk. cbn [i image base pixels rejected visited].
    rewrite Htag. change (8 + 20) with 28. change (8 + 17) with 25.
    cbn [color]. rewrite Hil, Hcol. reflexivity.
  - intros Hcol. unfold Index.decode. rewrite Hsig.
    unfold start. cbn [Index.walk i]. rewrite Hin.
    unfold Index.chunk. cbn [i image base pixels rejected visited].
    rewrite Htag. change (8 + 17) with 25.
    cbn [color]. rewrite Hcol. reflexivity.
Qed.

(** A header chunk of a colour type other than 6, 2 and 3 (greyscale,
    or no byte there at all) is refused on the spot by the later
    revision with that colour type in the error; the earlier revision
    refuses every colour type but 6 there. *)
Theorem unsupported_colour_rejected (inflate : list Z -> option (list Z))
    (png : list Z) (fuel : nat) :
  signature_ok png = true ->
  tag_of png 8 = IHDR ->
  8 < len png ->
  loose_eq (byte_at png 25) 6 = false ->
  Index.decode inflate png (S fuel)
  = Some (mkRun (Rejected (UnsupportedColorType Undefined)) [IHDR])
  /\ (loose_eq (byte_at png 28) 1 = false ->
      loose_eq (byte_at png 25) 2 = false ->
      loose_eq (byte_at png 25) 3 = false ->
      decode inflate png (S fuel)
      = Some (mkRun (Rejected (UnsupportedColorType (byte_at png 25))) [IHDR])).
Proof.
  intros Hsig Htag Hlen H6.
  assert (Hin : (8 <? len png) = true) by (apply Z.ltb_lt; assumption).
  split.
  - unfold Index.decode. rewrite Hsig.
    unfold start. cbn [Index.walk i]. rewrite Hin.
    unfold Index.chunk. cbn [i image base pixels rejected visited].
    rewrite Htag. change (8 + 17) with 25.
    cbn [color]. rewrite H6. reflexivity.
  - intros Hil H2 H3. unfold decode. rewrite Hsig.
    unfold start. cbn [walk i]. rewrite Hin.
    unfold chunk. cbn [i image base pixels rejected visited].
    rewrite Htag. change (8 + 20) with 28. change (8 + 17) with 25.
    cbn [color]. rewrite Hil, H6, H2, H3. reflexivity.
Qed.


Lemma interlaced_header_rejected_witness :
  decode sample_inflate png_interlaced 1
  = Some (mkRun (Rejected Interlaced) [IHDR]).
Proof.
  exact (proj1 (interlaced_header_rejected sample_inflate png_interlaced 0
                  eq_refl eq_refl eq_refl)).
Defined.

Lemma unsupported_colour_rejected_witness :
  Index.decode sample_inflate png_grey 1
  = Some (mkRun (Rejected (UnsupportedColorType Undefined)) [IHDR])
  /\ decode sample_inflate png_grey 1
     = Some (mkRun (Rejected (UnsupportedColorType (byte_at png_grey 25))) [IHDR]).
Proof.
  assert (Hlen : 8 < len png_grey) by (vm_compute; reflexivity).
  pose proof (unsupported_colour_rejected sample_inflate png_grey 0
                eq_refl eq_refl Hlen eq_refl) as [H1 H2].
  split; [exact H1 | exact (H2 eq_refl eq_refl eq_refl)].
Defined.

(** ** [decode]: the walk over the chunks of a file *)

Lemma laid_out_app (png : list Z) (cs1 cs2 : list (tag * list Z)) :
  forall i j,
    laid_out png i (cs1 ++ cs2) j ->
    exists m, laid_out png i cs1 m /\ laid_out png m cs2 j.
Proof.
  induction cs1 as [|[t payload] rest IH]; intros i j H.
  - exists i. split; [constructor | exact H].
  - inversion H as [|? ? ? ? ? Hi Hfit Hlen Htag Hsub Hrest]; subst.
    destruct (IH _ _ Hrest) as (m & H1 & H2).
    exists m. split; [|exact H2].
    constructor; assumption || reflexivity.
Qed.

Lemma len_nonneg {A} (l : list A) : 0 <= len l.
Proof. unfold len. lia. Qed.

(** A turn at a palette, image-data or unrecognised chunk in the later
    revision. *)
Lemma data_turn (inflate : list Z -> option (list Z)) (png : list Z)
    (w : walker) (t : tag) (payload : list Z) :
  tag_of png (i w) = t ->
  data_chunk (t, payload) ->
  read32 png (i w) = len payload ->
  subarray png (i w + 8) (i w + 8 + len payload) = payload ->
  chunk inflate png w =
  Next (mkWalker (i w + (len payload + 12)) (image w)
          (base w ++ idat_payloads [(t, payload)])
          (pixels w) (rejected w) (visited w ++ [t])).
Proof.
  intros Htag Hdata Hlen Hsub. unfold chunk, idat_payloads.
  cbn [flat_map fst snd]. rewrite Hlen, Htag.
  destruct Hdata as [E | [E | E]]; cbn [fst] in E; rewrite E;
    cbn [i image base pixels rejected visited];
    rewrite ?Hsub, ?app_nil_r; reflexivity.
Qed.

Lemma idat_payloads_cons (c : tag * list Z) (cs : list (tag * list Z)) :
  idat_payloads (c :: cs) = idat_payloads [c] ++ idat_payloads cs.
Proof. unfold idat_payloads. cbn [flat_map]. now rewrite app_nil_r. Qed.

Lemma walk_data_chunks (inflate : list Z -> option (list Z)) (png : list Z)
    (cs : list (tag * list Z)) :
  forall (i0 j : Z),
    laid_out png i0 cs j ->
    Forall data_chunk cs ->
    forall (w : walker) (fuel : nat),
      i w = i0 ->
      walk inflate png (List.length cs + fuel) w =
      walk inflate png fuel
        (mkWalker j (image w) (base w ++ idat_payloads cs) (pixels w)
           (rejected w) (visited w ++ map fst cs)).
Proof.
  induction cs as [|[t payload] rest IH]; intros i0 j Hlaid Hdata w fuel Hi.
  - inversion Hlaid; subst. cbn [List.length Nat.add map idat_payloads flat_map].
    rewrite !app_nil_r. destruct w; reflexivity.
  - inversion Hlaid as [|? ? ? ? ? Hpos Hfit Hlen Htag Hsub Hrest]; subst.
    inversion Hdata as [|? ? Hd Hdrest]; subst.
    cbn [List.length Nat.add walk].
    pose proof (len_nonneg payload) as Hnn.
    replace (i w <? len png) with true by (symmetry; apply Z.ltb_lt; lia).
    rewrite (data_turn inflate png w _ payload eq_refl Hd Hlen Hsub).
    erewrite (IH _ _ Hrest Hdrest _ fuel); [|reflexivity].
    cbn [i image base pixels rejected visited map fst].
    rewrite (idat_payloads_cons (tag_of png (i w), payload) rest).
    now rewrite <- !app_assoc.
Qed.

(** Between the header and the end chunk the later revision gathers the
    payloads of the image-data chunks in file order and lets palette and
    unrecognised chunks pass: after [cs] the cursor stands behind them,
    [base] has grown by exactly the image-data payloads, and the record,
    the pixels and the promise are as they were. *)
Theorem data_chunks_gathered (inflate : list Z -> option (list Z))
    (png : list Z) (cs : list (tag * list Z)) (j : Z) (w : walker)
    (fuel : nat) :
  laid_out png (i w) cs j ->
  Forall data_chunk cs ->
  walk inflate png (List.length cs + fuel) w =
  walk inflate png fuel
    (mkWalker j (image w) (base w ++ idat_payloads cs) (pixels w)
       (rejected w) (visited w ++ map fst cs)).
Proof.
  intros Hlaid Hdata.
  apply (walk_data_chunks inflate png cs (i w) j Hlaid Hdata w fuel eq_refl).
Qed.


Lemma subarray_lookup (arr l : list Z) (b e k : Z) :
  subarray arr b e = l -> 0 <= b -> 0 <= e ->
  0 <= k < len l ->
  lookup arr (b + k) = lookup l k.
Proof.
  intros Hsub Hb He Hk. rewrite <- Hsub in *.
  pose proof (subarray_length arr b e Hb He).
  symmetry. apply lookup_subarray; lia.
Qed.

Lemma read32_window (arr arr' : list Z) (p q : Z) :
  (forall k, 0 <= k < 4 -> lookup arr (p + k) = lookup arr' (q + k)) ->
  read32 arr p = read32 arr' q.
Proof.
  intros H. unfold read32, byte_at.
  pose proof (H 0) as H0. rewrite !Z.add_0_r in H0.
  rewrite H0, (H 1), (H 2), (H 3) by lia. reflexivity.
Qed.

(** What the turn at a header chunk reads is the chunk's payload. *)
Lemma header_fields (png hdr : list Z) (i0 : Z) (rest : list (tag * list Z))
    (j : Z) :
  laid_out png i0 ((IHDR, hdr) :: rest) j ->
  len hdr = 13 ->
  tag_of png i0 = IHDR
  /\ read32 png i0 = 13
  /\ i0 < len png
  /\ read32 png (i0 + 8) = read32 hdr 0
  /\ read32 png (i0 + 12) = read32 hdr 4
  /\ byte_at png (i0 + 16) = byte_at hdr 8
  /\ byte_at png (i0 + 17) = byte_at hdr 9
  /\ byte_at png (i0 + 20) = byte_at hdr 12
  /\ laid_out png (i0 + (13 + 12)) rest j.
Proof.
  intros Hlaid Hlen.
  inversion Hlaid as [|? ? ? ? ? Hpos Hfit Hl Htag Hsub Hrest]; subst.
  rewrite Hlen in *.
  assert (Hat : forall k, 0 <= k < 13 ->
                lookup png (i0 + 8 + k) = lookup hdr k).
  { intros k Hk. apply (subarray_lookup png hdr (i0 + 8) (i0 + 8 + 13));
      [assumption | lia | lia | lia]. }
  repeat split; try assumption; try lia.
  - apply read32_window. intros k Hk.
    rewrite Z.add_0_l. apply Hat. lia.
  - apply read32_window. intros k Hk.
    replace (i0 + 12 + k) with (i0 + 8 + (4 + k)) by lia. apply Hat. lia.
  - unfold byte_at.
    replace (i0 + 16) with (i0 + 8 + 8) by lia. now rewrite Hat by lia.
  - unfold byte_at.
    replace (i0 + 17) with (i0 + 8 + 9) by lia. now rewrite Hat by lia.
  - unfold byte_at.
    replace (i0 + 20) with (i0 + 8 + 12) by lia. now rewrite Hat by lia.
Qed.

Lemma not_interlaced (hdr : list Z) :
  lookup hdr 12 <> Some 1 -> loose_eq (byte_at hdr 12) 1 = false.
Proof.
  intros H. unfold byte_at, loose_eq.
  destruct (lookup hdr 12) as [b|]; [|reflexivity].
  destruct (b =? 1) eqn:E; [|reflexivity].
  reflect_order. subst. congruence.
Qed.

(** The later revision past the header chunk and the chunks [cs] that
    follow it. *)
Lemma after_header_and_data (inflate : list Z -> option (list Z))
    (png hdr : list Z) (cs : list (tag * list Z)) (m d col ch : Z)
    (fuel : nat) :
  laid_out png 8 ((IHDR, hdr) :: cs) m ->
  len hdr = 13 ->
  lookup hdr 8 = Some d ->
  lookup hdr 9 = Some col ->
  (col = 6 /\ ch = 4) \/ (col = 2 /\ ch = 3) ->
  lookup hdr 12 <> Some 1 ->
  Forall data_chunk cs ->
  walk inflate png (S (List.length cs + fuel)) start =
  walk inflate png fuel
    (mkWalker m
       (mkImage (Some (read32 hdr 0)) (Some (read32 hdr 4)) (Int d) (Int col)
          (Some ch) [])
       (idat_payloads cs) [] None (IHDR :: map fst cs)).
Proof.
  intros Hlaid Hlen Hd Hcol Hch Hil Hdata.
  destruct (header_fields png hdr 8 cs m Hlaid Hlen)
    as (Htag & Hl & Hin & Hw & Hh & Hdepth & Hcolor & Hinter & Hrest).
  unfold start. cbn [walk i].
  replace (8 <? len png) with true by (symmetry; apply Z.ltb_lt; assumption).
  unfold chunk. cbn [i image base pixels rejected visited].
  rewrite Htag, Hl, Hw, Hh, Hdepth, Hcolor, Hinter.
  rewrite (not_interlaced hdr Hil).
  unfold byte_at. rewrite Hd, Hcol. cbn [color depth width height].
  assert (Hnext : forall c,
    walk inflate png (List.length cs + fuel)
      (mkWalker (8 + (13 + 12))
         (mkImage (Some (read32 hdr 0)) (Some (read32 hdr 4)) (Int d) (Int col)
            c [])
         [] [] None ([] ++ [IHDR]))
    = walk inflate png fuel
        (mkWalker m
           (mkImage (Some (read32 hdr 0)) (Some (read32 hdr 4)) (Int d) (Int col)
              c [])
           (idat_payloads cs) [] None (IHDR :: map fst cs))).
  { intros c.
    erewrite (walk_data_chunks inflate png cs _ m Hrest Hdata);
      [reflexivity | reflexivity]. }
  destruct Hch as [[-> ->] | [-> ->]]; cbn [loose_eq Z.eqb Pos.eqb];
    apply Hnext.
Qed.

(** The turn at the end chunk in the later revision. *)
Lemma end_turn (inflate : list Z -> option (list Z)) (png : list Z)
    (w : walker) (stream : list Z) (bytes : list value)
    (failure : option error) :
  tag_of png (i w) = IEND ->
  inflate (base w) = Some stream ->
  decodeIDAT stream (stride8 (image w)) (channels (image w)) (height (image w))
  = (bytes, failure) ->
  chunk inflate png w =
  Next (mkWalker (i w + (read32 png (i w) + 12)) (image w) (base w) bytes
          (match failure with
           | Some e => match rejected w with Some e0 => Some e0 | None => Some e end
           | None => rejected w
           end)
          (visited w ++ [IEND])).
Proof.
  intros Htag Hinf Hdec. unfold chunk. rewrite Htag, Hinf, Hdec.
  destruct failure; reflexivity.
Qed.

(** The run of the later revision over a whole file. *)
Lemma whole_file_run (inflate : list Z -> option (list Z))
    (png hdr endp : list Z) (cs : list (tag * list Z)) (d col ch : Z)
    (stream : list Z) (bytes : list value) (failure : option error) :
  signature_ok png = true ->
  laid_out png 8 ((IHDR, hdr) :: cs ++ [(IEND, endp)]) (len png) ->
  len hdr = 13 ->
  lookup hdr 8 = Some d ->
  lookup hdr 9 = Some col ->
  (col = 6 /\ ch = 4) \/ (col = 2 /\ ch = 3) ->
  lookup hdr 12 <> Some 1 ->
  Forall data_chunk cs ->
  inflate (idat_payloads cs) = Some stream ->
  decodeIDAT stream (Some (read32 hdr 0 * d * ch)) (Some ch)
    (Some (read32 hdr 4)) = (bytes, failure) ->
  exists tuples,
    group bytes (Some ch) = Some tuples
    /\ decode inflate png (List.length cs + 2) =
       Some (mkRun
               (match failure with
                | Some e => Rejected e
                | None =>
                    Resolved (mkImage (Some (read32 hdr 0)) (Some (read32 hdr 4))
                                (Int d) (Int col) (Some ch) tuples)
                end)
               (IHDR :: map fst cs ++ [IEND])).
Proof.
  intros Hsig Hlaid Hlen Hd Hcol Hch Hil Hdata Hinf Hdec.
  change ((IHDR, hdr) :: cs ++ [(IEND, endp)])
    with (((IHDR, hdr) :: cs) ++ [(IEND, endp)]) in Hlaid.
  destruct (laid_out_app png _ _ _ _ Hlaid) as (m & Hfront & Hend).
  inversion Hend as [|? ? ? ? ? Hpos Hfit Hl Htag Hsub Hlast]; subst.
  inversion Hlast; subst.
  destruct (group_total bytes (Some ch)) as [tuples Hg].
  { destruct Hch as [[_ ->] | [_ ->]]; discriminate. }
  exists tuples. split; [assumption|].
  unfold decode. rewrite Hsig.
  replace (List.length cs + 2)%nat with (S (List.length cs + 1)) by lia.
  rewrite (after_header_and_data inflate png hdr cs m d col ch 1
             Hfront Hlen Hd Hcol Hch Hil Hdata).
  pose proof (len_nonneg endp) as Hnn.
  cbn [walk i].
  replace (m <? len png) with true by (symmetry; apply Z.ltb_lt; lia).
  erewrite end_turn;
    [ | exact Htag | exact Hinf | cbn [image stride8 width depth channels height];
                                  exact Hdec ].
  cbn [i rejected visited image base].
  replace (m + (read32 png m + 12) <? len png) with false
    by (symmetry; apply Z.ltb_ge; lia).
  unfold finish. cbn [pixels image channels]. rewrite Hg.
  unfold settle. cbn [rejected visited image width height depth color channels].
  change (IHDR :: map fst cs) with ([IHDR] ++ map fst cs).
  rewrite <- app_assoc. cbn [app].
  destruct failure; reflexivity.
Qed.

(** A file of a header chunk, chunks that are neither header nor end,
    and an end chunk, decoded by the later revision: the image-data
    payloads, joined in file order, are inflated once; the stream is
    reconstructed with the stride [width*depth*channels/8]; the promise
    is rejected if [decodeIDAT] rejected, and otherwise resolved with
    the header's fields and the reconstructed values in tuples. *)
Theorem decode_whole_file (inflate : list Z -> option (list Z))
    (png hdr endp : list Z) (cs : list (tag * list Z)) (d col ch : Z)
    (stream : list Z) (bytes : list value) (failure : option error) :
  signature_ok png = true ->
  laid_out png 8 ((IHDR, hdr) :: cs ++ [(IEND, endp)]) (len png) ->
  len hdr = 13 ->
  lookup hdr 8 = Some d ->
  lookup hdr 9 = Some col ->
  (col = 6 /\ ch = 4) \/ (col = 2 /\ ch = 3) ->
  lookup hdr 12 <> Some 1 ->
  Forall data_chunk cs ->
  inflate (idat_payloads cs) = Some stream ->
  decodeIDAT stream (Some (read32 hdr 0 * d * ch)) (Some ch)
    (Some (read32 hdr 4)) = (bytes, failure) ->
  exists tuples,
    group bytes (Some ch) = Some tuples
    /\ decode inflate png (List.length cs + 2) =
       Some (mkRun
               (match failure with
                | Some e => Rejected e
                | None =>
                    Resolved (mkImage (Some (read32 hdr 0)) (Some (read32 hdr 4))
                                (Int d) (Int col) (Some ch) tuples)
                end)
               (IHDR :: map fst cs ++ [IEND])).
Proof.
  apply whole_file_run.
Qed.


Ltac lay_out :=
  repeat (apply laid_cons;
          [ vm_compute; discriminate
          | vm_compute; discriminate
          | vm_compute; reflexivity
          | vm_compute; reflexivity
          | vm_compute; reflexivity
          | ]);
  match goal with
  | |- laid_out ?p ?a [] ?b =>
      let v := eval vm_compute in a in
      change (laid_out p v [] v); apply laid_nil
  end.

Lemma png_split_laid_out :
  laid_out png_split 8
    ((IHDR, [0; 0; 0; 1; 0; 0; 0; 1; 8; 6; 0; 0; 0])
     :: [(Other, [0; 0; 177; 143]);
         (IDAT, [120; 1; 1; 5; 0; 250; 255]);
         (IDAT, [0; 10; 20; 30; 255; 1; 164; 1; 60])]
     ++ [(IEND, [])])
    (len png_split).
Proof. cbn [app]. lay_out. Qed.

Lemma decode_whole_file_witness :
  exists tuples,
    group [Int 10; Int 20; Int 30; Int 255] (Some 4) = Some tuples
    /\ decode more_inflate png_split (3 + 2) =
       Some (mkRun
               (Resolved (mkImage (Some (read32 [0; 0; 0; 1; 0; 0; 0; 1; 8; 6; 0; 0; 0] 0))
                            (Some (read32 [0; 0; 0; 1; 0; 0; 0; 1; 8; 6; 0; 0; 0] 4))
                            (Int 8) (Int 6) (Some 4) tuples))
               (IHDR :: map fst [(Other, [0; 0; 177; 143]);
                                 (IDAT, [120; 1; 1; 5; 0; 250; 255]);
                                 (IDAT, [0; 10; 20; 30; 255; 1; 164; 1; 60])]
                ++ [IEND])).
Proof.
  apply (decode_whole_file more_inflate png_split
           [0; 0; 0; 1; 0; 0; 0; 1; 8; 6; 0; 0; 0] []
           [(Other, [0; 0; 177; 143]);
            (IDAT, [120; 1; 1; 5; 0; 250; 255]);
            (IDAT, [0; 10; 20; 30; 255; 1; 164; 1; 60])]
           8 6 4 [0; 10; 20; 30; 255] [Int 10; Int 20; Int 30; Int 255] None).
  - reflexivity.
  - exact png_split_laid_out.
  - reflexivity.
  - reflexivity.
  - reflexivity.
  - left. split; reflexivity.
  - vm_compute. discriminate.
  - repeat (apply Forall_cons; [unfold data_chunk; cbn [fst]; auto|]).
    apply Forall_nil.
  - reflexivity.
  - vm_compute. reflexivity.
Defined.

(** ** [decode]: a stream [pako.inflate] refuses *)

(** When [pako.inflate] throws on the gathered image data nothing
    settles the promise: the later revision raises no error and
    resolves nothing, the end chunk being the last one dispatched. *)
Theorem inflate_failure_is_silent (inflate : list Z -> option (list Z))
    (png hdr endp : list Z) (cs : list (tag * list Z)) (d col ch : Z) :
  signature_ok png = true ->
  laid_out png 8 ((IHDR, hdr) :: cs ++ [(IEND, endp)]) (len png) ->
  len hdr = 13 ->
  lookup hdr 8 = Some d ->
  lookup hdr 9 = Some col ->
  (col = 6 /\ ch = 4) \/ (col = 2 /\ ch = 3) ->
  lookup hdr 12 <> Some 1 ->
  Forall data_chunk cs ->
  inflate (idat_payloads cs) = None ->
  decode inflate png (List.length cs + 2)
  = Some (mkRun Pending (IHDR :: map fst cs ++ [IEND])).
Proof.
  intros Hsig Hlaid Hlen Hd Hcol Hch Hil Hdata Hinf.
  change ((IHDR, hdr) :: cs ++ [(IEND, endp)])
    with (((IHDR, hdr) :: cs) ++ [(IEND, endp)]) in Hlaid.
  destruct (laid_out_app png _ _ _ _ Hlaid) as (m & Hfront & Hend).
  inversion Hend as [|? ? ? ? ? Hpos Hfit Hl Htag Hsub Hlast]; subst.
  unfold decode. rewrite Hsig.
  replace (List.length cs + 2)%nat with (S (List.length cs + 1)) by lia.
  rewrite (after_header_and_data inflate png hdr cs m d col ch 1
             Hfront Hlen Hd Hcol Hch Hil Hdata).
  pose proof (len_nonneg endp) as Hnn.
  cbn [walk i].
  replace (m <? len png) with true by (symmetry; apply Z.ltb_lt; lia).
  unfold chunk. cbn [i image base pixels rejected visited].
  rewrite Htag, Hinf.
  unfold finish, settle. cbn [rejected visited].
  change (IHDR :: map fst cs) with ([IHDR] ++ map fst cs).
  rewrite <- app_assoc. reflexivity.
Qed.

Lemma png_bad_data_laid_out :
  laid_out png_bad_data 8
    ((IHDR, [0; 0; 0; 1; 0; 0; 0; 1; 8; 6; 0; 0; 0])
     :: [(IDAT, [1; 2; 3])] ++ [(IEND, [])])
    (len png_bad_data).
Proof. cbn [app]. lay_out. Qed.

Lemma inflate_failure_is_silent_witness :
  decode more_inflate png_bad_data (1 + 2)
  = Some (mkRun Pending (IHDR :: map fst [(IDAT, [1; 2; 3])] ++ [IEND])).
Proof.
  apply (inflate_failure_is_silent more_inflate png_bad_data
           [0; 0; 0; 1; 0; 0; 0; 1; 8; 6; 0; 0; 0] []
           [(IDAT, [1; 2; 3])] 8 6 4).
  - reflexivity.
  - exact png_bad_data_laid_out.
  - reflexivity.
  - reflexivity.
  - reflexivity.
  - left. split; reflexivity.
  - vm_compute. discriminate.
  - repeat (apply Forall_cons; [unfold data_chunk; cbn [fst]; auto|]).
    apply Forall_nil.
  - reflexivity.
Defined.

(** ** [decode]: a file with no end chunk *)

(** A file that stops after its header chunk and any number of chunks
    that are neither header nor end is no error: the later revision
    resolves with the header's fields and no pixel at all, and never
    calls [pako.inflate], whatever image data it gathered. *)
Theorem missing_end_chunk (inflate : list Z -> option (list Z))
    (png hdr : list Z) (cs : list (tag * list Z)) (d col ch : Z) :
  signature_ok png = true ->
  laid_out png 8 ((IHDR, hdr) :: cs) (len png) ->
  len hdr = 13 ->
  lookup hdr 8 = Some d ->
  lookup hdr 9 = Some col ->
  (col = 6 /\ ch = 4) \/ (col = 2 /\ ch = 3) ->
  lookup hdr 12 <> Some 1 ->
  Forall data_chunk cs ->
  decode inflate png (List.length cs + 1)
  = Some (mkRun
            (Resolved (mkImage (Some (read32 hdr 0)) (Some (read32 hdr 4))
                         (Int d) (Int col) (Some ch) []))
            (IHDR :: map fst cs)).
Proof.
  intros Hsig Hlaid Hlen Hd Hcol Hch Hil Hdata.
  unfold decode. rewrite Hsig.
  replace (List.length cs + 1)%nat with (S (List.length cs + 0)) by lia.
  rewrite (after_header_and_data inflate png hdr cs (len png) d col ch 0
             Hlaid Hlen Hd Hcol Hch Hil Hdata).
  cbn [walk i]. rewrite Z.ltb_irrefl.
  unfold finish. cbn [pixels image channels].
  destruct Hch as [[_ ->] | [_ ->]]; reflexivity.
Qed.

Lemma png_no_end_laid_out :
  laid_out png_no_end 8
    ((IHDR, [0; 0; 0; 1; 0; 0; 0; 1; 8; 6; 0; 0; 0])
     :: [(Other, [0; 0; 177; 143])])
    (len png_no_end).
Proof. lay_out. Qed.

Lemma missing_end_chunk_witness :
  decode sample_inflate png_no_end (1 + 1)
  = Some (mkRun
            (Resolved (mkImage (Some (read32 [0; 0; 0; 1; 0; 0; 0; 1; 8; 6; 0; 0; 0] 0))
                         (Some (read32 [0; 0; 0; 1; 0; 0; 0; 1; 8; 6; 0; 0; 0] 4))
                         (Int 8) (Int 6) (Some 4) []))
            (IHDR :: map fst [(Other, [0; 0; 177; 143])])).
Proof.
  apply (missing_end_chunk sample_inflate png_no_end
           [0; 0; 0; 1; 0; 0; 0; 1; 8; 6; 0; 0; 0]
           [(Other, [0; 0; 177; 143])] 8 6 4).
  - reflexivity.
  - exact png_no_end_laid_out.
  - reflexivity.
  - reflexivity.
  - reflexivity.
  - left. split; reflexivity.
  - vm_compute. discriminate.
  - repeat (apply Forall_cons; [unfold data_chunk; cbn [fst]; auto|]).
    apply Forall_nil.
Defined.

(** ** [decode]: a length field of -12 *)

(** [read32] being signed, a length field of bytes 255,255,255,244 is
    -12 and [i += length+12] leaves the cursor where it is: at a chunk
    that is neither header nor end the loop of the later revision then
    turns for ever, and [decode] on a file that starts so never
    returns. *)
Theorem negative_length_never_ends (inflate : list Z -> option (list Z))
    (png : list Z) (w : walker) :
  i w < len png ->
  read32 png (i w) = -12 ->
  (tag_of png (i w) = PLTE \/ tag_of png (i w) = IDAT
   \/ tag_of png (i w) = Other) ->
  (forall fuel, walk inflate png fuel w = None)
  /\ (signature_ok png = true -> i w = 8 ->
      forall fuel, decode inflate png fuel = None).
Proof.
  intros Hin Hlen Htag.
  assert (Hloop : forall fuel w0,
            i w0 = i w -> walk inflate png fuel w0 = None).
  { induction fuel as [|fuel IH]; intros w0 Hi; cbn [walk]; rewrite Hi.
    - replace (i w <? len png) with true
        by (symmetry; apply Z.ltb_lt; assumption).
      reflexivity.
    - replace (i w <? len png) with true
        by (symmetry; apply Z.ltb_lt; assumption).
      unfold chunk. rewrite Hi, Hlen.
      destruct Htag as [E | [E | E]]; rewrite E; apply IH; cbn [i]; lia. }
  split.
  - intros fuel. apply Hloop. reflexivity.
  - intros Hsig Hi fuel. unfold decode. rewrite Hsig.
    rewrite (Hloop fuel start); [reflexivity|]. rewrite Hi. reflexivity.
Qed.

Lemma negative_length_never_ends_witness :
  (forall fuel, walk sample_inflate png_stuck fuel start = None)
  /\ (signature_ok png_stuck = true -> i start = 8 ->
      forall fuel, decode sample_inflate png_stuck fuel = None).
Proof.
  apply (negative_length_never_ends sample_inflate png_stuck start).
  - vm_compute. reflexivity.
  - reflexivity.
  - right. right. reflexivity.
Defined.


Lemma png_split_data_laid_out :
  laid_out png_split 33
    [(Other, [0; 0; 177; 143]);
     (IDAT, [120; 1; 1; 5; 0; 250; 255]);
     (IDAT, [0; 10; 20; 30; 255; 1; 164; 1; 60])]
    89.
Proof. lay_out. Qed.

Lemma data_chunks_gathered_witness :
  walk more_inflate png_split (3 + 0)
    (mkWalker 33 empty_image [] [] None [IHDR]) =
  walk more_inflate png_split 0
    (mkWalker 89 empty_image
       ([] ++ idat_payloads [(Other, [0; 0; 177; 143]);
                             (IDAT, [120; 1; 1; 5; 0; 250; 255]);
                             (IDAT, [0; 10; 20; 30; 255; 1; 164; 1; 60])])
       [] None
       ([IHDR] ++ map fst [(Other, [0; 0; 177; 143]);
                           (IDAT, [120; 1; 1; 5; 0; 250; 255]);
                           (IDAT, [0; 10; 20; 30; 255; 1; 164; 1; 60])])).
Proof.
  apply (data_chunks_gathered more_inflate png_split
           [(Other, [0; 0; 177; 143]);
            (IDAT, [120; 1; 1; 5; 0; 250; 255]);
            (IDAT, [0; 10; 20; 30; 255; 1; 164; 1; 60])]
           89 (mkWalker 33 empty_image [] [] None [IHDR]) 0).
  - exact png_split_data_laid_out.
  - repeat (apply Forall_cons; [unfold data_chunk; cbn [fst]; auto|]).
    apply Forall_nil.
Defined.

(** ** [decode] of the earlier revision over the chunks of a file *)

Lemma palette_rejection_cons (r : option error) (c : tag * list Z)
    (cs : list (tag * list Z)) :
  palette_rejection (palette_rejection r [c]) cs = palette_rejection r (c :: cs).
Proof.
  unfold palette_rejection, has_palette. cbn [existsb].
  destruct r as [e|]; [reflexivity|].
  destruct (fst c); cbn [orb]; try reflexivity.
Qed.

(** A turn of the earlier revision at a palette, image-data or
    unrecognised chunk. *)
Lemma index_data_turn (inflate : list Z -> option (list Z)) (png : list Z)
    (w : walker) (t : tag) (payload : list Z) :
  tag_of png (i w) = t ->
  data_chunk (t, payload) ->
  read32 png (i w) = len payload ->
  subarray png (i w + 8) (i w + 8 + len payload) = payload ->
  Index.chunk inflate png w =
  Next (mkWalker (i w + (len payload + 12)) (image w)
          (base w ++ idat_payloads [(t, payload)])
          (pixels w) (palette_rejection (rejected w) [(t, payload)])
          (visited w ++ [t])).
Proof.
  intros Htag Hdata Hlen Hsub.
  unfold Index.chunk, idat_payloads, palette_rejection, has_palette, reject.
  cbn [flat_map fst snd existsb]. rewrite Hlen, Htag.
  destruct Hdata as [E | [E | E]]; cbn [fst] in E; rewrite E;
    cbn [i image base pixels rejected visited orb];
    rewrite ?Hsub, ?app_nil_r; destruct w as [? ? ? ? [e|] ?]; reflexivity.
Qed.

Lemma index_walk_data_chunks (inflate : list Z -> option (list Z))
    (png : list Z) (cs : list (tag * list Z)) :
  forall (i0 j : Z),
    laid_out png i0 cs j ->
    Forall data_chunk cs ->
    forall (w : walker) (fuel : nat),
      i w = i0 ->
      Index.walk inflate png (List.length cs + fuel) w =
      Index.walk inflate png fuel
        (mkWalker j (image w) (base w ++ idat_payloads cs) (pixels w)
           (palette_rejection (rejected w) cs) (visited w ++ map fst cs)).
Proof.
  induction cs as [|[t payload] rest IH]; intros i0 j Hlaid Hdata w fuel Hi.
  - inversion Hlaid; subst.
    cbn [List.length Nat.add map idat_payloads flat_map].
    rewrite !app_nil_r. destruct w as [? ? ? ? [e|] ?]; reflexivity.
  - inversion Hlaid as [|? ? ? ? ? Hpos Hfit Hlen Htag Hsub Hrest]; subst.
    inversion Hdata as [|? ? Hd Hdrest]; subst.
    cbn [List.length Nat.add Index.walk].
    pose proof (len_nonneg payload) as Hnn.
    replace (i w <? len png) with true by (symmetry; apply Z.ltb_lt; lia).
    rewrite (index_data_turn inflate png w _ payload eq_refl Hd Hlen Hsub).
    erewrite (IH _ _ Hrest Hdrest _ fuel); [|reflexivity].
    cbn [i image base pixels rejected visited map fst].
    rewrite (idat_payloads_cons (tag_of png (i w), payload) rest).
    rewrite palette_rejection_cons.
    now rewrite <- !app_assoc.
Qed.

(** A file of a header chunk of colour type 6, chunks that are neither
    header nor end, and an end chunk, decoded by the earlier revision.
    The walk always reaches the end chunk and inflates the joined
    image-data payloads once.  If a palette chunk is among the chunks
    the promise is rejected with the palette string, though the image
    is of colour type 6 and was reconstructed; otherwise it stays
    pending when the reconstruction meets an unsupported selector (the
    [reject] it calls is not in scope), and resolves with the header's
    fields and the values in complete tuples of four when it does not. *)
Theorem index_decode_whole_file (inflate : list Z -> option (list Z))
    (png hdr endp : list Z) (cs : list (tag * list Z)) (d : Z)
    (stream : list Z) :
  signature_ok png = true ->
  laid_out png 8 ((IHDR, hdr) :: cs ++ [(IEND, endp)]) (len png) ->
  len hdr = 13 ->
  lookup hdr 8 = Some d ->
  lookup hdr 9 = Some 6 ->
  lookup hdr 12 <> Some 1 ->
  Forall data_chunk cs ->
  inflate (idat_payloads cs) = Some stream ->
  Index.decode inflate png (List.length cs + 2) =
  Some (mkRun
          (if has_palette cs then Rejected Palette
           else match Index.decodeIDAT stream (Some (read32 hdr 0 * d * 4))
                        (Some (read32 hdr 4)) with
                | None => Pending
                | Some bytes =>
                    Resolved (mkImage (Some (read32 hdr 0)) (Some (read32 hdr 4))
                                (Int d) (Int 6) None (Index.group bytes))
                end)
          (IHDR :: map fst cs ++ [IEND])).
Proof.
  intros Hsig Hlaid Hlen Hd Hcol Hil Hdata Hinf.
  change ((IHDR, hdr) :: cs ++ [(IEND, endp)])
    with (((IHDR, hdr) :: cs) ++ [(IEND, endp)]) in Hlaid.
  destruct (laid_out_app png _ _ _ _ Hlaid) as (m & Hfront & Hend).
  inversion Hend as [|? ? ? ? ? Hpos Hfit Hl Htag Hsub Hlast]; subst.
  inversion Hlast; subst.
  destruct (header_fields png hdr 8 cs m Hfront Hlen)
    as (Hhtag & Hhl & Hin & Hw & Hh & Hdepth & Hcolor & Hinter & Hrest).
  pose proof (len_nonneg endp) as Hnn.
  unfold Index.decode. rewrite Hsig.
  replace (List.length cs + 2)%nat with (S (List.length cs + 1)) by lia.
  unfold start. cbn [Index.walk i].
  replace (8 <? len png) with true by (symmetry; apply Z.ltb_lt; assumption).
  unfold Index.chunk at 1. cbn [i image base pixels rejected visited].
  rewrite Hhtag, Hhl, Hw, Hh, Hdepth, Hcolor, Hinter.
  rewrite (not_interlaced hdr Hil).
  unfold byte_at. rewrite Hd, Hcol. cbn [color loose_eq Z.eqb Pos.eqb negb].
  erewrite (index_walk_data_chunks inflate png cs _ m Hrest Hdata);
    [|reflexivity].
  cbn [i image base pixels rejected visited app Index.walk].
  replace (m <? len png) with true by (symmetry; apply Z.ltb_lt; lia).
  unfold Index.chunk. cbn [i image base pixels rejected visited].
  rewrite Htag, Hinf.
  unfold Index.stride8. cbn [width depth height].
  unfold palette_rejection.
  destruct (Index.decodeIDAT stream (Some (read32 hdr 0 * d * 4))
              (Some (read32 hdr 4))) as [bytes|].
  - cbn [i]. rewrite Hl.
    replace (m + (len endp + 12) <? len png) with false
      by (symmetry; apply Z.ltb_ge; lia).
    unfold Index.finish, settle.
    cbn [rejected visited image pixels width height depth color].
    change (IHDR :: map fst cs) with ([IHDR] ++ map fst cs).
    rewrite <- app_assoc. cbn [app].
    destruct (has_palette cs); reflexivity.
  - unfold Index.finish, settle. cbn [rejected visited].
    change (IHDR :: map fst cs) with ([IHDR] ++ map fst cs).
    rewrite <- app_assoc. cbn [app].
    destruct (has_palette cs); reflexivity.
Qed.

Lemma png_rgba_with_palette_laid_out :
  laid_out png_rgba_with_palette 8
    ((IHDR, [0; 0; 0; 1; 0; 0; 0; 1; 8; 6; 0; 0; 0])
     :: [(PLTE, [255; 0; 0]); (IDAT, zlib_rgba)] ++ [(IEND, [])])
    (len png_rgba_with_palette).
Proof. cbn [app]. lay_out. Qed.

Lemma index_decode_whole_file_witness :
  Index.decode more_inflate png_rgba_with_palette (2 + 2) =
  Some (mkRun
          (if has_palette [(PLTE, [255; 0; 0]); (IDAT, zlib_rgba)]
           then Rejected Palette
           else match Index.decodeIDAT [0; 10; 20; 30; 255]
                        (Some (read32 [0; 0; 0; 1; 0; 0; 0; 1; 8; 6; 0; 0; 0] 0
                               * 8 * 4))
                        (Some (read32 [0; 0; 0; 1; 0; 0; 0; 1; 8; 6; 0; 0; 0] 4))
                with
                | None => Pending
                | Some bytes =>
                    Resolved (mkImage
                                (Some (read32 [0; 0; 0; 1; 0; 0; 0; 1; 8; 6; 0; 0; 0] 0))
                                (Some (read32 [0; 0; 0; 1; 0; 0; 0; 1; 8; 6; 0; 0; 0] 4))
                                (Int 8) (Int 6) None (Index.group bytes))
                end)
          (IHDR :: map fst [(PLTE, [255; 0; 0]); (IDAT, zlib_rgba)] ++ [IEND])).
Proof.
  apply (index_decode_whole_file more_inflate png_rgba_with_palette
           [0; 0; 0; 1; 0; 0; 0; 1; 8; 6; 0; 0; 0] []
           [(PLTE, [255; 0; 0]); (IDAT, zlib_rgba)] 8 [0; 10; 20; 30; 255]).
  - reflexivity.
  - exact png_rgba_with_palette_laid_out.
  - reflexivity.
  - reflexivity.
  - reflexivity.
  - vm_compute. discriminate.
  - repeat (apply Forall_cons; [unfold data_chunk; cbn [fst]; auto|]).
    apply Forall_nil.
  - reflexivity.
Defined.


(** ** The tuples *)

Lemma elem_at_nth (px : list value) (k : nat) :
  elem_at px (Z.of_nat k) = nth k px Undefined.
Proof.
  unfold elem_at, lookup.
  destruct (Z.of_nat k <? 0) eqn:E; [apply Z.ltb_lt in E; lia|].
  rewrite Nat2Z.id.
  destruct (nth_error px k) as [v|] eqn:N.
  - symmetry. apply (nth_error_nth _ _ _ N).
  - symmetry. apply nth_overflow. apply nth_error_None. exact N.
Qed.

Lemma seq_offset (n : nat) :
  forall a, seq a n = map (fun j => (a + j)%nat) (seq 0 n).
Proof.
  induction n as [|n IH]; intros a; [reflexivity|].
  cbn [seq map]. rewrite Nat.add_0_r. f_equal.
  rewrite <- (seq_shift n 0), map_map, (IH (S a)).
  apply map_ext. intros j. lia.
Qed.

(** Reading the slots [0 .. N) of an array: its first [N] values, then
    [undefined] for every slot past its end. *)
Lemma read_slots (px : list value) :
  forall N,
    map (fun k => elem_at px (Z.of_nat k)) (seq 0 N)
    = firstn N px ++ repeat Undefined (N - List.length px).
Proof.
  intros N.
  rewrite (map_ext _ (fun k => nth k px Undefined)) by (apply elem_at_nth).
  revert N. induction px as [|a r IH]; intros N.
  - rewrite firstn_nil. cbn [app List.length]. rewrite Nat.sub_0_r.
    generalize 0%nat as s.
    induction N as [|N IHN]; intros s; [reflexivity|].
    cbn [seq map repeat]. rewrite IHN. destruct s; reflexivity.
  - destruct N as [|N]; [reflexivity|].
    cbn [seq map firstn List.length Nat.sub nth app]. f_equal.
    rewrite <- (seq_shift N 0), map_map. apply IH.
Qed.

(** The tuples [a, a+m) of [c] slots each, one after the other, are the
    slots [a*c, (a+m)*c). *)
Lemma tuples_concat (px : list value) (c : Z) (m : nat) :
  0 < c ->
  forall a,
    List.concat (map (fun n => tuple px c (Z.of_nat n)) (seq a m))
    = map (fun k => elem_at px (Z.of_nat k))
        (seq (a * Z.to_nat c) (m * Z.to_nat c)).
Proof.
  intros Hc. induction m as [|m IH]; intros a; [reflexivity|].
  cbn [seq map List.concat]. rewrite IH.
  replace (S m * Z.to_nat c)%nat with (Z.to_nat c + m * Z.to_nat c)%nat by lia.
  rewrite seq_app, map_app. f_equal.
  - unfold tuple. rewrite (seq_offset (Z.to_nat c) (a * Z.to_nat c)), map_map.
    apply map_ext. intros j. f_equal.
    rewrite Nat2Z.inj_add, Nat2Z.inj_mul, Z2Nat.id by lia. reflexivity.
  - f_equal. f_equal. lia.
Qed.

Lemma firstn_seq_le (a m M : nat) :
  (m <= M)%nat -> firstn m (seq a M) = seq a m.
Proof.
  intros H. replace M with (m + (M - m))%nat by lia.
  rewrite seq_app, firstn_app, length_seq, Nat.sub_diag, firstn_O, app_nil_r.
  apply firstn_all2. rewrite length_seq. lia.
Qed.

Lemma ceiling_pad (L c : Z) :
  0 < c -> ((L + c - 1) / c) * c - L = (- L) mod c.
Proof.
  intros Hc.
  pose proof (Z.div_mod (- L) c ltac:(lia)) as Hdm.
  pose proof (Z.mod_pos_bound (- L) c Hc) as Hb.
  assert (E : - ((- L) / c) = (L + c - 1) / c).
  { apply (Z.div_unique_pos _ _ _ (c - 1 - (- L) mod c)); lia. }
  rewrite <- E. lia.
Qed.

(** The grouping of the later revision loses no value and changes no
    order: there are [ceil(pixels.length/channels)] tuples, each
    [channels] wide, and read one after the other they are [pixels],
    the last tuple being filled up with [undefined] when the pixel size
    does not divide the number of values. *)
Theorem grouping_keeps_the_values (px : list value) (c : Z)
    (tuples : list (list value)) :
  0 < c ->
  group px (Some c) = Some tuples ->
  len tuples = (len px + c - 1) / c
  /\ (forall t, In t tuples -> len t = c)
  /\ List.concat tuples = px ++ repeat Undefined (Z.to_nat ((- len px) mod c)).
Proof.
  intros Hc Hg.
  pose proof (group_widths px c tuples Hg) as Hw.
  unfold group in Hg.
  replace (c =? 0) with false in Hg by (symmetry; apply Z.eqb_neq; lia).
  replace (c <? 0) with false in Hg by (symmetry; apply Z.ltb_ge; lia).
  injection Hg as <-.
  pose proof (len_nonneg px) as Hnn.
  assert (Hq : 0 <= (len px + c - 1) / c) by (apply Z.div_pos; lia).
  pose proof (ceiling_pad (len px) c Hc) as Hpad.
  pose proof (Z.mod_pos_bound (- len px) c Hc) as Hb.
  split; [|split].
  - unfold len at 1. rewrite length_map, length_seq, Z2Nat.id by assumption.
    reflexivity.
  - intros t Ht. unfold len. rewrite (Hw t Ht), Z2Nat.id by lia. reflexivity.
  - rewrite (tuples_concat px c _ Hc 0%nat). cbn [Nat.mul].
    rewrite read_slots.
    assert (Hn : (Z.to_nat ((len px + c - 1) / c) * Z.to_nat c)%nat
                 = (List.length px + Z.to_nat ((- len px) mod c))%nat).
    { apply Nat2Z.inj.
      rewrite Nat2Z.inj_mul, Nat2Z.inj_add, !Z2Nat.id by lia.
      fold (len px). lia. }
    rewrite Hn. f_equal.
    + apply firstn_all2. lia.
    + f_equal. lia.
Qed.

Lemma grouping_keeps_the_values_witness :
  len [[Int 1; Int 2; Int 3]; [Int 4; Int 5; Undefined]]
  = (len [Int 1; Int 2; Int 3; Int 4; Int 5] + 3 - 1) / 3
  /\ (forall t, In t [[Int 1; Int 2; Int 3]; [Int 4; Int 5; Undefined]] ->
        len t = 3)
  /\ List.concat [[Int 1; Int 2; Int 3]; [Int 4; Int 5; Undefined]]
     = [Int 1; Int 2; Int 3; Int 4; Int 5]
       ++ repeat Undefined
            (Z.to_nat ((- len [Int 1; Int 2; Int 3; Int 4; Int 5]) mod 3)).
Proof.
  apply (grouping_keeps_the_values [Int 1; Int 2; Int 3; Int 4; Int 5] 3).
  - lia.
  - reflexivity.
Defined.

(** The grouping of the earlier revision keeps the complete tuples of
    four and drops what is left: read one after the other its tuples
    are the first [4*floor(pixels.length/4)] values, they are the first
    [floor(pixels.length/4)] tuples of the later revision's grouping by
    four, and the two groupings are the same when four divides the
    number of values. *)
Theorem earlier_grouping_drops_the_rest (px : list value) :
  List.concat (Index.group px) = firstn (4 * (List.length px / 4)) px
  /\ (forall tuples,
        group px (Some 4) = Some tuples ->
        Index.group px = firstn (List.length px / 4) tuples)
  /\ (len px mod 4 = 0 -> group px (Some 4) = Some (Index.group px)).
Proof.
  assert (Hm : Z.to_nat (len px / 4) = (List.length px / 4)%nat).
  { unfold len. change 4 with (Z.of_nat 4).
    rewrite <- Nat2Z.inj_div. apply Nat2Z.id. }
  pose proof (Nat.Div0.mul_div_le (List.length px) 4) as Hle.
  pose proof (len_nonneg px) as Hnn.
  split; [|split].
  - unfold Index.group. rewrite Hm.
    rewrite (tuples_concat px 4 _ ltac:(lia) 0%nat). cbn [Nat.mul].
    rewrite read_slots.
    change (Z.to_nat 4) with 4%nat.
    replace (List.length px / 4 * 4 - List.length px)%nat with 0%nat by lia.
    cbn [repeat]. rewrite app_nil_r. f_equal. lia.
  - intros tuples Hg. unfold group in Hg. cbn [Z.eqb Z.ltb Z.compare] in Hg.
    injection Hg as <-.
    rewrite firstn_map, firstn_seq_le.
    + unfold Index.group. now rewrite Hm.
    + rewrite <- Hm. apply Z2Nat.inj_le.
      * apply Z.div_pos; lia.
      * apply Z.div_pos; lia.
      * apply Z.div_le_mono; lia.
  - intros Hdiv. unfold group, Index.group. cbn [Z.eqb Z.ltb Z.compare].
    do 3 f_equal.
    pose proof (Z.div_mod (len px) 4 ltac:(lia)) as Hdm.
    f_equal. symmetry. apply Z.div_unique_pos with (r := 3); lia.
Qed.

Lemma earlier_grouping_drops_the_rest_witness :
  List.concat (Index.group [Int 1; Int 2; Int 3; Int 4; Int 5])
  = firstn (4 * (List.length [Int 1; Int 2; Int 3; Int 4; Int 5] / 4))
      [Int 1; Int 2; Int 3; Int 4; Int 5]
  /\ (forall tuples,
        group [Int 1; Int 2; Int 3; Int 4; Int 5] (Some 4) = Some tuples ->
        Index.group [Int 1; Int 2; Int 3; Int 4; Int 5]
        = firstn (List.length [Int 1; Int 2; Int 3; Int 4; Int 5] / 4) tuples)
  /\ (len [Int 1; Int 2; Int 3; Int 4; Int 5] mod 4 = 0 ->
      group [Int 1; Int 2; Int 3; Int 4; Int 5] (Some 4)
      = Some (Index.group [Int 1; Int 2; Int 3; Int 4; Int 5])).
Proof.
  exact (earlier_grouping_drops_the_rest [Int 1; Int 2; Int 3; Int 4; Int 5]).
Defined.


(** ** [decode]: a well-formed file of depth 8 *)

Lemma group_tuples (px : list value) (c : Z) (tuples : list (list value)) :
  0 < c ->
  group px (Some c) = Some tuples ->
  tuples = map (fun n => tuple px c (Z.of_nat n))
             (seq 0 (Z.to_nat ((len px + c - 1) / c))).
Proof.
  intros Hc Hg. unfold group in Hg.
  replace (c =? 0) with false in Hg by (symmetry; apply Z.eqb_neq; lia).
  replace (c <? 0) with false in Hg by (symmetry; apply Z.ltb_ge; lia).
  now injection Hg as <-.
Qed.

(** The later revision on a well-formed file of depth 8 and colour type
    6 or 2: a header chunk, chunks that are neither header nor end, an
    end chunk, image data that inflates to [height] scanlines of a
    selector from 0 to 4 and [width*channels] bytes each.  [decode]
    ends, within one turn per chunk, and resolves with the header's
    fields and [width*height] pixels, every pixel [channels] samples
    and every sample a byte. *)
Theorem well_formed_file_resolves (inflate : list Z -> option (list Z))
    (png hdr endp : list Z) (cs : list (tag * list Z)) (col ch : Z)
    (stream : list Z) :
  signature_ok png = true ->
  laid_out png 8 ((IHDR, hdr) :: cs ++ [(IEND, endp)]) (len png) ->
  len hdr = 13 ->
  lookup hdr 8 = Some 8 ->
  lookup hdr 9 = Some col ->
  (col = 6 /\ ch = 4) \/ (col = 2 /\ ch = 3) ->
  lookup hdr 12 <> Some 1 ->
  Forall data_chunk cs ->
  inflate (idat_payloads cs) = Some stream ->
  Forall is_byte stream ->
  0 <= read32 hdr 0 ->
  0 <= read32 hdr 4 ->
  read32 hdr 4 * (read32 hdr 0 * ch + 1) <= len stream ->
  (forall j, 0 <= j < read32 hdr 4 ->
     exists sel,
       lookup stream (j * (read32 hdr 0 * ch + 1)) = Some sel
       /\ 0 <= sel <= 4) ->
  exists tuples,
    decode inflate png (List.length cs + 2) =
    Some (mkRun
            (Resolved (mkImage (Some (read32 hdr 0)) (Some (read32 hdr 4))
                         (Int 8) (Int col) (Some ch) tuples))
            (IHDR :: map fst cs ++ [IEND]))
    /\ len tuples = read32 hdr 0 * read32 hdr 4
    /\ forall t, In t tuples ->
         len t = ch /\ forall v, In v t -> is_byte_value v.
Proof.
  intros Hsig Hlaid Hlen Hd Hcol Hch Hil Hdata Hinf Hbytes Hw Hh Hfull Hsel.
  set (w := read32 hdr 0) in *. set (h := read32 hdr 4) in *.
  assert (Hc : 0 < ch) by (destruct Hch as [[_ ->] | [_ ->]]; lia).
  assert (Hs : 0 <= w * ch) by nia.
  destruct (row_loop_total stream (Some (8 * (w * ch))) (Some ch)
              (Z.to_nat h) 0 []) as [out Hrun].
  { intros r Hr. destruct (Hsel r) as (sel & Hl & Hv); [lia|].
    apply (valid_selector stream (w * ch) (Some ch) r sel Hl Hv). }
  assert (Hdec : decodeIDAT stream (Some (w * 8 * ch)) (Some ch) (Some h)
                 = (out, None)).
  { unfold decodeIDAT. cbn [rows].
    replace (w * 8 * ch) with (8 * (w * ch)) by lia. now rewrite Hrun. }
  destruct (whole_file_run inflate png hdr endp cs 8 col ch stream out None
              Hsig Hlaid Hlen Hd Hcol Hch Hil Hdata Hinf Hdec)
    as (tuples & Hg & Hres).
  destruct (completed_run stream (w * ch) ch h out Hc Hs Hh Hrun)
    as (Hobeys & Hout).
  exists tuples. split; [exact Hres|].
  pose proof (group_widths out ch tuples Hg) as Hwidths.
  apply (group_tuples out ch tuples Hc) in Hg.
  assert (Hcount : (len out + ch - 1) / ch = w * h).
  { symmetry. apply (Z.div_unique_pos _ _ _ (ch - 1)); [lia|].
    rewrite Hout. ring. }
  rewrite Hcount in Hg.
  split.
  - rewrite Hg. unfold len. rewrite length_map, length_seq, Z2Nat.id by nia.
    reflexivity.
  - intros t Ht. split.
    + unfold len. rewrite (Hwidths t Ht), Z2Nat.id by lia. reflexivity.
    + intros v Hv. rewrite Hg in Ht. apply in_map_iff in Ht.
      destruct Ht as (n & <- & Hn). apply in_seq in Hn.
      unfold tuple in Hv. apply in_map_iff in Hv.
      destruct Hv as (k & <- & Hk). apply in_seq in Hk.
      assert (Hwh : 0 <= w * h) by nia.
      assert (Hnw : Z.of_nat n < w * h) by lia.
      assert (Hkc : Z.of_nat k < ch) by lia.
      set (p := Z.of_nat n * ch + Z.of_nat k).
      assert (Hp : 0 <= p < h * (w * ch)) by (unfold p; nia).
      assert (Hspos : 0 < w * ch) by nia.
      assert (Hrow : p / (w * ch) < h)
        by (apply Z.div_lt_upper_bound; lia).
      apply (reconstructed_bytes stream (w * ch) ch h out
               Hbytes Hc Hs Hobeys Hout p); [lia | lia | nia].
Qed.

Lemma well_formed_file_resolves_witness :
  exists tuples,
    decode more_inflate png_split (3 + 2) =
    Some (mkRun
            (Resolved (mkImage
                         (Some (read32 [0; 0; 0; 1; 0; 0; 0; 1; 8; 6; 0; 0; 0] 0))
                         (Some (read32 [0; 0; 0; 1; 0; 0; 0; 1; 8; 6; 0; 0; 0] 4))
                         (Int 8) (Int 6) (Some 4) tuples))
            (IHDR :: map fst [(Other, [0; 0; 177; 143]);
                              (IDAT, [120; 1; 1; 5; 0; 250; 255]);
                              (IDAT, [0; 10; 20; 30; 255; 1; 164; 1; 60])]
             ++ [IEND]))
    /\ len tuples = read32 [0; 0; 0; 1; 0; 0; 0; 1; 8; 6; 0; 0; 0] 0
                    * read32 [0; 0; 0; 1; 0; 0; 0; 1; 8; 6; 0; 0; 0] 4
    /\ forall t, In t tuples ->
         len t = 4 /\ forall v, In v t -> is_byte_value v.
Proof.
  apply (well_formed_file_resolves more_inflate png_split
           [0; 0; 0; 1; 0; 0; 0; 1; 8; 6; 0; 0; 0] []
           [(Other, [0; 0; 177; 143]);
            (IDAT, [120; 1; 1; 5; 0; 250; 255]);
            (IDAT, [0; 10; 20; 30; 255; 1; 164; 1; 60])]
           6 4 [0; 10; 20; 30; 255]).
  - reflexivity.
  - exact png_split_laid_out.
  - reflexivity.
  - reflexivity.
  - reflexivity.
  - left. split; reflexivity.
  - vm_compute. discriminate.
  - repeat (apply Forall_cons; [unfold data_chunk; cbn [fst]; auto|]).
    apply Forall_nil.
  - reflexivity.
  - repeat (apply Forall_cons; [unfold is_byte; lia|]). apply Forall_nil.
  - vm_compute. discriminate.
  - vm_compute. discriminate.
  - vm_compute. discriminate.
  - intros j Hj. change (read32 [0; 0; 0; 1; 0; 0; 0; 1; 8; 6; 0; 0; 0] 4)
      with 1 in Hj.
    assert (j = 0) as -> by lia. exists 0. split; [reflexivity | lia].
Defined.


(** ** [mean]: further properties *)

Lemma channel_sum_bounds (n : nat) (pixels : list (list value)) :
  (forall p v, In p pixels -> In v p -> is_byte_value v) ->
  0 <= channel_sum n pixels <= 255 * len pixels.
Proof.
  intros Hb. unfold channel_sum.
  assert (H : forall t,
    t <= fold_left
           (fun total pixel =>
              match nth_error pixel n with
              | Some (Int z) => total + z
              | _ => total
              end) pixels t
      <= t + 255 * len pixels).
  { induction pixels as [|p rest IH]; intros t.
    - unfold len. cbn. lia.
    - cbn [fold_left].
      assert (Hrest : forall q v, In q rest -> In v q -> is_byte_value v).
      { intros q v Hq Hv. apply (Hb q v); [right; assumption | assumption]. }
      assert (Hl : len (p :: rest) = len rest + 1)
        by (unfold len; cbn [List.length]; lia).
      rewrite Hl.
      destruct (nth_error p n) as [v|] eqn:E.
      + destruct (Hb p v) as (x & -> & Hx);
          [left; reflexivity | apply (nth_error_In _ _ E) |].
        unfold is_byte in Hx.
        pose proof (IH Hrest (t + x)). lia.
      + pose proof (IH Hrest t). lia. }
  pose proof (H 0). lia.
Qed.

Lemma bytes_are_integers (pixels : list (list value)) :
  (forall p v, In p pixels -> In v p -> is_byte_value v) ->
  integer_samples pixels.
Proof.
  intros Hb p v Hp Hv. destruct (Hb p v Hp Hv) as (x & -> & _). eauto.
Qed.

Lemma round_div_byte (a : Z) (n : nat) :
  (0 < n)%nat -> 0 <= a <= 255 * Z.of_nat n ->
  exists q, JS.round_div (Int a) n = Int q /\ is_byte q.
Proof.
  intros Hn Ha. destruct n as [|m]; [lia|].
  exists ((2 * a + Z.of_nat (S m)) / (2 * Z.of_nat (S m))).
  split; [reflexivity|]. unfold is_byte. split.
  - apply Z.div_pos; lia.
  - apply Z.div_lt_upper_bound; lia.
Qed.

(** The mean of an image of at least one pixel whose samples are bytes
    is four bytes. *)
Theorem mean_of_bytes (pixels : list (list value)) :
  pixels <> [] ->
  Forall (fun p => (List.length p <= 4)%nat) pixels ->
  (forall p v, In p pixels -> In v p -> is_byte_value v) ->
  exists r g b a,
    mean_color pixels = [Int r; Int g; Int b; Int a]
    /\ is_byte r /\ is_byte g /\ is_byte b /\ is_byte a.
Proof.
  intros Hne Hw Hb.
  assert (Hn : (0 < List.length pixels)%nat)
    by (destruct pixels; [congruence | cbn; lia]).
  rewrite (mean_color_channels pixels Hw). cbn [map].
  rewrite !(channel_total_integer _ pixels (bytes_are_integers pixels Hb)).
  destruct (round_div_byte (channel_sum 0 pixels) _ Hn
              (channel_sum_bounds 0 pixels Hb)) as (r & -> & Hr).
  destruct (round_div_byte (channel_sum 1 pixels) _ Hn
              (channel_sum_bounds 1 pixels Hb)) as (g & -> & Hg).
  destruct (round_div_byte (channel_sum 2 pixels) _ Hn
              (channel_sum_bounds 2 pixels Hb)) as (b & -> & Hbl).
  destruct (round_div_byte (channel_sum 3 pixels) _ Hn
              (channel_sum_bounds 3 pixels Hb)) as (a & -> & Ha).
  exists r, g, b, a. auto.
Qed.

Lemma mean_of_bytes_witness :
  exists r g b a,
    mean_color [[Int 255; Int 0; Int 7]; [Int 254; Int 1; Int 8]]
    = [Int r; Int g; Int b; Int a]
    /\ is_byte r /\ is_byte g /\ is_byte b /\ is_byte a.
Proof.
  apply (mean_of_bytes [[Int 255; Int 0; Int 7]; [Int 254; Int 1; Int 8]]).
  - discriminate.
  - repeat constructor.
  - intros p v [<- | [<- | []]] Hv;
      repeat (destruct Hv as [<- | Hv];
              [eexists; split; [reflexivity | unfold is_byte; lia]|]);
      destruct Hv.
Defined.

Lemma channel_total_repeat (n : nat) (p : list value) (x : Z) (m : nat) :
  nth_error p n = Some (Int x) ->
  channel_total n (repeat p m) = Int (Z.of_nat m * x).
Proof.
  intros Hp. unfold channel_total.
  assert (H : forall t,
    fold_left
      (fun total pixel =>
         match nth_error pixel n with
         | Some v => JS.add total v
         | None => total
         end) (repeat p m) (Int t)
    = Int (t + Z.of_nat m * x)).
  { induction m as [|m IH]; intros t.
    - cbn. f_equal. lia.
    - cbn [repeat fold_left]. rewrite Hp.
      change (JS.add (Int t) (Int x)) with (Int (t + x)).
      rewrite IH. f_equal. lia. }
  apply (H 0).
Qed.

Lemma round_div_multiple (x : Z) (m : nat) :
  (0 < m)%nat -> JS.round_div (Int (Z.of_nat m * x)) m = Int x.
Proof.
  intros Hm. destruct m as [|k]; [lia|].
  unfold JS.round_div, JS.to_number. f_equal. symmetry.
  apply (Z.div_unique_pos _ _ _ (Z.of_nat (S k))); lia.
Qed.

(** The mean of an image whose pixels are all the same pixel of integer
    samples is that pixel, with 0 for the channels it lacks. *)
Theorem mean_of_uniform_image (zs : list Z) (m : nat) :
  (List.length zs <= 4)%nat ->
  (0 < m)%nat ->
  mean_color (repeat (map Int zs) m)
  = map (fun n => Int (nth n zs 0)) [0; 1; 2; 3]%nat.
Proof.
  intros Hlen Hm.
  rewrite mean_color_channels.
  - rewrite repeat_length. apply map_ext. intros n.
    destruct (nth_error zs n) as [x|] eqn:E.
    + rewrite (channel_total_repeat n (map Int zs) x m)
        by (rewrite nth_error_map, E; reflexivity).
      rewrite (round_div_multiple x m Hm).
      f_equal. symmetry. apply (nth_error_nth _ _ _ E).
    + rewrite channel_total_absent.
      * rewrite (round_div_zero m Hm). f_equal. symmetry.
        apply nth_overflow. apply nth_error_None. exact E.
      * intros p Hp. apply repeat_spec in Hp. subst p.
        rewrite nth_error_map, E. reflexivity.
  - apply Forall_forall. intros p Hp. apply repeat_spec in Hp. subst p.
    now rewrite length_map.
Qed.

Lemma mean_of_uniform_image_witness :
  mean_color (repeat (map Int [12; 200; 7]) 5)
  = map (fun n => Int (nth n [12; 200; 7] 0)) [0; 1; 2; 3]%nat.
Proof.
  apply (mean_of_uniform_image [12; 200; 7] 5).
  - cbn. lia.
  - lia.
Defined.

Lemma add_swap (t u v : value) :
  JS.add (JS.add t u) v = JS.add (JS.add t v) u.
Proof.
  destruct t as [| |[]|a], u as [| |[]|b], v as [| |[]|c];
    cbn; try reflexivity; f_equal; lia.
Qed.

Lemma channel_total_permutation (n : nat) (pixels pixels' : list (list value)) :
  Permutation pixels pixels' ->
  channel_total n pixels = channel_total n pixels'.
Proof.
  intros Hperm. unfold channel_total. generalize (Int 0) as t.
  induction Hperm as [|p l l' _ IH|p q l|l l' l'' _ IH1 _ IH2]; intros t.
  - reflexivity.
  - cbn [fold_left]. apply IH.
  - cbn [fold_left]. f_equal.
    destruct (nth_error p n), (nth_error q n); try reflexivity.
    apply add_swap.
  - now rewrite IH1.
Qed.

(** The mean does not depend on the order of the pixels. *)
Theorem mean_ignores_pixel_order (pixels pixels' : list (list value)) :
  Permutation pixels pixels' ->
  Forall (fun p => (List.length p <= 4)%nat) pixels ->
  mean_color pixels = mean_color pixels'.
Proof.
  intros Hperm Hw.
  assert (Hw' : Forall (fun p => (List.length p <= 4)%nat) pixels')
    by (apply (Permutation_Forall Hperm Hw)).
  rewrite (mean_color_channels pixels Hw), (mean_color_channels pixels' Hw').
  rewrite (Permutation_length Hperm).
  apply map_ext. intros n.
  now rewrite (channel_total_permutation n pixels pixels' Hperm).
Qed.

Lemma mean_ignores_pixel_order_witness :
  mean_color [[Int 1; Int 2; Int 3; Int 4]; [Int 9; NaN; Int 7]]
  = mean_color [[Int 9; NaN; Int 7]; [Int 1; Int 2; Int 3; Int 4]].
Proof.
  apply (mean_ignores_pixel_order
           [[Int 1; Int 2; Int 3; Int 4]; [Int 9; NaN; Int 7]]
           [[Int 9; NaN; Int 7]; [Int 1; Int 2; Int 3; Int 4]]).
  - apply perm_swap.
  - repeat constructor.
Defined.

Lemma add_to_NaN (v : value) : JS.add NaN v = NaN.
Proof. destruct v; reflexivity. Qed.

Lemma channel_total_from_NaN (n : nat) (pixels : list (list value)) :
  fold_left
    (fun total pixel =>
       match nth_error pixel n with
       | Some v => JS.add total v
       | None => total
       end) pixels NaN = NaN.
Proof.
  induction pixels as [|p rest IH]; [reflexivity|].
  cbn [fold_left]. destruct (nth_error p n); [rewrite add_to_NaN|]; apply IH.
Qed.

(** One sample that is [NaN] or [undefined] (what the reconstruction
    leaves where the stream ended early) makes the mean of its channel
    [NaN], whatever the other pixels hold. *)
Theorem missing_sample_spoils_the_channel (pixels : list (list value))
    (p : list value) (n : nat) :
  Forall (fun p => (List.length p <= 4)%nat) pixels ->
  In p pixels ->
  nth_error p n = Some NaN \/ nth_error p n = Some Undefined ->
  nth n (mean_color pixels) Undefined = NaN.
Proof.
  intros Hw Hp Hn.
  assert (Hlt : (n < 4)%nat).
  { rewrite Forall_forall in Hw. pose proof (Hw p Hp) as Hlen.
    assert (nth_error p n <> None) as Hsome
      by (destruct Hn as [-> | ->]; discriminate).
    apply nth_error_Some in Hsome. lia. }
  assert (Htotal : channel_total n pixels = NaN).
  { destruct (in_split p pixels Hp) as (l1 & l2 & ->).
    unfold channel_total. rewrite fold_left_app. cbn [fold_left].
    assert (E : match nth_error p n with
                | Some v =>
                    JS.add
                      (fold_left
                         (fun total pixel =>
                            match nth_error pixel n with
                            | Some v0 => JS.add total v0
                            | None => total
                            end) l1 (Int 0)) v
                | None =>
                    fold_left
                      (fun total pixel =>
                         match nth_error pixel n with
                         | Some v0 => JS.add total v0
                         | None => total
                         end) l1 (Int 0)
                end = NaN).
    { destruct Hn as [-> | ->].
      - destruct (fold_left _ l1 (Int 0)) as [| |[]|?]; reflexivity.
      - apply add_undefined. }
    rewrite E. apply channel_total_from_NaN. }
  rewrite (mean_color_channels pixels Hw).
  destruct n as [|[|[|[|n]]]]; try lia; cbn [map nth];
    rewrite Htotal; reflexivity.
Qed.

Lemma missing_sample_spoils_the_channel_witness :
  nth 1 (mean_color [[Int 1; Int 2; Int 3; Int 4]; [Int 9; NaN; Int 7]])
    Undefined = NaN.
Proof.
  apply (missing_sample_spoils_the_channel
           [[Int 1; Int 2; Int 3; Int 4]; [Int 9; NaN; Int 7]]
           [Int 9; NaN; Int 7] 1).
  - repeat constructor.
  - right. left. reflexivity.
  - left. reflexivity.
Defined.


(** ** [decode]: a file with no header chunk *)

(** Nothing requires a header chunk.  A file of chunks that are neither
    header nor end, then an end chunk, whose image data inflates, is
    not refused: with no height there is no scanline to reconstruct,
    and the later revision resolves with a record of no field but an
    empty [data]; so does the earlier one, unless it met a palette
    chunk. *)
Theorem headerless_file_resolves (inflate : list Z -> option (list Z))
    (png endp : list Z) (cs : list (tag * list Z)) (stream : list Z) :
  signature_ok png = true ->
  laid_out png 8 (cs ++ [(IEND, endp)]) (len png) ->
  Forall data_chunk cs ->
  inflate (idat_payloads cs) = Some stream ->
  decode inflate png (List.length cs + 1)
  = Some (mkRun (Resolved empty_image) (map fst cs ++ [IEND]))
  /\ Index.decode inflate png (List.length cs + 1)
     = Some (mkRun (if has_palette cs then Rejected Palette
                    else Resolved empty_image)
               (map fst cs ++ [IEND])).
Proof.
  intros Hsig Hlaid Hdata Hinf.
  destruct (laid_out_app png _ _ _ _ Hlaid) as (m & Hfront & Hend).
  inversion Hend as [|? ? ? ? ? Hpos Hfit Hl Htag Hsub Hlast]; subst.
  inversion Hlast; subst.
  pose proof (len_nonneg endp) as Hnn.
  split.
  - unfold decode. rewrite Hsig.
    erewrite (walk_data_chunks inflate png cs 8 m Hfront Hdata start 1);
      [|reflexivity].
    unfold start. cbn [i image base pixels rejected visited app walk].
    replace (m <? len png) with true by (symmetry; apply Z.ltb_lt; lia).
    unfold chunk. cbn [i image base pixels rejected visited].
    rewrite Htag, Hinf, Hl.
    change (decodeIDAT stream (stride8 empty_image) (channels empty_image)
              (height empty_image)) with (@nil value, @None error).
    cbv beta iota zeta. cbn [i image base pixels rejected visited walk].
    replace (m + (len endp + 12) <? len png) with false
      by (symmetry; apply Z.ltb_ge; lia).
    reflexivity.
  - unfold Index.decode. rewrite Hsig.
    erewrite (index_walk_data_chunks inflate png cs 8 m Hfront Hdata start 1);
      [|reflexivity].
    unfold start. cbn [i image base pixels rejected visited app Index.walk].
    replace (m <? len png) with true by (symmetry; apply Z.ltb_lt; lia).
    unfold Index.chunk. cbn [i image base pixels rejected visited].
    rewrite Htag, Hinf, Hl.
    change (Index.decodeIDAT stream (Index.stride8 empty_image)
              (height empty_image)) with (Some (@nil value)).
    cbv beta iota zeta. cbn [i image base pixels rejected visited Index.walk].
    replace (m + (len endp + 12) <? len png) with false
      by (symmetry; apply Z.ltb_ge; lia).
    unfold Index.finish, settle, palette_rejection.
    cbn [rejected visited image pixels].
    destruct (has_palette cs); reflexivity.
Qed.

Lemma png_headerless_laid_out :
  laid_out png_headerless 8
    ([(Other, [0; 0; 177; 143]); (IDAT, zlib_rgba)] ++ [(IEND, [])])
    (len png_headerless).
Proof. cbn [app]. lay_out. Qed.

Lemma headerless_file_resolves_witness :
  decode more_inflate png_headerless (2 + 1)
  = Some (mkRun (Resolved empty_image)
            (map fst [(Other, [0; 0; 177; 143]); (IDAT, zlib_rgba)] ++ [IEND]))
  /\ Index.decode more_inflate png_headerless (2 + 1)
     = Some (mkRun (if has_palette [(Other, [0; 0; 177; 143]); (IDAT, zlib_rgba)]
                    then Rejected Palette
                    else Resolved empty_image)
               (map fst [(Other, [0; 0; 177; 143]); (IDAT, zlib_rgba)] ++ [IEND])).
Proof.
  apply (headerless_file_resolves more_inflate png_headerless []
           [(Other, [0; 0; 177; 143]); (IDAT, zlib_rgba)] [0; 10; 20; 30; 255]).
  - reflexivity.
  - exact png_headerless_laid_out.
  - repeat (apply Forall_cons; [unfold data_chunk; cbn [fst]; auto|]).
    apply Forall_nil.
  - reflexivity.
Defined.


(** ** [decodeIDAT]: what it reads of the stream *)

Lemma push_loop_ext (body body' : Z -> list value -> value) (n : nat) :
  forall (k : Z) (bs : list value),
    (forall m b, k <= m < k + Z.of_nat n -> body m b = body' m b) ->
    push_loop n k body bs = push_loop n k body' bs.
Proof.
  induction n as [|n IH]; intros k bs H; [reflexivity|].
  cbn [push_loop]. rewrite (H k bs) by lia.
  apply IH. intros m b Hm. apply H. lia.
Qed.

(** Two streams with the same scanline [j] have the same [case] for a
    selector, and the [case] pushes the same values. *)
Lemma filter_of_same_row (data data' : list Z) (length8 channels : option Z)
    (sel : value) (j : Z) (P : Z -> Prop) :
  (forall k, P k ->
     byte_at (scanline data length8 j) k = byte_at (scanline data' length8 j) k) ->
  match filter_of data length8 channels sel,
        filter_of data' length8 channels sel with
  | Some body, Some body' => forall k bs, P k -> body j k bs = body' j k bs
  | None, None => True
  | _, _ => False
  end.
Proof.
  intros H. unfold filter_of. destruct sel as [| | |z]; try exact I.
  destruct (z =? 0); [|destruct (z =? 1); [|destruct (z =? 2);
    [|destruct (z =? 3); [|destruct (z =? 4); [|exact I]]]]];
    intros k bs Hk;
    unfold filter_none, filter_sub, filter_up, filter_average, filter_paeth;
    rewrite (H k Hk); reflexivity.
Qed.

Lemma row_loop_same_rows (data data' : list Z) (s : Z) (channels : option Z)
    (h : Z) :
  0 <= s ->
  (forall p, 0 <= p < h * (s + 1) -> lookup data p = lookup data' p) ->
  forall (n : nat) (j : Z) (bs : list value),
    0 <= j -> j + Z.of_nat n <= h ->
    row_loop data (Some (8 * s)) channels n j bs
    = row_loop data' (Some (8 * s)) channels n j bs.
Proof.
  intros Hs Hag. induction n as [|n IH]; intros j bs Hj Hn; [reflexivity|].
  cbn [row_loop]. rewrite !selector_int.
  rewrite <- (Hag (j * (s + 1))) by nia.
  pose proof (filter_of_same_row data data' (Some (8 * s)) channels
                (byte_value (lookup data (j * (s + 1)))) j
                (fun k => 0 <= k < s)) as Hf.
  destruct (filter_of data (Some (8 * s)) channels
              (byte_value (lookup data (j * (s + 1))))) as [body|];
    destruct (filter_of data' (Some (8 * s)) channels
                (byte_value (lookup data (j * (s + 1))))) as [body'|].
  - rewrite (push_loop_ext (body j) (body' j)).
    + apply IH; lia.
    + intros m b Hm. rewrite columns_int in Hm. apply Hf; [|lia].
      intros k Hk. rewrite !scanline_int by assumption.
      unfold byte_at. rewrite (Hag (j * (s + 1) + 1 + k)) by nia.
      reflexivity.
  - exfalso. apply Hf. intros k Hk. rewrite !scanline_int by assumption.
    unfold byte_at. rewrite (Hag (j * (s + 1) + 1 + k)) by nia. reflexivity.
  - exfalso. apply Hf. intros k Hk. rewrite !scanline_int by assumption.
    unfold byte_at. rewrite (Hag (j * (s + 1) + 1 + k)) by nia. reflexivity.
  - reflexivity.
Qed.

(** The reconstruction reads the first [height*(length+1)] bytes of the
    stream and nothing else: two streams that agree there, such as a
    stream and the same stream with more bytes behind its last
    scanline, are reconstructed alike (or refused alike) by either
    revision. *)
Theorem reconstruction_reads_the_scanlines_only (data data' : list Z)
    (stride height : Z) (channels : option Z) :
  0 <= stride ->
  (forall p, 0 <= p < height * (stride + 1) -> lookup data p = lookup data' p) ->
  decodeIDAT data (Some (8 * stride)) channels (Some height)
  = decodeIDAT data' (Some (8 * stride)) channels (Some height)
  /\ Index.decodeIDAT data (Some (8 * stride)) (Some height)
     = Index.decodeIDAT data' (Some (8 * stride)) (Some height).
Proof.
  intros Hs Hag.
  assert (Hrows : forall ch,
    row_loop data (Some (8 * stride)) ch (Z.to_nat height) 0 []
    = row_loop data' (Some (8 * stride)) ch (Z.to_nat height) 0 []).
  { intros ch. destruct (Z_le_gt_dec height 0) as [Hle | Hgt].
    - replace (Z.to_nat height) with 0%nat by lia. reflexivity.
    - apply (row_loop_same_rows data data' stride ch height Hs Hag); lia. }
  split.
  - unfold decodeIDAT. cbn [rows]. now rewrite Hrows.
  - unfold Index.decodeIDAT. cbn [rows]. now rewrite Hrows.
Qed.

Lemma reconstruction_reads_the_scanlines_only_witness :
  decodeIDAT [0; 10; 20; 30; 255] (Some (8 * 4)) (Some 4) (Some 1)
  = decodeIDAT [0; 10; 20; 30; 255; 9; 9; 9] (Some (8 * 4)) (Some 4) (Some 1)
  /\ Index.decodeIDAT [0; 10; 20; 30; 255] (Some (8 * 4)) (Some 1)
     = Index.decodeIDAT [0; 10; 20; 30; 255; 9; 9; 9] (Some (8 * 4)) (Some 1).
Proof.
  apply (reconstruction_reads_the_scanlines_only
           [0; 10; 20; 30; 255] [0; 10; 20; 30; 255; 9; 9; 9] 4 1 (Some 4)).
  - lia.
  - intros p Hp.
    assert (p = 0 \/ p = 1 \/ p = 2 \/ p = 3 \/ p = 4) as
      [-> | [-> | [-> | [-> | ->]]]] by lia; reflexivity.
Defined.


(** ** [decode]: when the loop ends *)

Lemma chunk_cursor (inflate : list Z -> option (list Z)) (png : list Z)
    (w w' : walker) :
  chunk inflate png w = Next w' ->
  i w' = i w + (read32 png (i w) + 12).
Proof.
  unfold chunk. destruct (tag_of png (i w)).
  - destruct (loose_eq (byte_at png (i w + 20)) 1); [discriminate|].
    cbn [color].
    destruct (loose_eq (byte_at png (i w + 17)) 6); [now intros [= <-]|].
    destruct (loose_eq (byte_at png (i w + 17)) 2); [now intros [= <-]|].
    destruct (loose_eq (byte_at png (i w + 17)) 3); [now intros [= <-]|].
    discriminate.
  - now intros [= <-].
  - now intros [= <-].
  - destruct (inflate (base w)) as [baseData|]; [|discriminate].
    destruct (decodeIDAT baseData (stride8 (image w)) (channels (image w))
                (height (image w))) as [bytes [e|]]; now intros [= <-].
  - now intros [= <-].
Qed.

Lemma index_chunk_cursor (inflate : list Z -> option (list Z)) (png : list Z)
    (w w' : walker) :
  Index.chunk inflate png w = Next w' ->
  i w' = i w + (read32 png (i w) + 12).
Proof.
  unfold Index.chunk. destruct (tag_of png (i w)).
  - cbn [color].
    destruct (negb (loose_eq (byte_at png (i w + 17)) 6)); [discriminate|].
    destruct (loose_eq (byte_at png (i w + 20)) 1); [discriminate|].
    now intros [= <-].
  - now intros [= <-].
  - now intros [= <-].
  - destruct (inflate (base w)) as [baseData|]; [|discriminate].
    destruct (Index.decodeIDAT baseData (Index.stride8 (image w))
                (height (image w))) as [bytes|]; [|discriminate].
    now intros [= <-].
  - now intros [= <-].
Qed.

Lemma walk_ends (inflate : list Z -> option (list Z)) (png : list Z)
    (fuel : nat) :
  (forall p, on_chain png p -> p < len png -> -12 < read32 png p) ->
  forall w,
    on_chain png (i w) ->
    (Z.to_nat (len png - i w) <= fuel)%nat ->
    exists t, walk inflate png fuel w = Some t.
Proof.
  intros Hlen.
  induction fuel as [|fuel IH]; intros w Hon Hfuel; cbn [walk];
    destruct (i w <? len png) eqn:E; eauto.
  - apply Z.ltb_lt in E. lia.
  - apply Z.ltb_lt in E.
    destruct (chunk inflate png w) as [w'| |] eqn:Hc; eauto.
    pose proof (chunk_cursor inflate png w w' Hc) as Hi.
    pose proof (Hlen (i w) Hon E) as Hl.
    apply IH.
    + rewrite Hi. apply chain_next; assumption.
    + lia.
Qed.

Lemma index_walk_ends (inflate : list Z -> option (list Z)) (png : list Z)
    (fuel : nat) :
  (forall p, on_chain png p -> p < len png -> -12 < read32 png p) ->
  forall w,
    on_chain png (i w) ->
    (Z.to_nat (len png - i w) <= fuel)%nat ->
    exists t, Index.walk inflate png fuel w = Some t.
Proof.
  intros Hlen.
  induction fuel as [|fuel IH]; intros w Hon Hfuel; cbn [Index.walk];
    destruct (i w <? len png) eqn:E; eauto.
  - apply Z.ltb_lt in E. lia.
  - apply Z.ltb_lt in E.
    destruct (Index.chunk inflate png w) as [w'| |] eqn:Hc; eauto.
    pose proof (index_chunk_cursor inflate png w w' Hc) as Hi.
    pose proof (Hlen (i w) Hon E) as Hl.
    apply IH.
    + rewrite Hi. apply chain_next; assumption.
    + lia.
Qed.

(** Every turn of the loop moves the cursor by [length+12].  On a
    buffer in which no length field the cursor can come to reads -12 or
    less (so on every buffer whose length fields are not negative) the
    cursor moves forward each turn, and the executor of [decode] comes
    to its end, in both revisions, within as many turns as the buffer
    has bytes after the signature, whatever [pako.inflate] does. *)
Theorem decode_terminates (inflate : list Z -> option (list Z))
    (png : list Z) (fuel : nat) :
  (forall p, on_chain png p -> p < len png -> -12 < read32 png p) ->
  (Z.to_nat (len png - 8) <= fuel)%nat ->
  (exists r, decode inflate png fuel = Some r)
  /\ (exists r, Index.decode inflate png fuel = Some r).
Proof.
  intros Hlen Hfuel. split.
  - unfold decode. destruct (signature_ok png); [|eauto].
    destruct (walk_ends inflate png fuel Hlen start (chain_start png) Hfuel)
      as [t Ht].
    rewrite Ht.
    assert (Hshape : image_shape (image (walker_of t))).
    { apply (walk_shape inflate png fuel start t); [left; reflexivity | exact Ht]. }
    unfold finish. destruct t as [w | w | w]; eauto.
    cbn [walker_of] in Hshape.
    destruct (group_total (pixels w) (channels (image w))) as [tuples ->];
      [|eauto].
    destruct Hshape as [-> | [[_ ->] | [_ ->]]]; discriminate.
  - unfold Index.decode. destruct (signature_ok png); [|eauto].
    destruct (index_walk_ends inflate png fuel Hlen start (chain_start png) Hfuel)
      as [t ->].
    unfold Index.finish. destruct t; eauto.
Qed.

Lemma decode_terminates_witness :
  (exists r, decode sample_inflate (png_signature ++ iend_chunk) 12 = Some r)
  /\ (exists r,
        Index.decode sample_inflate (png_signature ++ iend_chunk) 12 = Some r).
Proof.
  apply (decode_terminates sample_inflate (png_signature ++ iend_chunk) 12).
  - intros p Hon Hp.
    assert (Hat : p = 8 \/ p = 20).
    { clear Hp. induction Hon as [|q Hq IH Hlt]; [left; reflexivity|].
      destruct IH as [-> | ->]; [right; reflexivity|].
      exfalso. revert Hlt. vm_compute. discriminate. }
    destruct Hat as [-> | ->]; [reflexivity|].
    exfalso. revert Hp. vm_compute. discriminate.
  - vm_compute. constructor.
Defined.

(** ** [decode]: a declared length that runs past the end *)




